(** * Order reconciliation and order-number generation

    A shallow embedding of the order endpoints of [firebase-connector.js]
    (the [PUT /orders-by-number/:order_no] transaction, the
    [GET /api/orders/next-order-number] generator, [POST /orders] and
    [GET /orders-by-number/:order_no]), of its customer updates and token
    check, and of the update-only variant of the reconciliation handler, in
    the repository's other source file. *)

From stdpp Require Import gmap strings list fin_maps sorting.
From Stdlib Require Import ZArith Lia Ascii DecimalString.

Local Open Scope string_scope.
Local Open Scope list_scope.
Local Open Scope Z_scope.

(** ** JSON values and JavaScript objects *)

(** A JSON scalar.  Numbers are integers, and stand for the numbers of
    JavaScript as far as these hold integers exactly ([safe_integer] below);
    a key that is absent from an object reads as [undefined], which is
    [None] below. *)
Inductive value :=
| VNull
| VBool (b : bool)
| VNum (n : Z)
| VStr (s : string).

#[global] Instance value_eq_dec : EqDecision value.
Proof. solve_decision. Defined.

(** JavaScript truthiness of [o.k]. *)
Definition truthy (v : option value) : bool :=
  match v with
  | None | Some VNull => false
  | Some (VBool b) => b
  | Some (VNum n) => negb (n =? 0)
  | Some (VStr s) => negb (String.eqb s "")
  end.

(** [a || b] on a property read. *)
Definition js_or (a : option value) (b : value) : value :=
  match a with
  | Some v => if truthy a then v else b
  | None => b
  end.

(** An incoming line descriptor, in the shape the handler destructures it:
    [const { id, _deleted, ...fields } = item].  The id is a JSON integer
    (the queries cast it to [int]) or absent. *)
Record item := Item {
  id : option Z;
  _deleted : option value;
  fields : gmap string value;
}.

#[global] Instance item_eq_dec : EqDecision item.
Proof. solve_decision. Defined.

(** [item.id] and [item._deleted] used as conditions. *)
Definition has_id (it : item) : bool :=
  match id it with
  | Some n => negb (n =? 0)
  | None => false
  end.

Definition is_deleted (it : item) : bool := truthy (_deleted it).

(** ** [allItems]: the batch sorted by [(a.id || 0) - (b.id || 0)] *)

Definition sort_key (it : item) : Z :=
  match id it with
  | Some n => n
  | None => 0
  end.

(** [Array.prototype.sort] is stable; with a consistent comparator it is the
    stable ascending sort by key. *)
Section StableSort.
Context {A : Type} (key : A → Z).

Fixpoint sort_insert (x : A) (l : list A) : list A :=
  match l with
  | [] => [x]
  | y :: l' => if key x <=? key y then x :: l else y :: sort_insert x l'
  end.

Definition js_sort (l : list A) : list A := foldr sort_insert [] l.

Definition ascending : list A → Prop :=
  StronglySorted (λ a b, key a ≤ key b).
End StableSort.

Definition allItems (body : list item) : list item := js_sort sort_key body.

(** ** The differ (lines 708-711) *)

Definition itemsToInsert (all : list item) : list item :=
  filter (λ it, negb (has_id it) && negb (is_deleted it) = true) all.

Definition itemsToUpdate (all : list item) : list item :=
  filter (λ it, has_id it && negb (is_deleted it) = true) all.

Definition itemsToDelete (all : list item) : list item :=
  filter (λ it, is_deleted it && has_id it = true) all.

(** ** The store

    The store is the PostgreSQL database behind [pool], an external
    collaborator taken to be transactional.  The [orders] table is a list of
    rows; a row maps column names to values and carries its [id] and
    [order_no] as ordinary columns.  A client sees the committed table, or
    its own working copy while it has a transaction open: [BEGIN] takes the
    copy, [COMMIT] publishes it and [ROLLBACK] drops it.  The id sequence is
    not transactional. *)

Record store := Store {
  rows : list (gmap string value);
  next_id : Z;
}.

Record client := Client {
  committed : list (gmap string value);
  tx : option (list (gmap string value));
  seq : Z;
}.

(** [pool.connect()]: a connection with no transaction open. *)
Definition connect (s : store) : client :=
  {| committed := rows s; tx := None; seq := next_id s |}.

(** [client.release()] hands the connection back to the pool; what the next
    request finds is the committed table.  The store has no place for a
    transaction left open on a pooled connection, and needs none: a [try]
    block that succeeds has committed, and every [catch] block rolls back
    ([put_try_catch_closed], [post_try_closed], [uo_try_closed]). *)
Definition release (c : client) : store :=
  {| rows := committed c; next_id := seq c |}.

Definition visible (c : client) : list (gmap string value) :=
  match tx c with
  | Some t => t
  | None => committed c
  end.

Definition write (t : list (gmap string value)) (c : client) : client :=
  match tx c with
  | Some _ => {| committed := committed c; tx := Some t; seq := seq c |}
  | None => {| committed := t; tx := None; seq := seq c |}
  end.

(** Errors thrown inside the [try] block, by the handler or by the store. *)
Inductive exn :=
| OrderDoesNotExist (order_no : string)
| CannotDeleteItems (missingIds : list Z) (order_no : string)
| ItemDoesNotExist (item_id : Z)
| ItemBelongsTo (item_id : Z) (other : option value) (order_no : string)
| NoRecordFound (item_id : Z) (order_no : string)
| FailedToInsert (index : nat) (cause : exn)
| StoreRejects (column : string) (v : value).

Inductive result (A : Type) :=
| Ok (a : A)
| Throw (e : exn).
Arguments Ok {A} a.
Arguments Throw {A} e.

(** Code running against a client: the client state survives a throw, which
    is what the [catch] block rolls back. *)
Definition M (A : Type) : Type := client → result A * client.

#[global] Instance M_ret : MRet M := λ A a c, (Ok a, c).
#[global] Instance M_bind : MBind M := λ A B f m c,
  match m c with
  | (Ok a, c') => f a c'
  | (Throw e, c') => (Throw e, c')
  end.

Definition throw {A} (e : exn) : M A := λ c, (Throw e, c).

Definition catch {A} (m : M A) (h : exn → M A) : M A := λ c,
  match m c with
  | (Ok a, c') => (Ok a, c')
  | (Throw e, c') => h e c'
  end.

(** *** Row predicates of the [WHERE] clauses *)

Definition order_no_is (order_no : string) (r : gmap string value) : Prop :=
  r !! "order_no" = Some (VStr order_no).

Definition id_is (i : Z) (r : gmap string value) : Prop :=
  r !! "id" = Some (VNum i).

#[global] Instance order_no_is_dec order_no r : Decision (order_no_is order_no r).
Proof. unfold order_no_is. apply _. Defined.

#[global] Instance id_is_dec i r : Decision (id_is i r).
Proof. unfold id_is. apply _. Defined.

(** [id = ANY($1::int[])] *)
Definition id_in (ids : list Z) (r : gmap string value) : Prop :=
  ∃ i, i ∈ ids ∧ id_is i r.

#[global] Instance id_in_dec ids r : Decision (id_in ids r).
Proof.
  refine (match r !! "id" as o return r !! "id" = o → _ with
          | Some (VNum i) => λ H, cast_if (decide (i ∈ ids))
          | _ => λ H, right _
          end eq_refl);
    unfold id_in, id_is; try (intros (j & _ & Hj); congruence).
  - exists i. done.
  - intros (j & Hin & Hj). rewrite H in Hj. by simplify_eq.
Defined.

(** The id of a returned row, [r.id]. *)
Definition row_id (r : gmap string value) : Z :=
  match r !! "id" with
  | Some (VNum i) => i
  | _ => 0
  end.

(** *** Transaction control *)

Definition query_begin : M unit := λ c,
  (Ok (), {| committed := committed c; tx := Some (visible c); seq := seq c |}).

Definition query_commit : M unit := λ c,
  (Ok (), {| committed := visible c; tx := None; seq := seq c |}).

Definition query_rollback : M unit := λ c,
  (Ok (), {| committed := committed c; tx := None; seq := seq c |}).

(** *** Statements *)

Definition get_visible : M (list (gmap string value)) := λ c, (Ok (visible c), c).

Definition put_visible (t : list (gmap string value)) : M unit :=
  λ c, (Ok (), write t c).

(** [nextval] of the id sequence. *)
Definition next_seq : M Z := λ c,
  (Ok (seq c), {| committed := committed c; tx := tx c; seq := seq c + 1 |}).

(** [SELECT ... FROM orders WHERE p] *)
Definition sql_select (p : gmap string value → Prop) `{!∀ r, Decision (p r)}
    : M (list (gmap string value)) :=
  t ← get_visible; mret (filter p t).

(** [DELETE FROM orders WHERE p RETURNING ...] *)
Definition sql_delete (p : gmap string value → Prop) `{!∀ r, Decision (p r)}
    : M (list (gmap string value)) :=
  t ← get_visible;
  put_visible (filter (λ r, ¬ p r) t);;
  mret (filter p t).

(** ** Responses *)

Record operations := Operations {
  inserted : nat;
  updated : nat;
  deleted : nat;
  total : nat;
}.

Record order_details := OrderDetails {
  od_order_no : string;
  od_customer_name : value;
  od_total_amount : value;
  od_status : value;
}.

(** [res.status(400).json], [res.json] and [res.status(500).json]; the
    message and timestamp strings derived from these data are left out. *)
Inductive response :=
| Json400 (error : string)
| Json200 (data : list (gmap string value)) (ops : operations)
          (details : order_details)
| Json500 (e : exn).

(** The success flag and the [data] rows of a response. *)
Definition is_success (r : response) : bool :=
  match r with
  | Json200 _ _ _ => true
  | _ => false
  end.

Definition response_data (r : response) : list (gmap string value) :=
  match r with
  | Json200 data _ _ => data
  | _ => []
  end.

(** ** Header resolution (lines 736-774) *)

Definition defaultOrderDetails (today : string) : gmap string value :=
  list_to_map [
    ("voucher_type", VStr "Sales Order");
    ("order_date", VStr today);
    ("customer_code", VStr "");
    ("customer_name", VStr "");
    ("executive", VStr "");
    ("role", VStr "");
    ("status", VStr "pending");
    ("total_quantity", VNum 0);
    ("total_amount", VNum 0);
    ("total_amount_without_tax", VNum 0);
    ("total_sgst_amount", VNum 0);
    ("total_cgst_amount", VNum 0);
    ("total_igst_amount", VNum 0);
    ("remarks", VStr "")
  ].

Definition commonFields : list string := [
  "voucher_type"; "order_date"; "customer_code"; "customer_name";
  "executive"; "role"; "status"; "total_quantity"; "total_amount";
  "total_amount_without_tax"; "total_sgst_amount"; "total_cgst_amount";
  "total_igst_amount"; "remarks"
].

Definition validItems (all : list item) : list item :=
  filter (λ it, is_deleted it = false) all.

(** [validItems.find(item => item.id) || validItems[0]] *)
Definition priorityItem (valid : list item) : option item :=
  match list_find (λ it, has_id it = true) valid with
  | Some (_, it) => Some it
  | None => head valid
  end.

Definition copyField (p : item) (acc : gmap string value) (field : string)
    : gmap string value :=
  match fields p !! field with
  | Some v => <[field := v]> acc
  | None => acc
  end.

Definition commonOrderDetails (today : string) (all : list item)
    : gmap string value :=
  match priorityItem (validItems all) with
  | Some p => foldl (copyField p) (defaultOrderDetails today) commonFields
  | None => defaultOrderDetails today
  end.

(** A property read used as a query parameter: [undefined] is sent as NULL. *)
Definition param (o : gmap string value) (k : string) : value :=
  default VNull (o !! k).

(** ** Update allowlist (lines 809-817) *)

Definition allowedFields : list string := [
  "status"; "disc_percentage"; "disc_amount"; "spl_disc_percentage";
  "spl_disc_amount"; "net_rate"; "gross_amount"; "total_quantity";
  "total_amount"; "total_amount_without_tax"; "remarks"; "quantity";
  "delivery_date"; "delivery_mode"; "transporter_name";
  "total_sgst_amount"; "total_cgst_amount"; "total_igst_amount";
  "sgst"; "cgst"; "igst"; "gst"; "hsn"; "rate"; "amount"; "uom";
  "item_code"; "item_name"; "order_date"
].

Definition filteredFields (flds : gmap string value) : gmap string value :=
  filter (λ kv, kv.1 ∈ allowedFields) flds.

(** ** Row built for an insert (lines 885-921) *)

Definition insertItem (order_no : string) (common : gmap string value)
    (newItem : item) : gmap string value :=
  let cleanNewItem := fields newItem in
  list_to_map [
    ("order_no", VStr order_no);
    ("voucher_type", param common "voucher_type");
    ("order_date", param common "order_date");
    ("customer_code", param common "customer_code");
    ("customer_name", param common "customer_name");
    ("executive", param common "executive");
    ("role", param common "role");
    ("status", param common "status");
    ("item_code", js_or (cleanNewItem !! "item_code") (VStr ""));
    ("item_name", js_or (cleanNewItem !! "item_name") (VStr ""));
    ("hsn", js_or (cleanNewItem !! "hsn") (VStr ""));
    ("gst", js_or (cleanNewItem !! "gst") (VNum 0));
    ("sgst", js_or (cleanNewItem !! "sgst") (VNum 0));
    ("cgst", js_or (cleanNewItem !! "cgst") (VNum 0));
    ("igst", js_or (cleanNewItem !! "igst") (VNum 0));
    ("delivery_date", js_or (cleanNewItem !! "delivery_date") VNull);
    ("delivery_mode", js_or (cleanNewItem !! "delivery_mode") (VStr ""));
    ("quantity", js_or (cleanNewItem !! "quantity") (VNum 0));
    ("uom", js_or (cleanNewItem !! "uom") (VStr ""));
    ("rate", js_or (cleanNewItem !! "rate") (VNum 0));
    ("amount", js_or (cleanNewItem !! "amount") (VNum 0));
    ("net_rate", js_or (cleanNewItem !! "net_rate") (VNum 0));
    ("gross_amount", js_or (cleanNewItem !! "gross_amount") (VNum 0));
    ("disc_percentage", js_or (cleanNewItem !! "disc_percentage") (VNum 0));
    ("disc_amount", js_or (cleanNewItem !! "disc_amount") (VNum 0));
    ("spl_disc_percentage",
       js_or (cleanNewItem !! "spl_disc_percentage") (VNum 0));
    ("spl_disc_amount", js_or (cleanNewItem !! "spl_disc_amount") (VNum 0));
    ("total_quantity", param common "total_quantity");
    ("total_amount", param common "total_amount");
    ("total_amount_without_tax", param common "total_amount_without_tax");
    ("total_sgst_amount", param common "total_sgst_amount");
    ("total_cgst_amount", param common "total_cgst_amount");
    ("total_igst_amount", param common "total_igst_amount");
    ("remarks", param common "remarks");
    ("transporter_name", js_or (cleanNewItem !! "transporter_name") (VStr ""))
  ].

(** The [SET] list of the header broadcast (lines 951-986). *)
Definition commonValues (common : gmap string value) : gmap string value :=
  list_to_map ((λ f, (f, param common f)) <$> commonFields).

(** ** White space

    A string of the model is the UTF-8 encoding of the JavaScript string.
    [String.prototype.trim], [parseInt] and the class [\s] of a regular
    expression share one notion of white space, ECMAScript's WhiteSpace and
    LineTerminator: U+0009 to U+000D, U+0020, U+00A0, U+1680, U+2000 to
    U+200A, U+2028, U+2029, U+202F, U+205F, U+3000 and U+FEFF.  In UTF-8
    they take one, two or three bytes. *)

(** U+0009 to U+000D and U+0020. *)
Definition space_1 (a : Ascii.ascii) : bool :=
  let n := Ascii.nat_of_ascii a in
  ((9 <=? n) && (n <=? 13) || (n =? 32))%nat.

(** U+00A0, the bytes C2 A0. *)
Definition space_2 (a b : Ascii.ascii) : bool :=
  ((Ascii.nat_of_ascii a =? 194) && (Ascii.nat_of_ascii b =? 160))%nat.

(** U+1680 (E1 9A 80), U+2000 to U+200A, U+2028, U+2029 and U+202F
    (E2 80 80 to 8A, A8, A9, AF), U+205F (E2 81 9F), U+3000 (E3 80 80) and
    U+FEFF (EF BB BF). *)
Definition space_3 (a b c : Ascii.ascii) : bool :=
  let n := Ascii.nat_of_ascii a in
  let m := Ascii.nat_of_ascii b in
  let k := Ascii.nat_of_ascii c in
  ((n =? 225) && (m =? 154) && (k =? 128)
   || (n =? 226) && (m =? 128)
      && ((128 <=? k) && (k <=? 138) || (k =? 168) || (k =? 169)
          || (k =? 175))
   || (n =? 226) && (m =? 129) && (k =? 159)
   || (n =? 227) && (m =? 128) && (k =? 128)
   || (n =? 239) && (m =? 187) && (k =? 191))%nat.

(** [s] without its leading white space. *)
Fixpoint skip_space (s : string) : string :=
  match s with
  | String a s1 =>
      if space_1 a then skip_space s1
      else
        match s1 with
        | String b s2 =>
            if space_2 a b then skip_space s2
            else
              match s2 with
              | String c s3 => if space_3 a b c then skip_space s3 else s
              | EmptyString => s
              end
        | EmptyString => s
        end
  | EmptyString => s
  end.

(** [!order_no || order_no.trim() === ""]: nothing but white space. *)
Definition all_space (s : string) : bool := String.eqb (skip_space s) "".

(** ** The reconciliation transaction (lines 693-1034) *)

Section Reconciliation.

(** The table's column types are not part of the handler: [store_cast c v]
    is the value column [c] keeps when handed parameter [v], and [None]
    when the store rejects it. *)
Variable store_cast : string → value → option value.

(** The parameters of a statement, as the store keeps them; the statement
    fails when a column rejects its parameter. *)
Definition cast_all (m : gmap string value) : result (gmap string value) :=
  match filter (λ kv, store_cast kv.1 kv.2 = None) (map_to_list m) with
  | [] => Ok (map_imap store_cast m)
  | (k, v) :: _ => Throw (StoreRejects k v)
  end.

Definition cast_params (m : gmap string value) : M (gmap string value) :=
  λ c, (cast_all m, c).

(** The effect of [SET stored] on a row selected by [p]. *)
Definition set_where (p : gmap string value → Prop)
    `{!∀ r, Decision (p r)} (stored r : gmap string value)
    : gmap string value :=
  if decide (p r) then stored ∪ r else r.

(** [UPDATE orders SET sets WHERE p]; the answer is [rowCount]. *)
Definition sql_update (p : gmap string value → Prop)
    `{!∀ r, Decision (p r)} (sets : gmap string value) : M nat :=
  stored ← cast_params sets;
  t ← get_visible;
  put_visible (set_where p stored <$> t);;
  mret (length (filter p t)).

(** [INSERT INTO orders (cols) VALUES (...) RETURNING id] *)
Definition sql_insert (cols : gmap string value) : M Z :=
  stored ← cast_params cols;
  new_id ← next_seq;
  t ← get_visible;
  put_visible (t ++ [<["id" := VNum new_id]> stored]);;
  mret new_id.

(** Lines 777-805. *)
Definition delete_phase (orderExists : bool) (order_no : string)
    (toDelete : list item) : M unit :=
  if (0 <? length toDelete)%nat then
    let deleteIds := sort_key <$> toDelete in
    (if orderExists then
       verifyResult ← sql_select (λ r, id_in deleteIds r ∧ order_no_is order_no r);
       if decide (length verifyResult ≠ length deleteIds) then
         let foundIds := row_id <$> verifyResult in
         let missingIds := filter (λ i, i ∉ foundIds) deleteIds in
         throw (CannotDeleteItems missingIds order_no)
       else mret ()
     else mret ());;
    sql_delete (λ r, id_in deleteIds r ∧ order_no_is order_no r);;
    mret ()
  else mret ().

(** One iteration of the update loop, lines 819-871. *)
Definition update_one (orderExists : bool) (order_no : string)
    (update : item) : M unit :=
  let i := sort_key update in
  (if orderExists then
     itemCheck ← sql_select (id_is i);
     match itemCheck with
     | [] => throw (ItemDoesNotExist i)
     | r :: _ =>
         if decide (r !! "order_no" ≠ Some (VStr order_no))
         then throw (ItemBelongsTo i (r !! "order_no") order_no)
         else mret ()
     end
   else mret ());;
  let filtered := filteredFields (fields update) in
  if decide (filtered = ∅) then mret ()
  else
    rowCount ← sql_update (λ r, id_is i r ∧ order_no_is order_no r) filtered;
    if decide (rowCount = 0%nat) then throw (NoRecordFound i order_no)
    else mret ().

Fixpoint update_phase (orderExists : bool) (order_no : string)
    (toUpdate : list item) : M unit :=
  match toUpdate with
  | [] => mret ()
  | update :: rest =>
      update_one orderExists order_no update;;
      update_phase orderExists order_no rest
  end.

(** Lines 928-946: the rows are inserted one by one, [index] counting. *)
Fixpoint insert_loop (index : nat) (insertData : list (gmap string value))
    : M (list Z) :=
  match insertData with
  | [] => mret []
  | insertItem :: rest =>
      new_id ← catch (sql_insert insertItem)
                     (λ e, throw (FailedToInsert index e));
      ids ← insert_loop (S index) rest;
      mret (new_id :: ids)
  end.

Definition insert_phase (order_no : string) (common : gmap string value)
    (toInsert : list item) : M (list Z) :=
  insert_loop 0 (insertItem order_no common <$> toInsert).

(** Lines 950-990. *)
Definition broadcast_phase (orderExists : bool) (order_no : string)
    (common : gmap string value) (toInsert : list item) : M unit :=
  if orderExists || (0 <? length toInsert)%nat then
    sql_update (order_no_is order_no) (commonValues common);; mret ()
  else mret ().

(** Lines 722-990: everything between [BEGIN] and [COMMIT]. *)
Definition phases (today order_no : string) (all : list item) : M unit :=
  orderCheck ← sql_select (order_no_is order_no);
  let orderExists := (0 <? length orderCheck)%nat in
  if negb orderExists && (length (itemsToInsert all) =? 0)%nat then
    throw (OrderDoesNotExist order_no)
  else
    let common := commonOrderDetails today all in
    delete_phase orderExists order_no (itemsToDelete all);;
    update_phase orderExists order_no (itemsToUpdate all);;
    insert_phase order_no common (itemsToInsert all);;
    broadcast_phase orderExists order_no common (itemsToInsert all).

(** The body of the [try] block. *)
Definition try_block (today order_no : string) (all : list item)
    : M response :=
  query_begin;;
  phases today order_no all;;
  query_commit;;
  finalResult ← sql_select (order_no_is order_no);
  let data := js_sort row_id finalResult in
  let common := commonOrderDetails today all in
  mret (Json200 data
          {| inserted := length (itemsToInsert all);
             updated := length (itemsToUpdate all);
             deleted := length (itemsToDelete all);
             total := length data |}
          {| od_order_no := order_no;
             od_customer_name := param common "customer_name";
             od_total_amount := param common "total_amount";
             od_status := param common "status" |}).

(** Lines 719-1031: the [try] block, and the [catch] block with its
    [ROLLBACK], on the connection [c] the handler was given by the pool; the
    connection is answered as the [finally] block finds it. *)
Definition put_try_catch (today order_no : string) (all : list item)
    (c : client) : response * client :=
  match try_block today order_no all c with
  | (Ok r, c') => (r, c')
  | (Throw e, c') => (Json500 e, (query_rollback c').2)
  end.

(** The handler on an array body: [today] is the UTC date the clock shows,
    [s] the store before the request. *)
Definition put_orders_by_number (today order_no : string)
    (body : list item) (s : store) : response * store :=
  let all := allItems body in
  if all_space order_no then (Json400 "Order Number is required", s)
  else if (length all =? 0)%nat then (Json400 "No data provided", s)
  else
    let '(r, c) := put_try_catch today order_no all (connect s) in
    (r, release c).

End Reconciliation.

(** ** The request body

    [express.json()] hands the handler an array or an object.  The handler
    spreads the body, [[...req.body]], before it looks at it, and spreading
    an object throws a [TypeError] outside the [try] block. *)

Inductive req_body :=
| BodyArray (items : list item)
| BodyObject (o : gmap string value).

Inductive outcome :=
| Responded (r : response)
| UncaughtTypeError.

Definition app_put (store_cast : string → value → option value)
    (today order_no : string) (body : req_body) (s : store)
    : outcome * store :=
  match body with
  | BodyArray items =>
      let '(r, s') := put_orders_by_number store_cast today order_no items s in
      (Responded r, s')
  | BodyObject _ => (UncaughtTypeError, s)
  end.

(** ** Pre-transaction validation of the update-only handler

    The repository's other source file holds a variant of the handler that
    only updates and deletes; it validates every descriptor before it
    connects (lines 717-761 of that file). *)

Inductive validation_error :=
| DeleteNeedsId (index : nat)
| UpdateNeedsId (index : nat)
| MustBeNumber (index : nat) (field : string)
| GstOutOfRange (index : nat).

Definition numericFields : list string := [
  "disc_percentage"; "disc_amount"; "spl_disc_percentage"; "spl_disc_amount";
  "net_rate"; "gross_amount"; "total_quantity"; "total_amount"; "quantity";
  "total_sgst_amount"; "total_cgst_amount"; "total_igst_amount";
  "total_amount_without_tax"; "sgst"; "cgst"; "igst"; "gst"
].

Section Validation.

(** [Number(s)] on a string, [None] for [NaN]. *)
Variable StringToNumber : string → option Z.

(** The engine's order for [updates.sort((a, b) => a.id - b.id)]: the
    comparator is [NaN] on a missing id, so only a permutation is known. *)
Variable sort_by_id : list item → list item.

Definition ToNumber (v : value) : option Z :=
  match v with
  | VNull => Some 0
  | VBool b => Some (if b then 1 else 0)
  | VNum n => Some n
  | VStr s => StringToNumber s
  end.

Definition isNaN (v : value) : bool :=
  match ToNumber v with
  | Some _ => false
  | None => true
  end.

(** [v < 0 || v > 100] *)
Definition outside_0_100 (v : value) : bool :=
  match ToNumber v with
  | Some n => (n <? 0) || (100 <? n)
  | None => false
  end.

(** The body of [updates.forEach((update, index) => ...)]. *)
Definition validate_one (index : nat) (update : item)
    : list validation_error :=
  if is_deleted update then
    if negb (has_id update) then [DeleteNeedsId index] else []
  else
    (if negb (has_id update) then [UpdateNeedsId index] else [])
    ++ omap (λ field,
               match fields update !! field with
               | Some v => if isNaN v then Some (MustBeNumber index field)
                           else None
               | None => None
               end) numericFields
    ++ match fields update !! "gst" with
       | Some v => if outside_0_100 v then [GstOutOfRange index] else []
       | None => []
       end.

Definition validationErrors (updates : list item) : list validation_error :=
  mjoin (imap validate_one updates).

Inductive response400 :=
| Error400 (error : string)
| ValidationFailed (details : list validation_error).

(** Everything the update-only handler does before [pool.connect()]:
    [Some r] is the 400 it answers, [None] means it goes on to connect. *)
Definition precheck_update_only (order_no : string) (body : list item)
    : option response400 :=
  let updates := sort_by_id body in
  if all_space order_no then Some (Error400 "Order Number is required")
  else if (length updates =? 0)%nat
  then Some (Error400 "No update data provided")
  else
    match validationErrors updates with
    | [] => None
    | errs => Some (ValidationFailed errs)
    end.

(** What the validation looks for in a descriptor. *)
Definition malformed (it : item) : Prop :=
  has_id it = false ∨
  (is_deleted it = false ∧
   ((∃ f v, f ∈ numericFields ∧ fields it !! f = Some v ∧ isNaN v = true) ∨
    (∃ v, fields it !! "gst" = Some v ∧ outside_0_100 v = true))).

End Validation.

(** ** Order-number generation (lines 585-615) *)

(** The fields of [new Date()] the handler reads. *)
Record js_date := JsDate {
  getDate : nat;
  getMonth : nat;
  getFullYear : nat;
}.

Definition nat_toString (n : nat) : string :=
  DecimalString.NilEmpty.string_of_uint (Nat.to_uint n).

(** [Number.isSafeInteger]: the integers that a JavaScript number holds
    exactly, each apart from its neighbours. *)
Definition safe_integer (n : Z) : Prop := - 2 ^ 53 < n < 2 ^ 53.

(** [(n).toString()] for an integer, ["NaN"] for [NaN]: the decimal text,
    which is what JavaScript prints for a safe integer.  (Beyond them a
    number is a rounded double, printed with the fewest digits that read
    back, and from 1e21 on with an exponent.) *)
Definition number_toString (n : option Z) : string :=
  match n with
  | Some z => DecimalString.NilEmpty.string_of_int (Z.to_int z)
  | None => "NaN"
  end.

Fixpoint repeat_char (n : nat) (a : Ascii.ascii) : string :=
  match n with
  | O => EmptyString
  | S n' => String a (repeat_char n' a)
  end.

(** [s.padStart(n, '0')] *)
Definition padStart (n : nat) (s : string) : string :=
  repeat_char (n - String.length s) "0"%char +:+ s.

(** [s.slice(-2)] *)
Definition slice_last2 (s : string) : string :=
  String.substring (String.length s - 2) 2 s.

(** [s.split('-')] *)
Fixpoint split (sep : Ascii.ascii) (s : string) : list string :=
  match s with
  | EmptyString => [EmptyString]
  | String a s' =>
      if Ascii.eqb a sep then EmptyString :: split sep s'
      else match split sep s' with
           | h :: t => String a h :: t
           | [] => [String a EmptyString]
           end
  end.

(** [`${parts[i]}`]: a missing element prints as ["undefined"]. *)
Definition part (parts : list string) (i : nat) : string :=
  nth i parts "undefined".

Definition digit_of (radix : nat) (a : Ascii.ascii) : option nat :=
  (let n := Ascii.nat_of_ascii a in
   let d := if (48 <=? n) && (n <=? 57) then Some (n - 48)
            else if (97 <=? n) && (n <=? 122) then Some (n - 87)
            else if (65 <=? n) && (n <=? 90) then Some (n - 55)
            else None in
   match d with
   | Some k => if k <? radix then Some k else None
   | None => None
   end)%nat.

(** The longest prefix of digits, read in [radix]; [None] when it is empty. *)
Fixpoint read_digits (radix : nat) (acc : option nat) (s : string)
    : option nat :=
  match s with
  | EmptyString => acc
  | String a s' =>
      match digit_of radix a with
      | Some d => read_digits radix (Some (radix * default 0 acc + d)) s'
      | None => acc
      end%nat
  end.

(** [parseInt(s)] without a radix; [None] is [NaN]. *)
Definition parseInt (s : string) : option Z :=
  let s := skip_space s in
  let '(neg, s) :=
    match s with
    | String a s' =>
        if Ascii.eqb a "-" then (true, s')
        else if Ascii.eqb a "+" then (false, s')
        else (false, s)
    | EmptyString => (false, s)
    end in
  let magnitude :=
    match s with
    | String a (String b s') =>
        if Ascii.eqb a "0" && (Ascii.eqb b "x" || Ascii.eqb b "X")
        then read_digits 16 None s'
        else read_digits 10 None s
    | _ => read_digits 10 None s
    end in
  (λ m, if neg then - Z.of_nat m else Z.of_nat m) <$> magnitude.

(** The [try] block after [Order.findOne(...)] (lines 592-611):
    [latestOrder] is what the lookup of the latest order whose number starts
    with [SQ-] returned, with its [order_no]. *)
Definition next_order_number (latestOrder : option string) (today : js_date)
    : string :=
  let day := padStart 2 (nat_toString (getDate today)) in
  let month := padStart 2 (nat_toString (getMonth today + 1)) in
  let year := slice_last2 (nat_toString (getFullYear today)) in
  let nextSequence :=
    match latestOrder with
    | Some order_no =>
        if String.eqb order_no "" then "0001"
        else
          let parts := split "-" order_no in
          let lastDate := part parts 1 +:+ "-" +:+ part parts 2
                          +:+ "-" +:+ part parts 3 in
          let currentDate := day +:+ "-" +:+ month +:+ "-" +:+ year in
          if String.eqb lastDate currentDate then
            let lastSequence := parseInt (part parts 4) in
            padStart 4 (number_toString ((λ n, n + 1) <$> lastSequence))
          else "0001"
    | None => "0001"
    end in
  "SQ-" +:+ day +:+ "-" +:+ month +:+ "-" +:+ year +:+ "-" +:+ nextSequence.

(** The names the module binds: its imports (lines 1-5) and its top-level
    declarations (lines 7, 10, 48, 73 and 1037). *)
Definition module_bindings : list string := [
  "express"; "pkg"; "cors"; "admin"; "serviceAccount";
  "app"; "corsOptions"; "pool"; "verifyToken"; "PORT"
].

Inductive next_response :=
| NextJson200 (orderNumber : string)
| NextJson500 (error : string).

(** The route.  The first statement of its [try] block reads [Order], which
    is no global of the platform: unless the module binds the name, the read
    throws a [ReferenceError] and the [catch] block answers 500 with its
    message.  [latestOrder] is what the lookup would find. *)
Definition get_next_order_number (latestOrder : option string)
    (today : js_date) : next_response :=
  if decide ("Order" ∈ module_bindings)
  then NextJson200 (next_order_number latestOrder today)
  else NextJson500 "Order is not defined".

(** ** [POST /orders] (lines 617-691) *)

(** [express.json()] hands the handler an array of objects, or an object. *)
Inductive post_body :=
| DataArray (data : list (gmap string value))
| DataObject (o : gmap string value).

(** [o.k ?? b] *)
Definition js_nullish (a : option value) (b : value) : value :=
  match a with
  | None | Some VNull => b
  | Some v => v
  end.

(** [String(o.k)] *)
Definition js_String (v : option value) : string :=
  match v with
  | None => "undefined"
  | Some VNull => "null"
  | Some (VBool b) => if b then "true" else "false"
  | Some (VNum n) => number_toString (Some n)
  | Some (VStr s) => s
  end.

(** [/\s*%/] tried at the head of [s]: the text after the match.  [\s*]
    takes all the white space there is, and [%] is none. *)
Definition match_percent (s : string) : option string :=
  match skip_space s with
  | String a rest => if Ascii.eqb a "%" then Some rest else None
  | EmptyString => None
  end.

(** [s.replace(/\s*%/, '')]: the leftmost match goes. *)
Fixpoint replace_percent (s : string) : string :=
  match match_percent s with
  | Some rest => rest
  | None =>
      match s with
      | String a s' => String a (replace_percent s')
      | EmptyString => EmptyString
      end
  end.

(** The thirty-five parameters of the [INSERT], by column. *)
Definition insertParams (item : gmap string value) : gmap string value :=
  list_to_map [
    ("voucher_type", param item "voucher_type");
    ("order_no", param item "order_no");
    ("order_date", param item "date");
    ("status", param item "status");
    ("customer_code", param item "customer_code");
    ("executive", param item "executive");
    ("role", param item "role");
    ("customer_name", param item "customer_name");
    ("item_code", param item "item_code");
    ("item_name", param item "item_name");
    ("hsn", param item "hsn");
    ("gst", VStr (replace_percent (js_String (item !! "gst"))));
    ("sgst", param item "sgst");
    ("cgst", param item "cgst");
    ("igst", param item "igst");
    ("delivery_date", param item "delivery_date");
    ("delivery_mode", param item "delivery_mode");
    ("transporter_name", param item "transporter_name");
    ("quantity", param item "quantity");
    ("uom", param item "uom");
    ("rate", param item "rate");
    ("amount", param item "amount");
    ("net_rate", param item "net_rate");
    ("gross_amount", param item "gross_amount");
    ("disc_percentage", param item "disc_percentage");
    ("disc_amount", param item "disc_amount");
    ("spl_disc_percentage", param item "spl_disc_percentage");
    ("spl_disc_amount", param item "spl_disc_amount");
    ("total_quantity", js_nullish (item !! "total_quantity") (VNum 0));
    ("total_amount_without_tax",
       js_nullish (item !! "total_amount_without_tax") (VNum 0));
    ("total_cgst_amount", js_nullish (item !! "total_cgst_amount") (VNum 0));
    ("total_sgst_amount", js_nullish (item !! "total_sgst_amount") (VNum 0));
    ("total_igst_amount", js_nullish (item !! "total_igst_amount") (VNum 0));
    ("total_amount", js_nullish (item !! "total_amount") (VNum 0));
    ("remarks", js_nullish (item !! "remarks") (VStr ""))
  ].

Inductive post_response :=
| PostJson400 (error : string)
| PostJson200 (insertedCount : nat) (ids : list Z)
| PostJson500 (e : exn).

Definition post_ok (r : post_response) : bool :=
  match r with
  | PostJson200 _ _ => true
  | _ => false
  end.

Definition post_ids (r : post_response) : list Z :=
  match r with
  | PostJson200 _ ids => ids
  | _ => []
  end.

Section PostOrders.
Variable store_cast : string → value → option value.

(** [data.map(item => client.query(insertSql, [...]))] awaited by
    [Promise.all]: the client runs its queries one after the other, and after
    a statement has failed the transaction takes no further statement, so
    the first failure is the error the handler catches.  The answer is the
    list of the returned ids. *)
Fixpoint insertPromises (data : list (gmap string value)) : M (list Z) :=
  match data with
  | [] => mret []
  | item :: rest =>
      new_id ← sql_insert store_cast (insertParams item);
      ids ← insertPromises rest;
      mret (new_id :: ids)
  end.

Definition post_try (data : list (gmap string value)) : M post_response :=
  query_begin;;
  results ← insertPromises data;
  query_commit;;
  mret (PostJson200 (length results) results).

Definition post_orders (body : post_body) (s : store)
    : post_response * store :=
  match body with
  | DataObject _ => (PostJson400 "No orders provided", s)
  | DataArray data =>
      if (length data =? 0)%nat then (PostJson400 "No orders provided", s)
      else
        match post_try data (connect s) with
        | (Ok r, c) => (r, release c)
        | (Throw e, c) => (PostJson500 e, release (query_rollback c).2)
        end
  end.

(** ** [GET /orders-by-number/:order_no] (lines 554-583) *)

Inductive get_response :=
| GetJson400 (error : string)
| GetJson404 (error : string)
| GetJson200 (found : list (gmap string value))
| GetJson500 (error : string).

(** [pool.query]: a statement on a connection of its own. *)
Definition pool_query {A} (m : M A) (s : store) : result A * store :=
  let '(r, c) := m (connect s) in (r, release c).

(** [created_at] is the query-string parameter, when there is one; the
    store casts it to the type of the column before it compares. *)
Definition select_orders (order_no : string) (created_at : option string)
    : M (list (gmap string value)) :=
  match created_at with
  | Some c =>
      if String.eqb c "" then sql_select (order_no_is order_no)
      else
        match store_cast "created_at" (VStr c) with
        | Some v =>
            sql_select (λ r, order_no_is order_no r
                             ∧ r !! "created_at" = Some v)
        | None => throw (StoreRejects "created_at" (VStr c))
        end
  | None => sql_select (order_no_is order_no)
  end.

Definition get_orders_by_number (order_no : string)
    (created_at : option string) (s : store) : get_response :=
  if String.eqb order_no "" then GetJson400 "Order Number is required"
  else
    match (pool_query (select_orders order_no created_at) s).1 with
    | Ok [] => GetJson404 "No orders found"
    | Ok found => GetJson200 found
    | Throw _ => GetJson500 "Internal server error"
    end.

End PostOrders.

(** ** The transaction of the update-only handler

    Lines 762-885 of the repository's other source file: what the
    update-only variant of [PUT /orders-by-number/:order_no] does once its
    validation has passed.  Past the validation every descriptor carries an
    id. *)

Module UpdateOnly.

Definition allowedFields : list string := [
  "status"; "disc_percentage"; "disc_amount"; "spl_disc_percentage";
  "spl_disc_amount"; "net_rate"; "gross_amount"; "total_quantity";
  "total_amount"; "total_amount_without_tax"; "remarks"; "quantity";
  "delivery_date"; "delivery_mode"; "transporter_name";
  "total_sgst_amount"; "total_cgst_amount"; "total_igst_amount";
  "sgst"; "cgst"; "igst"; "gst"; "hsn"; "rate"; "amount"; "uom"
].

Definition filteredFields (flds : gmap string value) : gmap string value :=
  filter (λ kv, kv.1 ∈ allowedFields) flds.

(** [updates.filter(item => !item._deleted)]; the descriptors to delete are
    chosen as in the reconciliation handler. *)
Definition itemsToUpdate (updates : list item) : list item :=
  filter (λ it, is_deleted it = false) updates.

(** What the [catch] block reports as [details]: the handler's own error of
    the verification, or an error raised further on. *)
Inductive failure :=
| SomeIdsDoNotBelong (order_no : string)
| Raised (e : exn).

Inductive response :=
| Rejected (r : response400)
| Processed (updatedCount deletedCount : nat)
            (data : list (gmap string value))
| UpdateFailed (details : failure).

Definition processed (r : response) : bool :=
  match r with
  | Processed _ _ _ => true
  | _ => false
  end.

Definition processed_data (r : response) : list (gmap string value) :=
  match r with
  | Processed _ _ data => data
  | _ => []
  end.

Section Transaction.
Variable store_cast : string → value → option value.
Variable StringToNumber : string → option Z.
Variable sort_by_id : list item → list item.

(** Lines 783-795. *)
Definition delete_phase (order_no : string) (toDelete : list item) : M unit :=
  if (0 <? length toDelete)%nat then
    let deleteIds := sort_key <$> toDelete in
    sql_delete (λ r, id_in deleteIds r ∧ order_no_is order_no r);;
    mret ()
  else mret ().

(** One iteration of the update loop, lines 810-856. *)
Definition update_one (order_no : string) (update : item) : M unit :=
  let i := sort_key update in
  let filtered := filteredFields (fields update) in
  if decide (filtered = ∅) then mret ()
  else
    rowCount ← sql_update store_cast
                 (λ r, id_is i r ∧ order_no_is order_no r) filtered;
    if decide (rowCount = 0%nat) then throw (NoRecordFound i order_no)
    else mret ().

Fixpoint update_phase (order_no : string) (toUpdate : list item) : M unit :=
  match toUpdate with
  | [] => mret ()
  | update :: rest =>
      update_one order_no update;;
      update_phase order_no rest
  end.

(** The body of the [try] block.  Its answer is [None] where the handler
    throws its own error of the verification, which nothing but the [catch]
    block follows. *)
Definition try_block (order_no : string) (updates : list item)
    : M (option response) :=
  query_begin;;
  let allOrderIds := sort_key <$> updates in
  verifyResult ← sql_select (λ r, id_in allOrderIds r
                                  ∧ order_no_is order_no r);
  if decide (length verifyResult ≠ length allOrderIds) then mret None
  else
    delete_phase order_no (itemsToDelete updates);;
    update_phase order_no (itemsToUpdate updates);;
    query_commit;;
    updatedResult ← sql_select (order_no_is order_no);
    mret (Some (Processed (length (itemsToUpdate updates))
                  (length (itemsToDelete updates))
                  (js_sort row_id updatedResult))).

(** The handler on an array body. *)
Definition put_orders_by_number (order_no : string) (body : list item)
    (s : store) : response * store :=
  match precheck_update_only StringToNumber sort_by_id order_no body with
  | Some r => (Rejected r, s)
  | None =>
      match try_block order_no (sort_by_id body) (connect s) with
      | (Ok (Some r), c) => (r, release c)
      | (Ok None, c) =>
          (UpdateFailed (SomeIdsDoNotBelong order_no),
           release (query_rollback c).2)
      | (Throw e, c) =>
          (UpdateFailed (Raised e), release (query_rollback c).2)
      end
  end.

End Transaction.
End UpdateOnly.

(** ** [PUT /distributors/:customer_code] and
       [PUT /corporates/:customer_code] (lines 155-243)

    Both handlers update the [customer] table, here a [store] of its own,
    through [pool.query]. *)

Module Customer.

Definition allowedFields : list string := [
  "customer_name"; "mobile_number"; "email"; "customer_type"; "password";
  "role"; "status"; "firebase_uid"
].

Definition customer_code_is (customerCode : string) (r : gmap string value)
    : Prop :=
  r !! "customer_code" = Some (VStr customerCode).

#[global] Instance customer_code_is_dec customerCode r :
  Decision (customer_code_is customerCode r).
Proof. unfold customer_code_is. apply _. Defined.

Inductive response :=
| Json400 (error : string)
| Json404 (error : string)
| Json200 (message : string) (affectedRows : nat)
| Json500 (e : exn).

Section Put.
Variable store_cast : string → value → option value.

Definition put_distributors (customerCode : string)
    (updates : gmap string value) (s : store) : response * store :=
  if decide (updates = ∅) then (Json400 "No update data provided", s)
  else
    let filteredUpdates := filter (λ kv, kv.1 ∈ allowedFields) updates in
    if decide (filteredUpdates = ∅)
    then (Json400 "No valid fields to update", s)
    else
      match pool_query
              (sql_update store_cast (customer_code_is customerCode)
                 filteredUpdates) s with
      | (Ok rowCount, s') =>
          if decide (rowCount = 0%nat)
          then (Json404 "Distributor not found", s')
          else (Json200 "Distributor updated successfully" rowCount, s')
      | (Throw e, s') => (Json500 e, s')
      end.

Definition put_corporates (customerCode : string)
    (updates : gmap string value) (s : store) : response * store :=
  if decide (updates = ∅) then (Json400 "No update data provided", s)
  else
    let filteredUpdates := filter (λ kv, kv.1 ∈ allowedFields) updates in
    if decide (filteredUpdates = ∅)
    then (Json400 "No valid fields to update", s)
    else
      match pool_query
              (sql_update store_cast (customer_code_is customerCode)
                 filteredUpdates) s with
      | (Ok rowCount, s') =>
          if decide (rowCount = 0%nat)
          then (Json404 "Direct Order not found", s')
          else (Json200 "Direct Order updated successfully" rowCount, s')
      | (Throw e, s') => (Json500 e, s')
      end.

End Put.
End Customer.

(** ** [verifyToken] (lines 73-85) *)

Inductive verified :=
| Json401 (error : string)
| Next (uid : string).

Section VerifyToken.

(** [admin.auth().verifyIdToken(token)]: the uid of the decoded token, or
    [None] when the call throws. *)
Variable verifyIdToken : string → option string.

(** [authorization] is the request header, when there is one. *)
Definition verifyToken (authorization : option string) : verified :=
  let token := authorization ≫= λ h, split " " h !! 1%nat in
  match token with
  | None => Json401 "No token provided"
  | Some token =>
      if String.eqb token "" then Json401 "No token provided"
      else
        match verifyIdToken token with
        | Some uid => Next uid
        | None => Json401 "Invalid token"
        end
  end.

End VerifyToken.

(** * Notions used by the statements *)

(** A client inside a transaction: committed table [k], working table [t],
    sequence at [n]. *)
Definition in_tx (k t : list (gmap string value)) (n : Z) : client :=
  {| committed := k; tx := Some t; seq := n |}.

(** [m], run inside a transaction on working table [t], stays inside the
    transaction, leaves the committed table alone and ends in [post]. *)
Definition satisfies {A} (m : M A) (k t : list (gmap string value)) (n : Z)
    (post : result A → list (gmap string value) → Z → Prop) : Prop :=
  ∃ r t' n', m (in_tx k t n) = (r, in_tx k t' n') ∧ post r t' n'.

(** U+00A0, the no-break space, in UTF-8. *)
Definition nbsp : string :=
  String (Ascii.ascii_of_nat 194) (String (Ascii.ascii_of_nat 160) "").

(** The identity of a row. *)
Definition keys (r : gmap string value) : option value * option value :=
  (r !! "id", r !! "order_no").

(** Every row of [t'] is a row of [t] with its [id] and [order_no] intact, or
    was given a fresh id from the sequence. *)
Definition evolves (t : list (gmap string value)) (n : Z)
    (t' : list (gmap string value)) (n' : Z) : Prop :=
  n ≤ n' ∧
  ∀ r', r' ∈ t' →
    (∃ r, r ∈ t ∧ keys r' = keys r) ∨
    (∃ i, n ≤ i < n' ∧ r' !! "id" = Some (VNum i)).

(** Every row of [t'] is a row of [t] with its [id] and [order_no] intact,
    and the sequence has not moved: nothing was inserted. *)
Definition stays (t : list (gmap string value)) (n : Z)
    (t' : list (gmap string value)) (n' : Z) : Prop :=
  n' = n ∧ ∀ r', r' ∈ t' → ∃ r, r ∈ t ∧ keys r' = keys r.

(** The primary key: ids are present, unique and below the sequence. *)
Definition wf_table (t : list (gmap string value)) (n : Z) : Prop :=
  NoDup ((λ r, r !! "id") <$> t) ∧
  ∀ r, r ∈ t → ∃ i, r !! "id" = Some (VNum i) ∧ i < n.

Definition wf_store (s : store) : Prop := wf_table (rows s) (next_id s).

(** A step that keeps the primary key. *)
Definition wf_kept (t : list (gmap string value)) (n : Z)
    (t' : list (gmap string value)) (n' : Z) : Prop :=
  wf_table t n → wf_table t' n'.

(** Row [i] exists and belongs to [order_no]. *)
Definition owned (order_no : string) (t : list (gmap string value)) (i : Z)
    : Prop :=
  ∃ r, r ∈ t ∧ id_is i r ∧ order_no_is order_no r.

(** A row function that overwrites columns other than [id] and [order_no],
    chosen by the identity of the row alone. *)
Definition key_update (G : gmap string value → gmap string value) : Prop :=
  ∀ r, ∃ U : gmap string value,
    U !! "id" = None ∧ U !! "order_no" = None ∧
    ∀ r', keys r' = keys r → G r' = U ∪ r'.

(** A [WHERE] clause that looks at the identity of the row only. *)
Definition key_pred (p : gmap string value → Prop) : Prop :=
  ∀ r r', keys r = keys r' → (p r ↔ p r').

(** [m] relates the working table and sequence it ends with to those it
    started from by [R], whatever it answers. *)
Definition preserves {A} (R : list (gmap string value) → Z →
                              list (gmap string value) → Z → Prop)
    (m : M A) : Prop :=
  ∀ k t n, satisfies m k t n (λ _ t' n', R t n t' n').

(** ** A small store for the examples

    Two orders, [A] with row 1 and [B] with row 5, in a store that keeps
    every parameter as it is handed over. *)
Definition accept_all : string → value → option value := λ _ v, Some v.

Definition row_1 : gmap string value :=
  list_to_map [("id", VNum 1); ("order_no", VStr "A");
               ("status", VStr "open"); ("quantity", VNum 2)].

Definition row_5 : gmap string value :=
  list_to_map [("id", VNum 5); ("order_no", VStr "B");
               ("status", VStr "open"); ("quantity", VNum 7)].

Definition example_store : store := {| rows := [row_1; row_5]; next_id := 6 |}.

(** An update of row 1 alone, and one that also touches row 5 of order [B]. *)
Definition update_batch : list item :=
  [Item (Some 1) None {[ "quantity" := VNum 3 ]}].

Definition foreign_batch : list item :=
  [Item (Some 1) None {[ "quantity" := VNum 3 ]};
   Item (Some 5) None {[ "quantity" := VNum 3 ]}].

(** An update of row 1 with a gst percentage of 150. *)
Definition gst_batch : list item :=
  [Item (Some 1) None {[ "gst" := VNum 150 ]}].

(** One insert and one update of row 1. *)
Definition example_batch : list item :=
  [Item None None {[ "item_code" := VStr "X" ]};
   Item (Some 1) None {[ "quantity" := VNum 3 ]}].

(** ** Header resolution, as a reference definition

    [header_reference dflt ordered]: the source is the first descriptor of
    [ordered] that is not deleted and carries an id, or else the first that is
    not deleted; each header field is the source's value when present and
    [dflt] of the field otherwise. *)
Definition header_source (ordered : list item) : option item :=
  match list_find (λ it, is_deleted it = false ∧ has_id it = true) ordered with
  | Some (_, it) => Some it
  | None => snd <$> list_find (λ it, is_deleted it = false) ordered
  end.

Definition header_reference (dflt : string → value) (ordered : list item)
    : gmap string value :=
  list_to_map
    ((λ f, (f, match header_source ordered with
               | Some p => default (dflt f) (fields p !! f)
               | None => dflt f
               end)) <$> commonFields).

(** The default table in the specification's words: status pending, the
    date the current date, numeric totals zero, textual fields empty. *)
Definition spec_default (today : string) (f : string) : value :=
  if decide (f = "status") then VStr "pending"
  else if decide (f = "order_date") then VStr today
  else if decide (f ∈ ["total_quantity"; "total_amount";
                       "total_amount_without_tax"; "total_sgst_amount";
                       "total_cgst_amount"; "total_igst_amount"])
       then VNum 0
  else VStr "".

(** The default table of the handler: as above, but a voucher type of
    [Sales Order]. *)
Definition handler_default (today : string) (f : string) : value :=
  if decide (f = "voucher_type") then VStr "Sales Order"
  else spec_default today f.

(** ** Order numbers *)

Definition is_digit (a : Ascii.ascii) : bool :=
  let n := Ascii.nat_of_ascii a in ((48 <=? n) && (n <=? 57))%nat.

Fixpoint all_digits (s : string) : bool :=
  match s with
  | EmptyString => true
  | String a s' => is_digit a && all_digits s'
  end.

(** The number a string of decimal digits denotes. *)
Fixpoint decimal_value (acc : nat) (s : string) : nat :=
  match s with
  | EmptyString => acc
  | String a s' => decimal_value (10 * acc + (Ascii.nat_of_ascii a - 48)) s'
  end.

(** [SQ-DD-MM-YY-NNNN] *)
Definition order_number (dd mm yy nnnn : string) : string :=
  "SQ-" +:+ dd +:+ "-" +:+ mm +:+ "-" +:+ yy +:+ "-" +:+ nnnn.

(** The date strings the handler prints from the clock. *)
Definition today_dd (today : js_date) : string :=
  padStart 2 (nat_toString (getDate today)).
Definition today_mm (today : js_date) : string :=
  padStart 2 (nat_toString (getMonth today + 1)).
Definition today_yy (today : js_date) : string :=
  slice_last2 (nat_toString (getFullYear today)).

(** The counts of a response. *)
Definition response_operations (r : response) : operations :=
  match r with
  | Json200 _ ops _ => ops
  | _ => {| inserted := 0; updated := 0; deleted := 0; total := 0 |}
  end.

(** The rows of the other orders. *)
Definition other_orders (order_no : string) (t : list (gmap string value))
    : list (gmap string value) :=
  filter (λ r, ¬ order_no_is order_no r) t.

(** A step that leaves the rows of the other orders as they are. *)
Definition frame (order_no : string) (t : list (gmap string value)) (n : Z)
    (t' : list (gmap string value)) (n' : Z) : Prop :=
  other_orders order_no t' = other_orders order_no t.

(** A descriptor without the keys the handler never reads: what is left are
    the keys of the update allowlist and the header fields. *)
Definition known (it : item) : item :=
  {| id := id it; _deleted := _deleted it;
     fields := filter (λ kv, kv.1 ∈ allowedFields ∨ kv.1 ∈ commonFields)
                 (fields it) |}.

(** Row [i] of [order_no] is there, and holds in column [f] what the store
    keeps of [v]. *)
Definition applied (store_cast : string → value → option value)
    (order_no : string) (i : Z) (f : string) (v : value)
    (t : list (gmap string value)) : Prop :=
  owned order_no t i ∧
  ∀ r, r ∈ t → id_is i r → order_no_is order_no r →
    ∃ w, store_cast f v = Some w ∧ r !! f = Some w.

(** ** A store with a numeric [gst] column

    The column takes numbers and the texts that are decimal numerals, and
    rejects every other text; the other columns keep what they are handed. *)
Definition gst_numeric : string → value → option value := λ c v,
  if String.eqb c "gst" then
    match v with
    | VStr s =>
        if all_digits s && negb (String.eqb s "")
        then Some (VNum (Z.of_nat (decimal_value 0 s)))
        else None
    | VBool _ => None
    | _ => Some v
    end
  else Some v.

(** Two order lines as [POST /orders] takes them. *)
Definition line_18 : gmap string value :=
  list_to_map [("order_no", VStr "C"); ("item_code", VStr "X");
               ("gst", VStr "18 %")].

Definition line_no_gst : gmap string value :=
  list_to_map [("order_no", VStr "C"); ("item_code", VStr "Y")].

(** The rows of a [GET] response. *)
Definition get_found (r : get_response) : list (gmap string value) :=
  match r with
  | GetJson200 found => found
  | _ => []
  end.

(** The validation answered 400. *)
Definition rejected (r : UpdateOnly.response) : bool :=
  match r with
  | UpdateOnly.Rejected _ => true
  | _ => false
  end.

(** The counts of a [Processed] response. *)
Definition processed_counts (r : UpdateOnly.response) : nat * nat :=
  match r with
  | UpdateOnly.Processed updatedCount deletedCount _ =>
      (updatedCount, deletedCount)
  | _ => (0%nat, 0%nat)
  end.

(** A string without the character [sep]. *)
Fixpoint without (sep : Ascii.ascii) (s : string) : bool :=
  match s with
  | EmptyString => true
  | String a s' => negb (Ascii.eqb a sep) && without sep s'
  end.

(** A customer table with one distributor. *)
Definition customer_D1 : gmap string value :=
  list_to_map [("id", VNum 1); ("customer_code", VStr "D1");
               ("customer_name", VStr "Old");
               ("customer_type", VStr "distributor")].

Definition customer_store : store :=
  {| rows := [customer_D1]; next_id := 2 |}.

(** * Properties *)

(** ** The stable sort *)

Section StableSortFacts.
Context {A : Type} (key : A → Z).

Lemma sort_insert_perm x l : sort_insert key x l ≡ₚ x :: l.
Proof.
  induction l as [|y l IH]; simpl; [done|].
  destruct (key x <=? key y); [done|].
  rewrite IH. apply Permutation_swap.
Qed.

Lemma js_sort_perm l : js_sort key l ≡ₚ l.
Proof.
  induction l as [|x l IH]; simpl; [done|].
  by rewrite sort_insert_perm, IH.
Qed.

Lemma elem_of_js_sort x l : x ∈ js_sort key l ↔ x ∈ l.
Proof. by rewrite js_sort_perm. Qed.

Lemma length_js_sort l : length (js_sort key l) = length l.
Proof. by rewrite js_sort_perm. Qed.

Lemma sort_insert_ascending x l :
  ascending key l → ascending key (sort_insert key x l).
Proof.
  unfold ascending. induction 1 as [|y l Hl IH Hy]; simpl.
  - repeat constructor.
  - destruct (Z.leb_spec (key x) (key y)).
    + constructor; [by constructor|].
      constructor; [done|].
      eapply Forall_impl; [exact Hy|]. simpl. lia.
    + constructor; [done|].
      rewrite sort_insert_perm. constructor; [lia|done].
Qed.

Lemma js_sort_ascending l : ascending key (js_sort key l).
Proof.
  induction l; simpl; [constructor|by apply sort_insert_ascending].
Qed.

(** Filtering commutes with the stable sort. *)
Lemma filter_sort_insert (P : A → Prop) `{!∀ x, Decision (P x)} x l :
  ascending key l →
  filter P (sort_insert key x l)
  = if decide (P x) then sort_insert key x (filter P l) else filter P l.
Proof.
  unfold ascending. induction 1 as [|y l Hl IH Hy]; simpl.
  - rewrite filter_cons, filter_nil. by destruct (decide (P x)).
  - destruct (Z.leb_spec (key x) (key y)) as [Hxy|Hxy].
    + rewrite filter_cons. destruct (decide (P x)); [|done].
      f_equal. rewrite filter_cons. destruct (decide (P y)); simpl.
      * by rewrite (proj2 (Z.leb_le _ _) Hxy).
      * clear IH. induction l as [|z l IHl]; [done|].
        rewrite filter_cons. inversion Hy; inversion Hl; subst.
        destruct (decide (P z)); simpl.
        -- by rewrite (proj2 (Z.leb_le (key x) (key z))) by lia.
        -- by apply IHl.
    + rewrite !filter_cons, IH. destruct (decide (P x)), (decide (P y));
        simpl; try done.
      by rewrite (proj2 (Z.leb_gt _ _) Hxy).
Qed.

Lemma filter_js_sort (P : A → Prop) `{!∀ x, Decision (P x)} l :
  filter P (js_sort key l) = js_sort key (filter P l).
Proof.
  induction l as [|x l IH]; simpl; [done|].
  rewrite filter_sort_insert by apply js_sort_ascending.
  rewrite filter_cons, IH. by destruct (decide (P x)).
Qed.

End StableSortFacts.

(** ** The differ *)

Lemma elem_of_allItems it body : it ∈ allItems body ↔ it ∈ body.
Proof. apply elem_of_js_sort. Qed.

Lemma differ_classes_perm (l : list item) :
  l ≡ₚ itemsToDelete l ++ itemsToUpdate l ++ itemsToInsert l
       ++ filter (λ it, is_deleted it && negb (has_id it) = true) l.
Proof.
  unfold itemsToDelete, itemsToUpdate, itemsToInsert.
  induction l as [|it l IH]; [done|].
  rewrite !filter_cons.
  destruct (has_id it), (is_deleted it); simpl;
    repeat case_decide; try done; simpl.
  - by rewrite <- IH.
  - rewrite <- Permutation_middle. by rewrite <- IH.
  - rewrite <- !Permutation_middle. by rewrite <- IH.
  - rewrite <- !Permutation_middle. by rewrite <- IH.
Qed.

(** C4: the differ sorts the descriptors of a batch into [itemsToDelete]
    (persisted id and deletion flag), [itemsToUpdate] (persisted id, no
    deletion flag) and [itemsToInsert] (no persisted id, no deletion flag),
    exactly by shape; no descriptor is in two of them, and together with the
    flagged descriptors without id they make up the batch. *)
Theorem differ_partition (body : list item) (it : item) :
  let all := allItems body in
  (it ∈ itemsToDelete all ↔
     it ∈ body ∧ has_id it = true ∧ is_deleted it = true) ∧
  (it ∈ itemsToUpdate all ↔
     it ∈ body ∧ has_id it = true ∧ is_deleted it = false) ∧
  (it ∈ itemsToInsert all ↔
     it ∈ body ∧ has_id it = false ∧ is_deleted it = false) ∧
  ¬ (it ∈ itemsToDelete all ∧ it ∈ itemsToUpdate all) ∧
  ¬ (it ∈ itemsToDelete all ∧ it ∈ itemsToInsert all) ∧
  ¬ (it ∈ itemsToUpdate all ∧ it ∈ itemsToInsert all) ∧
  body ≡ₚ itemsToDelete all ++ itemsToUpdate all ++ itemsToInsert all
          ++ filter (λ it, is_deleted it && negb (has_id it) = true) all.
Proof.
  intros all. unfold itemsToDelete, itemsToUpdate, itemsToInsert.
  rewrite !list_elem_of_filter. unfold all. rewrite elem_of_allItems.
  repeat split;
    try (destruct (has_id it), (is_deleted it); simpl in *;
         intuition congruence).
  etrans; [symmetry; apply (js_sort_perm sort_key)|].
  apply differ_classes_perm.
Qed.

(** ** Header resolution *)

Lemma lookup_copy_fields p d fs f :
  foldl (copyField p) d fs !! f
  = if decide (f ∈ fs)
    then match fields p !! f with Some v => Some v | None => d !! f end
    else d !! f.
Proof.
  revert d. induction fs as [|g fs IH]; intros d; cbn [foldl].
  - case_decide as H; [by apply elem_of_nil in H|done].
  - rewrite IH. unfold copyField.
    destruct (decide (f = g)) as [->|Hne].
    + destruct (decide (g ∈ g :: fs)) as [_|[]]; [|by left].
      destruct (fields p !! g) eqn:Hg.
      * rewrite lookup_insert_eq. by case_decide.
      * by case_decide.
    + assert (Hiff : f ∈ g :: fs ↔ f ∈ fs) by (rewrite elem_of_cons; tauto).
      assert (Hl : ∀ v, <[g:=v]> d !! f = d !! f)
        by (intros; by rewrite lookup_insert_ne).
      destruct (decide (f ∈ fs)), (decide (f ∈ g :: fs)); try tauto;
        destruct (fields p !! f), (fields p !! g); by rewrite ?Hl.
Qed.

Lemma lookup_tabulate (g : string → value) fs f :
  (list_to_map ((λ f, (f, g f)) <$> fs) : gmap string value) !! f
  = if decide (f ∈ fs) then Some (g f) else None.
Proof.
  induction fs as [|h fs IH]; cbn [fmap list_fmap list_to_map foldr uncurry].
  - rewrite lookup_empty. case_decide as H; [by apply elem_of_nil in H|done].
  - destruct (decide (f = h)) as [->|Hne].
    + rewrite lookup_insert_eq.
      by destruct (decide (h ∈ h :: fs)) as [_|[]]; [|left].
    + rewrite lookup_insert_ne by done. rewrite IH.
      assert (Hiff : f ∈ h :: fs ↔ f ∈ fs) by (rewrite elem_of_cons; tauto).
      destruct (decide (f ∈ fs)), (decide (f ∈ h :: fs)); tauto || done.
Qed.

Lemma lookup_defaultOrderDetails today f :
  defaultOrderDetails today !! f
  = if decide (f ∈ commonFields) then Some (handler_default today f)
    else None.
Proof.
  case_decide as Hf.
  - unfold commonFields in Hf.
    repeat (apply elem_of_cons in Hf as [->|Hf]; [reflexivity|]).
    by apply elem_of_nil in Hf.
  - by apply not_elem_of_list_to_map.
Qed.

Lemma find_in_filter {A} (P Q : A → Prop) `{!∀ x, Decision (P x)}
    `{!∀ x, Decision (Q x)} (l : list A) :
  snd <$> list_find P (filter Q l) = snd <$> list_find (λ x, Q x ∧ P x) l.
Proof.
  induction l as [|x l IH]; [done|].
  rewrite filter_cons. cbn [list_find].
  destruct (decide (Q x)) as [Hq|Hq]; cbn [list_find].
  - destruct (decide (P x)).
    + by rewrite decide_True by done.
    + rewrite decide_False by tauto.
      destruct (list_find P (filter Q l)) as [[??]|],
               (list_find _ l) as [[??]|]; simpl in *; congruence.
  - rewrite decide_False by tauto.
    destruct (list_find P (filter Q l)) as [[??]|],
             (list_find _ l) as [[??]|]; simpl in *; congruence.
Qed.

Lemma head_filter {A} (Q : A → Prop) `{!∀ x, Decision (Q x)} (l : list A) :
  head (filter Q l) = snd <$> list_find Q l.
Proof.
  induction l as [|x l IH]; [done|].
  rewrite filter_cons. cbn [list_find].
  destruct (decide (Q x)); [done|].
  rewrite IH. by destruct (list_find Q l) as [[??]|].
Qed.

Lemma priorityItem_validItems l : priorityItem (validItems l) = header_source l.
Proof.
  unfold priorityItem, validItems, header_source.
  pose proof (find_in_filter (λ it, has_id it = true)
                (λ it, is_deleted it = false) l) as H.
  rewrite head_filter.
  destruct (list_find _ (filter _ l)) as [[??]|],
           (list_find (λ it, is_deleted it = false ∧ _) l) as [[??]|];
    simpl in H; by simplify_eq.
Qed.

(** C5, as stated, fails: for the batch [[{id: 2, status: "a"},
    {id: 1, status: "b"}]] the handler resolves voucher type [Sales Order]
    and status ["b"] (the descriptor with the smallest id comes first after
    the sort), the reference definition of the claim resolves the empty
    voucher type and status ["a"]. *)
Lemma header_reference_counterexample :
  let body := [Item (Some 2) None {[ "status" := VStr "a" ]};
               Item (Some 1) None {[ "status" := VStr "b" ]}] in
  let resolved := commonOrderDetails "2024-06-05" (allItems body) in
  let claimed := header_reference (spec_default "2024-06-05") body in
  resolved !! "voucher_type" = Some (VStr "Sales Order") ∧
  claimed !! "voucher_type" = Some (VStr "") ∧
  resolved !! "status" = Some (VStr "b") ∧
  claimed !! "status" = Some (VStr "a") ∧
  resolved ≠ claimed.
Proof.
  repeat split; try (vm_compute; reflexivity).
  intros H. apply (f_equal (λ m : gmap string value, m !! "status")) in H.
  vm_compute in H. discriminate H.
Qed.

(** C5, amended: the resolved header is the reference definition applied to
    the batch in ascending id order (the stable sort, a missing id counting
    as 0), with the handler's default table: voucher type [Sales Order],
    status [pending], the date the current date, numeric totals zero and the
    other textual fields empty. *)
Theorem commonOrderDetails_reference (today : string) (body : list item) :
  commonOrderDetails today (allItems body)
  = header_reference (handler_default today) (allItems body).
Proof.
  apply map_eq. intros f.
  unfold commonOrderDetails, header_reference.
  rewrite priorityItem_validItems, lookup_tabulate.
  destruct (header_source (allItems body)) as [p|].
  - rewrite lookup_copy_fields, lookup_defaultOrderDetails.
    case_decide; [|done]. by destruct (fields p !! f).
  - apply lookup_defaultOrderDetails.
Qed.

(** ** Order-number generation *)

Lemma is_digit_not_hyphen a : is_digit a = true → Ascii.eqb a "-" = false.
Proof.
  destruct a as [[] [] [] [] [] [] [] []]; vm_compute; congruence.
Qed.

Lemma split_digits_then dd rest :
  all_digits dd = true →
  split "-" (dd +:+ String "-" rest) = dd :: split "-" rest.
Proof.
  induction dd as [|a dd IH]; simpl; [done|].
  intros [Ha Hdd]%andb_true_iff.
  rewrite (is_digit_not_hyphen a Ha), (IH Hdd). done.
Qed.

Lemma split_digits dd : all_digits dd = true → split "-" dd = [dd].
Proof.
  induction dd as [|a dd IH]; simpl; [done|].
  intros [Ha Hdd]%andb_true_iff.
  rewrite (is_digit_not_hyphen a Ha), (IH Hdd). done.
Qed.

Lemma split_order_number dd mm yy nnnn :
  all_digits dd = true → all_digits mm = true → all_digits yy = true →
  all_digits nnnn = true →
  split "-" (order_number dd mm yy nnnn) = ["SQ"; dd; mm; yy; nnnn].
Proof.
  intros Hd Hm Hy Hn. unfold order_number.
  change ("SQ-" +:+ ?s) with (String "S" (String "Q" (String "-" s))).
  cbn [split]. change (Ascii.eqb "S" "-") with false.
  change (Ascii.eqb "Q" "-") with false. change (Ascii.eqb "-" "-") with true.
  cbv iota.
  change ("-" +:+ ?s) with (String "-" s).
  rewrite (split_digits_then dd) by done.
  change ("-" +:+ ?s) with (String "-" s).
  rewrite (split_digits_then mm) by done.
  change ("-" +:+ ?s) with (String "-" s).
  rewrite (split_digits_then yy), (split_digits nnnn) by done.
  done.
Qed.

Lemma all_digits_app s1 s2 :
  all_digits (s1 +:+ s2) = all_digits s1 && all_digits s2.
Proof.
  induction s1 as [|a s1 IH]; simpl; [done|]. by rewrite IH, andb_assoc.
Qed.

Lemma all_digits_uint u :
  all_digits (NilEmpty.string_of_uint u) = true.
Proof. induction u; simpl; done. Qed.

Lemma all_digits_nat_toString n : all_digits (nat_toString n) = true.
Proof. apply all_digits_uint. Qed.

Lemma all_digits_repeat_zero n : all_digits (repeat_char n "0") = true.
Proof. induction n; simpl; done. Qed.

Lemma all_digits_padStart n s :
  all_digits s = true → all_digits (padStart n s) = true.
Proof.
  intros Hs. unfold padStart.
  by rewrite all_digits_app, all_digits_repeat_zero, Hs.
Qed.

Lemma all_digits_substring s : ∀ n m,
  all_digits s = true → all_digits (String.substring n m s) = true.
Proof.
  induction s as [|a s IH]; intros n m; simpl.
  - by destruct n, m.
  - intros [Ha Hs]%andb_true_iff.
    destruct n, m; simpl; rewrite ?Ha; simpl; auto.
Qed.

Lemma all_digits_today today :
  all_digits (today_dd today) = true ∧ all_digits (today_mm today) = true ∧
  all_digits (today_yy today) = true.
Proof.
  unfold today_dd, today_mm, today_yy, slice_last2.
  auto using all_digits_padStart, all_digits_nat_toString,
    all_digits_substring.
Qed.

(** Two hyphenated dates are the same string exactly when their parts are. *)
Lemma date_string_inj a b c a' b' c' :
  all_digits a = true → all_digits b = true → all_digits c = true →
  all_digits a' = true → all_digits b' = true → all_digits c' = true →
  a +:+ "-" +:+ b +:+ "-" +:+ c = a' +:+ "-" +:+ b' +:+ "-" +:+ c' →
  a = a' ∧ b = b' ∧ c = c'.
Proof.
  intros Ha Hb Hc Ha' Hb' Hc' H.
  apply (f_equal (split "-")) in H. revert H.
  change ("-" +:+ ?s) with (String "-" s).
  rewrite (split_digits_then a), (split_digits_then a') by done.
  change ("-" +:+ ?s) with (String "-" s).
  rewrite (split_digits_then b), (split_digits_then b') by done.
  rewrite (split_digits c), (split_digits c') by done.
  intros; by simplify_eq.
Qed.

Lemma digit_of_decimal a :
  is_digit a = true → digit_of 10 a = Some (nat_of_ascii a - 48)%nat.
Proof.
  destruct a as [[] [] [] [] [] [] [] []]; vm_compute; congruence.
Qed.

Lemma read_digits_decimal s : ∀ acc,
  all_digits s = true →
  read_digits 10 (Some acc) s = Some (decimal_value acc s).
Proof.
  induction s as [|a s IH]; intros acc; simpl; [done|].
  intros [Ha Hs]%andb_true_iff.
  rewrite digit_of_decimal by done.
  rewrite IH by done. done.
Qed.

(** A byte below 128 that is no white space starts no white space. *)
Lemma skip_space_ascii a s :
  (Ascii.nat_of_ascii a <? 128)%nat = true → space_1 a = false →
  skip_space (String a s) = String a s.
Proof.
  intros Hlt%Nat.ltb_lt H1. cbn [skip_space]. rewrite H1.
  assert (∀ b, space_2 a b = false) as H2.
  { intros b. unfold space_2.
    destruct (Nat.eqb_spec (Ascii.nat_of_ascii a) 194); [lia|done]. }
  assert (∀ b c, space_3 a b c = false) as H3.
  { intros b c. unfold space_3. cbv zeta.
    destruct (Nat.eqb_spec (Ascii.nat_of_ascii a) 225); [lia|].
    destruct (Nat.eqb_spec (Ascii.nat_of_ascii a) 226); [lia|].
    destruct (Nat.eqb_spec (Ascii.nat_of_ascii a) 227); [lia|].
    destruct (Nat.eqb_spec (Ascii.nat_of_ascii a) 239); [lia|done]. }
  destruct s as [|b [|c s]]; by rewrite ?H2, ?H3.
Qed.

(** White space in front of a text is skipped with the white space the
    text starts with. *)
Lemma skip_space_app_le n : ∀ w rest,
  (String.length w ≤ n)%nat → skip_space w = "" →
  skip_space (w +:+ rest) = skip_space rest.
Proof.
  induction n as [|n IH]; intros w rest Hn Hw.
  { destruct w; [done|simpl in Hn; lia]. }
  destruct w as [|a w1]; [done|].
  change (String a w1 +:+ rest) with (String a (w1 +:+ rest)).
  cbn [skip_space] in Hw |- *.
  destruct (space_1 a).
  { apply IH; [simpl in Hn; lia|done]. }
  destruct w1 as [|b w2]; [done|].
  change (String b w2 +:+ rest) with (String b (w2 +:+ rest)).
  cbn [skip_space].
  destruct (space_2 a b).
  { apply IH; [simpl in Hn; lia|done]. }
  destruct w2 as [|c w3]; [done|].
  change (String c w3 +:+ rest) with (String c (w3 +:+ rest)).
  cbn [skip_space].
  destruct (space_3 a b c); [|done].
  apply IH; [simpl in Hn; lia|done].
Qed.

Lemma skip_space_app w rest :
  all_space w = true → skip_space (w +:+ rest) = skip_space rest.
Proof.
  unfold all_space. intros Hw%String.eqb_eq.
  by apply (skip_space_app_le (String.length w)).
Qed.

Lemma is_digit_not_special a :
  is_digit a = true →
  (Ascii.nat_of_ascii a <? 128)%nat = true ∧ space_1 a = false ∧
  Ascii.eqb a "-" = false ∧ Ascii.eqb a "+" = false ∧
  Ascii.eqb a "x" = false ∧ Ascii.eqb a "X" = false ∧
  Ascii.eqb a "%" = false.
Proof.
  destruct a as [[] [] [] [] [] [] [] []]; vm_compute; intuition congruence.
Qed.

(** A numeral starts with no white space. *)
Lemma skip_space_digit a s :
  is_digit a = true → skip_space (String a s) = String a s.
Proof.
  intros (Hlt & H1 & _)%is_digit_not_special. by apply skip_space_ascii.
Qed.

Lemma parseInt_digits s :
  all_digits s = true → s ≠ "" →
  parseInt s = Some (Z.of_nat (decimal_value 0 s)).
Proof.
  destruct s as [|a s]; [done|]. intros H _.
  pose proof H as [Ha Hs]%andb_true_iff.
  destruct (is_digit_not_special a Ha) as (_ & _ & Hminus & Hplus & _).
  unfold parseInt. rewrite (skip_space_digit a s Ha). cbv zeta.
  rewrite Hminus, Hplus.
  assert (Hnohex :
    match String a s with
    | String a (String b s') =>
        if Ascii.eqb a "0" && (Ascii.eqb b "x" || Ascii.eqb b "X")
        then read_digits 16 None s'
        else read_digits 10 None (String a s)
    | _ => read_digits 10 None (String a s)
    end = read_digits 10 None (String a s)).
  { destruct s as [|b s]; [done|].
    simpl in Hs. apply andb_true_iff in Hs as [Hb _].
    destruct (is_digit_not_special b Hb) as (_ & _ & _ & _ & -> & -> & _).
    by rewrite andb_false_r. }
  rewrite Hnohex. cbn [read_digits].
  rewrite digit_of_decimal by done.
  rewrite read_digits_decimal by done. simpl. done.
Qed.

(** What the statements after the lookup compute: for a latest order number
    [SQ-DD-MM-YY-NNNN], the next order number is [SQ-DD-MM-YY-(NNNN+1)], the
    sequence padded with zeros to four digits, when [DD-MM-YY] is the
    current date, and [SQ-{today}-0001] otherwise; it is [SQ-{today}-0001]
    too when there is no earlier [SQ-] order. *)
Lemma next_order_number_spec (dd mm yy nnnn : string) (today : js_date) :
  all_digits dd = true → all_digits mm = true → all_digits yy = true →
  all_digits nnnn = true → String.length nnnn = 4%nat →
  next_order_number (Some (order_number dd mm yy nnnn)) today
  = (if decide (dd = today_dd today ∧ mm = today_mm today
                ∧ yy = today_yy today)
     then order_number dd mm yy
            (padStart 4
               (number_toString
                  (Some (Z.of_nat (decimal_value 0 nnnn) + 1))))
     else order_number (today_dd today) (today_mm today) (today_yy today)
            "0001")
  ∧ next_order_number None today
    = order_number (today_dd today) (today_mm today) (today_yy today) "0001".
Proof.
  intros Hd Hm Hy Hn Hlen. split; [|done].
  destruct (all_digits_today today) as (Htd & Htm & Hty).
  unfold next_order_number.
  fold (today_dd today) (today_mm today) (today_yy today).
  change (String.eqb (order_number dd mm yy nnnn) "") with false. cbv iota.
  rewrite split_order_number by done. unfold part. cbn [nth].
  destruct (String.eqb_spec (dd +:+ "-" +:+ mm +:+ "-" +:+ yy)
              (today_dd today +:+ "-" +:+ today_mm today +:+ "-"
               +:+ today_yy today)) as [Heq|Hne].
  - apply date_string_inj in Heq as (-> & -> & ->); try done.
    rewrite decide_True by done.
    rewrite parseInt_digits by (done || by destruct nnnn).
    done.
  - rewrite decide_False; [done|]. intros (-> & -> & ->). by apply Hne.
Qed.

Lemma next_order_number_spec_witness :
  next_order_number (Some (order_number "05" "06" "24" "0007"))
    (JsDate 5 5 2024) = "SQ-05-06-24-0008"
  ∧ next_order_number (Some (order_number "05" "06" "24" "0007"))
      (JsDate 6 5 2024) = "SQ-06-06-24-0001".
Proof.
  split.
  - exact (proj1 (next_order_number_spec "05" "06" "24" "0007"
                    (JsDate 5 5 2024)
                    eq_refl eq_refl eq_refl eq_refl eq_refl)).
  - exact (proj1 (next_order_number_spec "05" "06" "24" "0007"
                    (JsDate 6 5 2024)
                    eq_refl eq_refl eq_refl eq_refl eq_refl)).
Defined.

(** C6: the route generates no order number.  [Order] is bound nowhere in the
    module, so the lookup throws and every request is answered 500 with
    [Order is not defined]; the latest order [SQ-05-06-24-0007] on 5 June
    2024 is not answered with [SQ-05-06-24-0008], which the statements after
    the lookup would compute. *)
Theorem next_order_number_not_generated latestOrder today :
  get_next_order_number latestOrder today
  = NextJson500 "Order is not defined" ∧
  get_next_order_number (Some "SQ-05-06-24-0007")
    {| getDate := 5; getMonth := 5; getFullYear := 2024 |}
  ≠ NextJson200 "SQ-05-06-24-0008" ∧
  next_order_number (Some "SQ-05-06-24-0007")
    {| getDate := 5; getMonth := 5; getFullYear := 2024 |}
  = "SQ-05-06-24-0008".
Proof.
  assert (Hroute : ∀ l d, get_next_order_number l d
                          = NextJson500 "Order is not defined").
  { intros l d. unfold get_next_order_number.
    rewrite decide_False; [done|]. unfold module_bindings.
    rewrite !elem_of_cons, elem_of_nil. intros H.
    repeat destruct H as [H|H]; done. }
  split; [apply Hroute|]. split; [by rewrite Hroute|].
  vm_compute. reflexivity.
Qed.

(** ** Reasoning about code that runs inside a transaction *)

Section Satisfies.
Context {A B : Type}.
Implicit Types (k t : list (gmap string value)) (n : Z).

Lemma satisfies_ret (a : A) k t n post :
  post (Ok a) t n → satisfies (mret a) k t n post.
Proof. intros H. by exists (Ok a), t, n. Qed.

Lemma satisfies_throw e k t n (post : result A → _) :
  post (Throw e) t n → satisfies (throw e) k t n post.
Proof. intros H. by exists (Throw e), t, n. Qed.

Lemma satisfies_bind (m : M A) (f : A → M B) k t n post :
  satisfies m k t n (λ r t' n',
    match r with
    | Ok a => satisfies (f a) k t' n' post
    | Throw e => post (Throw e) t' n'
    end) →
  satisfies (m ≫= f) k t n post.
Proof.
  intros (r & t' & n' & Hm & H). unfold satisfies, mbind, M_bind.
  rewrite Hm. destruct r as [a|e]; [done|]. by exists (Throw e), t', n'.
Qed.

Lemma satisfies_catch (m : M A) (h : exn → M A) k t n post :
  satisfies m k t n (λ r t' n',
    match r with
    | Ok a => post (Ok a) t' n'
    | Throw e => satisfies (h e) k t' n' post
    end) →
  satisfies (catch m h) k t n post.
Proof.
  intros (r & t' & n' & Hm & H). unfold satisfies, catch. rewrite Hm.
  destruct r as [a|e]; [|done]. by exists (Ok a), t', n'.
Qed.

Lemma satisfies_mono (m : M A) k t n (post post' : result A → _) :
  satisfies m k t n post →
  (∀ r t' n', post r t' n' → post' r t' n') →
  satisfies m k t n post'.
Proof. intros (r & t' & n' & Hm & H) Himp. exists r, t', n'. auto. Qed.

Lemma satisfies_elim (m : M A) k t n post r c :
  satisfies m k t n post → m (in_tx k t n) = (r, c) →
  ∃ t' n', c = in_tx k t' n' ∧ post r t' n'.
Proof. intros (r' & t' & n' & Hm & H) Heq. rewrite Hm in Heq. naive_solver. Qed.
End Satisfies.

Section Statements.
Variable store_cast : string → value → option value.
Implicit Types (k t : list (gmap string value)) (n : Z).
Implicit Types (p : gmap string value → Prop).

Lemma satisfies_select p `{!∀ r, Decision (p r)} k t n post :
  post (Ok (filter p t)) t n → satisfies (sql_select p) k t n post.
Proof. intros Hpost. by exists (Ok (filter p t)), t, n. Qed.

Lemma satisfies_delete p `{!∀ r, Decision (p r)} k t n post :
  post (Ok (filter p t)) (filter (λ r, ¬ p r) t) n →
  satisfies (sql_delete p) k t n post.
Proof. intros Hpost. by exists (Ok (filter p t)), (filter (λ r, ¬ p r) t), n. Qed.

Lemma satisfies_update p `{!∀ r, Decision (p r)} sets k t n post :
  match cast_all store_cast sets with
  | Ok stored =>
      post (Ok (length (filter p t))) (set_where p stored <$> t) n
  | Throw e => post (Throw e) t n
  end →
  satisfies (sql_update store_cast p sets) k t n post.
Proof.
  intros Hpost. unfold satisfies, sql_update, mbind, M_bind, cast_params.
  destruct (cast_all store_cast sets) as [stored|e]; simpl; eauto.
Qed.

Lemma satisfies_insert cols k t n post :
  match cast_all store_cast cols with
  | Ok stored =>
      post (Ok n) (t ++ [<["id" := VNum n]> stored]) (n + 1)
  | Throw e => post (Throw e) t n
  end →
  satisfies (sql_insert store_cast cols) k t n post.
Proof.
  intros Hpost. unfold satisfies, sql_insert, mbind, M_bind, cast_params.
  destruct (cast_all store_cast cols) as [stored|e]; simpl; eauto.
Qed.

(** What the store keeps for a [SET] list has the columns of the list. *)
Lemma cast_all_lookup sets stored c :
  cast_all store_cast sets = Ok stored →
  stored !! c = sets !! c ≫= store_cast c.
Proof.
  unfold cast_all. destruct (filter _ _) as [|[??]?]; [|done].
  intros [= <-]. apply map_lookup_imap.
Qed.

Lemma cast_all_lookup_None sets stored c :
  cast_all store_cast sets = Ok stored → sets !! c = None →
  stored !! c = None.
Proof. intros H Hc. by rewrite (cast_all_lookup _ _ _ H), Hc. Qed.

Lemma cast_all_lookup_Some sets stored c v :
  cast_all store_cast sets = Ok stored → sets !! c = Some v →
  is_Some (stored !! c).
Proof.
  unfold cast_all.
  destruct (filter _ _) as [|[??]?] eqn:Hf; [|done].
  intros [= <-] Hc. rewrite map_lookup_imap, Hc. simpl.
  destruct (store_cast c v) eqn:Hcast; [done|].
  assert ((c, v) ∈ filter (λ kv, store_cast kv.1 kv.2 = None)
                     (map_to_list sets)) as Hin.
  { apply list_elem_of_filter. split; [done|].
    by apply elem_of_map_to_list. }
  rewrite Hf in Hin. by apply elem_of_nil in Hin.
Qed.
End Statements.

(** ** Rows keep their identity *)

Section Preserves.
Context {A B : Type}.
Variable R : list (gmap string value) → Z →
             list (gmap string value) → Z → Prop.
Hypothesis R_refl : ∀ t n, R t n t n.
Hypothesis R_trans : ∀ t1 n1 t2 n2 t3 n3,
  R t1 n1 t2 n2 → R t2 n2 t3 n3 → R t1 n1 t3 n3.

Lemma preserves_ret (a : A) : preserves R (mret a).
Proof. intros k t n. by apply satisfies_ret. Qed.

Lemma preserves_throw e : preserves R (throw e : M A).
Proof. intros k t n. by apply satisfies_throw. Qed.

Lemma preserves_bind (m : M A) (f : A → M B) :
  preserves R m → (∀ a, preserves R (f a)) → preserves R (m ≫= f).
Proof.
  intros Hm Hf k t n. apply satisfies_bind.
  eapply satisfies_mono; [apply Hm|]. intros [a|e] t' n' HR; [|done].
  eapply satisfies_mono; [apply Hf|]. eauto.
Qed.

Lemma preserves_catch (m : M A) (h : exn → M A) :
  preserves R m → (∀ e, preserves R (h e)) → preserves R (catch m h).
Proof.
  intros Hm Hh k t n. apply satisfies_catch.
  eapply satisfies_mono; [apply Hm|]. intros [a|e] t' n' HR; [done|].
  eapply satisfies_mono; [apply Hh|]. eauto.
Qed.
End Preserves.

(** Steps whose effect on the table does not matter for [post]. *)
Lemma satisfies_skip {A B} R (m : M A) (f : A → M B) k t n post :
  preserves R m →
  (∀ a t' n', satisfies (f a) k t' n' post) →
  (∀ e t' n', post (Throw e) t' n') →
  satisfies (m ≫= f) k t n post.
Proof.
  intros Hm Hf He. apply satisfies_bind.
  eapply satisfies_mono; [apply Hm|]. intros [a|e] t' n' _; auto.
Qed.

Lemma evolves_refl t n : evolves t n t n.
Proof. split; [lia|]. intros r Hr. left. eauto. Qed.

Lemma evolves_trans t1 n1 t2 n2 t3 n3 :
  evolves t1 n1 t2 n2 → evolves t2 n2 t3 n3 → evolves t1 n1 t3 n3.
Proof.
  intros [Hn1 H1] [Hn2 H2]. split; [lia|]. intros r3 Hr3.
  destruct (H2 r3 Hr3) as [(r2 & Hr2 & Hk2)|(i & Hi & Hid)].
  - destruct (H1 r2 Hr2) as [(r1 & Hr1 & Hk1)|(i & Hi & Hid)].
    + left. exists r1. split; [done|]. congruence.
    + right. exists i. split; [lia|].
      injection Hk2 as Hk2 _. by rewrite Hk2.
  - right. exists i. split; [lia|done].
Qed.

Lemma keys_union (U r : gmap string value) :
  U !! "id" = None → U !! "order_no" = None → keys (U ∪ r) = keys r.
Proof.
  intros H1 H2. unfold keys.
  by rewrite (lookup_union_r U r "id"), (lookup_union_r U r "order_no").
Qed.

Lemma keys_set_where p `{!∀ r, Decision (p r)} (stored r : gmap string value) :
  stored !! "id" = None → stored !! "order_no" = None →
  keys (set_where p stored r) = keys r.
Proof.
  intros H1 H2. unfold set_where. case_decide; [|done]. by apply keys_union.
Qed.

Lemma filteredFields_lookup_None flds c :
  c ∉ allowedFields → filteredFields flds !! c = None.
Proof.
  intros Hc. apply map_lookup_filter_None. right. intros v _. exact Hc.
Qed.

Lemma filteredFields_keys flds :
  filteredFields flds !! "id" = None ∧
  filteredFields flds !! "order_no" = None.
Proof.
  split; apply filteredFields_lookup_None; compute_done.
Qed.

Lemma commonValues_keys common :
  commonValues common !! "id" = None ∧
  commonValues common !! "order_no" = None.
Proof.
  unfold commonValues. rewrite !lookup_tabulate.
  split; by rewrite decide_False by compute_done.
Qed.

(** The delete, update and broadcast phases only filter the table and
    overwrite columns other than [id] and [order_no]; they respect every
    relation that such steps respect. *)
Section Rowwise.
Variable store_cast : string → value → option value.
Variable R : list (gmap string value) → Z →
             list (gmap string value) → Z → Prop.
Hypothesis R_refl : ∀ t n, R t n t n.
Hypothesis R_trans : ∀ t1 n1 t2 n2 t3 n3,
  R t1 n1 t2 n2 → R t2 n2 t3 n3 → R t1 n1 t3 n3.
Hypothesis R_filter : ∀ t n (P : gmap string value → Prop)
  `{!∀ r, Decision (P r)}, R t n (filter P t) n.
Hypothesis R_set : ∀ t n (P : gmap string value → Prop)
  `{!∀ r, Decision (P r)} (stored : gmap string value),
  stored !! "id" = None → stored !! "order_no" = None →
  R t n (set_where P stored <$> t) n.
Hypothesis R_insert : ∀ t n (stored : gmap string value),
  R t n (t ++ [<["id" := VNum n]> stored]) (n + 1).
Implicit Types (p : gmap string value → Prop).

Lemma rowwise_select p `{!∀ r, Decision (p r)} : preserves R (sql_select p).
Proof. intros k t n. apply satisfies_select, R_refl. Qed.

Lemma rowwise_delete p `{!∀ r, Decision (p r)} : preserves R (sql_delete p).
Proof. intros k t n. apply satisfies_delete, R_filter. Qed.

Lemma rowwise_update p `{!∀ r, Decision (p r)} sets :
  sets !! "id" = None → sets !! "order_no" = None →
  preserves R (sql_update store_cast p sets).
Proof.
  intros H1 H2 k t n. apply satisfies_update.
  destruct (cast_all store_cast sets) as [stored|e] eqn:Hcast;
    [|apply R_refl].
  apply R_set; eauto using cast_all_lookup_None.
Qed.

Ltac step :=
  first [ apply rowwise_select | apply rowwise_delete
        | apply rowwise_update;
            first [apply filteredFields_keys | apply commonValues_keys]
        | apply preserves_ret; exact R_refl
        | apply preserves_throw; exact R_refl
        | apply preserves_bind; [exact R_trans| |intros ?] ].

Lemma rowwise_delete_phase orderExists order_no toDelete :
  preserves R (delete_phase orderExists order_no toDelete).
Proof.
  unfold delete_phase. cbv zeta.
  destruct (0 <? length toDelete)%nat; [|step].
  step; [|repeat step].
  destruct orderExists; [|step]. step; [step|]. case_decide; step.
Qed.

Lemma rowwise_update_one orderExists order_no update :
  preserves R (update_one store_cast orderExists order_no update).
Proof.
  unfold update_one. cbv zeta. step.
  - destruct orderExists; [|step]. step; [step|].
    destruct a; [step|]. case_decide; step.
  - case_decide; [step|]. step; [step|]. case_decide; step.
Qed.

Lemma rowwise_update_phase orderExists order_no toUpdate :
  preserves R (update_phase store_cast orderExists order_no toUpdate).
Proof.
  induction toUpdate as [|u l IH]; simpl; [step|].
  step; [apply rowwise_update_one|exact IH].
Qed.

Lemma rowwise_broadcast_phase orderExists order_no common toInsert :
  preserves R
    (broadcast_phase store_cast orderExists order_no common toInsert).
Proof.
  unfold broadcast_phase. destruct (_ || _); [|step]. step; step.
Qed.

Lemma rowwise_insert cols : preserves R (sql_insert store_cast cols).
Proof.
  intros k t n. apply satisfies_insert.
  destruct (cast_all store_cast cols) as [stored|e]; [|apply R_refl].
  apply R_insert.
Qed.

Lemma rowwise_insert_loop insertData : ∀ index,
  preserves R (insert_loop store_cast index insertData).
Proof.
  induction insertData as [|x l IH]; intros index; simpl; [step|].
  step.
  - apply preserves_catch; [exact R_trans|apply rowwise_insert|].
    intros e. step.
  - step; [apply IH|step].
Qed.

Lemma rowwise_phases today order_no all :
  preserves R (phases store_cast today order_no all).
Proof.
  unfold phases. step; [step|]. cbv zeta. destruct (_ && _); [step|].
  step; [apply rowwise_delete_phase|].
  step; [apply rowwise_update_phase|].
  step; [apply rowwise_insert_loop|].
  apply rowwise_broadcast_phase.
Qed.
End Rowwise.

Lemma evolves_filter t n (P : gmap string value → Prop)
    `{!∀ r, Decision (P r)} :
  evolves t n (filter P t) n.
Proof.
  split; [lia|]. intros r [_ Hr]%list_elem_of_filter. left. eauto.
Qed.

Lemma evolves_set t n (P : gmap string value → Prop)
    `{!∀ r, Decision (P r)} (stored : gmap string value) :
  stored !! "id" = None → stored !! "order_no" = None →
  evolves t n (set_where P stored <$> t) n.
Proof.
  intros H1 H2. split; [lia|]. intros r' (r & -> & Hr)%list_elem_of_fmap.
  left. exists r. split; [done|]. by apply keys_set_where.
Qed.

Lemma stays_refl t n : stays t n t n.
Proof. split; [done|]. eauto. Qed.

Lemma stays_trans t1 n1 t2 n2 t3 n3 :
  stays t1 n1 t2 n2 → stays t2 n2 t3 n3 → stays t1 n1 t3 n3.
Proof.
  intros [-> H1] [-> H2]. split; [done|]. intros r3 Hr3.
  destruct (H2 r3 Hr3) as (r2 & Hr2 & Hk2).
  destruct (H1 r2 Hr2) as (r1 & Hr1 & Hk1).
  exists r1. split; [done|]. congruence.
Qed.

Lemma stays_filter t n (P : gmap string value → Prop)
    `{!∀ r, Decision (P r)} :
  stays t n (filter P t) n.
Proof.
  split; [done|]. intros r [_ Hr]%list_elem_of_filter. eauto.
Qed.

Lemma stays_set t n (P : gmap string value → Prop)
    `{!∀ r, Decision (P r)} (stored : gmap string value) :
  stored !! "id" = None → stored !! "order_no" = None →
  stays t n (set_where P stored <$> t) n.
Proof.
  intros H1 H2. split; [done|]. intros r' (r & -> & Hr)%list_elem_of_fmap.
  exists r. split; [done|]. by apply keys_set_where.
Qed.

Lemma evolves_insert t n (stored : gmap string value) :
  evolves t n (t ++ [<["id" := VNum n]> stored]) (n + 1).
Proof.
  split; [lia|]. intros r' [Hr|Hr]%elem_of_app.
  - left. eauto.
  - apply list_elem_of_singleton in Hr as ->. right. exists n.
    split; [lia|]. by rewrite lookup_insert_eq.
Qed.

Lemma evolves_phases store_cast today order_no all :
  preserves evolves (phases store_cast today order_no all).
Proof.
  exact (rowwise_phases store_cast evolves evolves_refl evolves_trans
           (@evolves_filter) (@evolves_set) evolves_insert _ _ _).
Qed.

(** The primary key is kept. *)
Lemma wf_kept_refl t n : wf_kept t n t n.
Proof. by intros H. Qed.

Lemma wf_kept_trans t1 n1 t2 n2 t3 n3 :
  wf_kept t1 n1 t2 n2 → wf_kept t2 n2 t3 n3 → wf_kept t1 n1 t3 n3.
Proof. unfold wf_kept. auto. Qed.

Lemma wf_kept_filter t n (P : gmap string value → Prop)
    `{!∀ r, Decision (P r)} :
  wf_kept t n (filter P t) n.
Proof.
  intros [Hnodup Hids]. split.
  - refine (sublist_NoDup _ _ Hnodup _).
    apply fmap_sublist, sublist_filter.
  - intros r [_ Hr]%list_elem_of_filter. auto.
Qed.

Lemma wf_kept_set t n (P : gmap string value → Prop)
    `{!∀ r, Decision (P r)} (stored : gmap string value) :
  stored !! "id" = None → stored !! "order_no" = None →
  wf_kept t n (set_where P stored <$> t) n.
Proof.
  intros H1 H2 [Hnodup Hids].
  assert (Hsame : ∀ r, set_where P stored r !! "id" = r !! "id").
  { intros r. pose proof (keys_set_where P stored r H1 H2) as Hk.
    by injection Hk. }
  split.
  - rewrite <- list_fmap_compose.
    by rewrite (list_fmap_ext _ (λ r, r !! "id") t)
      by (intros; apply Hsame).
  - intros r' (r & -> & Hr)%list_elem_of_fmap. rewrite Hsame. auto.
Qed.

Lemma wf_kept_insert t n (stored : gmap string value) :
  wf_kept t n (t ++ [<["id" := VNum n]> stored]) (n + 1).
Proof.
  intros [Hnodup Hids]. split.
  - rewrite fmap_app. apply NoDup_app. split; [done|]. split.
    + intros o (r & -> & Hr)%list_elem_of_fmap Hin.
      apply list_elem_of_singleton in Hin.
      rewrite lookup_insert_eq in Hin.
      destruct (Hids r Hr) as (i & Hi & Hlt). rewrite Hi in Hin.
      simplify_eq. lia.
    + apply NoDup_singleton.
  - intros r [Hr|Hr]%elem_of_app.
    + destruct (Hids r Hr) as (i & Hi & Hlt). exists i. split; [done|lia].
    + apply list_elem_of_singleton in Hr as ->. exists n.
      rewrite lookup_insert_eq. split; [done|lia].
Qed.

Lemma wf_kept_phases store_cast today order_no all :
  preserves wf_kept (phases store_cast today order_no all).
Proof.
  exact (rowwise_phases store_cast wf_kept wf_kept_refl wf_kept_trans
           (@wf_kept_filter) (@wf_kept_set) wf_kept_insert _ _ _).
Qed.

(** ** The handler around the transaction *)

Section Handler.
Variable store_cast : string → value → option value.

(** The handler past its two guards, in terms of what the phases do inside
    the transaction opened on a fresh connection. *)
Lemma put_run today order_no body s :
  all_space order_no = false → body ≠ [] →
  put_orders_by_number store_cast today order_no body s
  = match phases store_cast today order_no (allItems body)
            (query_begin (connect s)).2 with
    | (Ok _, c) =>
        let all := allItems body in
        let data := js_sort row_id (filter (order_no_is order_no) (visible c)) in
        let common := commonOrderDetails today all in
        (Json200 data
           {| inserted := length (itemsToInsert all);
              updated := length (itemsToUpdate all);
              deleted := length (itemsToDelete all);
              total := length data |}
           {| od_order_no := order_no;
              od_customer_name := param common "customer_name";
              od_total_amount := param common "total_amount";
              od_status := param common "status" |},
         {| rows := visible c; next_id := seq c |})
    | (Throw e, c) => (Json500 e, {| rows := committed c; next_id := seq c |})
    end.
Proof.
  intros Ho Hb. unfold put_orders_by_number. rewrite Ho.
  assert ((length (allItems body) =? 0)%nat = false) as ->.
  { apply Nat.eqb_neq. unfold allItems. rewrite length_js_sort.
    by destruct body. }
  unfold put_try_catch, try_block. unfold mbind at 1, M_bind at 1.
  destruct (query_begin (connect s)) as [[[]|e] c0] eqn:Hb0; [|done].
  simpl. unfold mbind at 1, M_bind at 1.
  destruct (phases _ _ _ _ c0) as [[[]|e] c] eqn:Hp; [|done].
  reflexivity.
Qed.

(** A throw between [BEGIN] and [COMMIT] is answered with the failure
    response and leaves the rows as they were. *)
Lemma put_throw today order_no body s e c :
  all_space order_no = false → body ≠ [] →
  phases store_cast today order_no (allItems body)
    (query_begin (connect s)).2 = (Throw e, c) →
  put_orders_by_number store_cast today order_no body s
  = (Json500 e, {| rows := rows s; next_id := seq c |}).
Proof.
  intros Ho Hb Hp. rewrite put_run, Hp by done.
  apply (satisfies_elim _ _ _ _ _ _ _ (evolves_phases _ _ _ _ _ _ _))
    in Hp as (t' & n' & -> & _).
  done.
Qed.

(** A throw between [BEGIN] and [COMMIT] finds the transaction open; the
    [catch] block closes it, and the connection goes back to the pool with
    the committed table as [BEGIN] found it. *)
Lemma put_try_catch_throw today order_no all s e c :
  phases store_cast today order_no all (query_begin (connect s)).2
  = (Throw e, c) →
  (∃ t, tx c = Some t) ∧
  put_try_catch store_cast today order_no all (connect s)
  = (Json500 e, {| committed := rows s; tx := None; seq := seq c |}).
Proof.
  intros Hp. unfold put_try_catch, try_block.
  unfold mbind at 1, M_bind at 1.
  change (query_begin (connect s))
    with (Ok (), (query_begin (connect s)).2).
  cbv iota beta. unfold mbind at 1, M_bind at 1. rewrite Hp.
  apply (satisfies_elim _ _ _ _ _ _ _ (evolves_phases _ _ _ _ _ _ _))
    in Hp as (t' & n' & -> & _).
  split; [by exists t'|reflexivity].
Qed.

(** Whatever the [try] block does, the connection is released with no
    transaction open. *)
Lemma put_try_catch_closed today order_no all s :
  tx (put_try_catch store_cast today order_no all (connect s)).2 = None.
Proof.
  destruct (phases store_cast today order_no all
              (query_begin (connect s)).2) as [[[]|e] c] eqn:Hp.
  - unfold put_try_catch, try_block.
    unfold mbind at 1, M_bind at 1.
    change (query_begin (connect s))
      with (Ok (), (query_begin (connect s)).2).
    cbv iota beta. unfold mbind at 1, M_bind at 1. rewrite Hp.
    reflexivity.
  - by rewrite (proj2 (put_try_catch_throw _ _ _ _ _ _ Hp)).
Qed.

(** The two guards answer 400 and leave the store alone. *)
Lemma put_guarded today order_no body s :
  all_space order_no = true ∨ body = [] →
  ∃ msg, put_orders_by_number store_cast today order_no body s
         = (Json400 msg, s).
Proof.
  unfold put_orders_by_number. intros [->| ->]; [eauto|].
  destruct (all_space order_no); eauto.
Qed.

(** Whenever the failure response is sent, the rows are those before the
    request. *)
Lemma put_failure_rows today order_no body s e s' :
  put_orders_by_number store_cast today order_no body s = (Json500 e, s') →
  rows s' = rows s.
Proof.
  intros Hput.
  destruct (all_space order_no) eqn:Ho.
  { destruct (put_guarded today order_no body s) as [? H];
      [by left|congruence]. }
  destruct (decide (body = [])) as [->|Hb].
  { destruct (put_guarded today order_no [] s) as [? H];
      [by right|congruence]. }
  destruct (phases store_cast today order_no (allItems body)
              (query_begin (connect s)).2) as [[[]|e0] c] eqn:Hp.
  - rewrite put_run, Hp in Hput by done. discriminate Hput.
  - rewrite (put_throw _ _ _ _ _ _ Ho Hb Hp) in Hput.
    by injection Hput as _ <-.
Qed.
End Handler.

(** C1: when a phase of the reconciliation (delete, update, insert or header
    broadcast) throws, the transaction is open at that point and the handler
    rolls it back: the connection it hands back to the pool has no
    transaction open and holds the committed table of before the request;
    the answer is the failure response, and the stored rows are exactly those
    before the request. *)
Theorem rollback_on_exception store_cast today order_no body s e c :
  all_space order_no = false → body ≠ [] →
  phases store_cast today order_no (allItems body)
    (query_begin (connect s)).2 = (Throw e, c) →
  (∃ t, tx c = Some t) ∧
  put_try_catch store_cast today order_no (allItems body) (connect s)
  = (Json500 e, {| committed := rows s; tx := None; seq := seq c |}) ∧
  put_orders_by_number store_cast today order_no body s
  = (Json500 e, {| rows := rows s; next_id := seq c |}).
Proof.
  intros Ho Hb Hp.
  destruct (put_try_catch_throw store_cast _ _ _ _ _ _ Hp) as [Hopen Hrun].
  split; [exact Hopen|]. split; [exact Hrun|]. by apply put_throw.
Qed.

Lemma rollback_on_exception_witness :
  let c := (phases accept_all "2024-06-05" "A" (allItems foreign_batch)
              (query_begin (connect example_store)).2).2 in
  (∃ t, tx c = Some t) ∧
  put_try_catch accept_all "2024-06-05" "A" (allItems foreign_batch)
    (connect example_store)
  = (Json500 (ItemBelongsTo 5 (Some (VStr "B")) "A"),
     {| committed := rows example_store; tx := None; seq := seq c |}) ∧
  put_orders_by_number accept_all "2024-06-05" "A" foreign_batch example_store
  = (Json500 (ItemBelongsTo 5 (Some (VStr "B")) "A"),
     {| rows := rows example_store; next_id := seq c |}).
Proof.
  intros c.
  apply (rollback_on_exception accept_all "2024-06-05" "A" foreign_batch
           example_store (ItemBelongsTo 5 (Some (VStr "B")) "A") c);
    [reflexivity | discriminate |].
  assert ((phases accept_all "2024-06-05" "A" (allItems foreign_batch)
             (query_begin (connect example_store)).2).1
          = Throw (ItemBelongsTo 5 (Some (VStr "B")) "A")) as H
    by (vm_compute; reflexivity).
  unfold c. destruct (phases _ _ _ _ _) as [r c0]. simpl in H.
  rewrite H. reflexivity.
Defined.

(** ** The header broadcast *)

Section Broadcast.
Variable store_cast : string → value → option value.

(** A run of the phases that does not throw ends with the broadcast of the
    resolved header. *)
Lemma phases_end_with_broadcast today order_no all k t n :
  satisfies (phases store_cast today order_no all) k t n (λ r t' n',
    r = Ok () →
    ∃ t1 stored,
      cast_all store_cast (commonValues (commonOrderDetails today all))
      = Ok stored ∧
      t' = set_where (order_no_is order_no) stored <$> t1).
Proof.
  unfold phases. apply satisfies_bind, satisfies_select. cbv zeta.
  destruct (negb _ && _) eqn:Hguard; [by apply satisfies_throw|].
  eapply satisfies_skip;
    [exact (rowwise_delete_phase stays stays_refl stays_trans
              (@stays_filter) _ _ _)| |done].
  intros _ t1 n1.
  eapply satisfies_skip;
    [exact (rowwise_update_phase store_cast stays stays_refl stays_trans
              (@stays_set) _ _ _)| |done].
  intros _ t2 n2.
  eapply satisfies_skip;
    [exact (rowwise_insert_loop store_cast evolves evolves_refl evolves_trans
              evolves_insert _ _)| |done].
  intros _ t3 n3.
  unfold broadcast_phase.
  assert ((0 <? length (filter (order_no_is order_no) t))%nat
          || (0 <? length (itemsToInsert all))%nat = true) as ->.
  { destruct (0 <? length (filter _ t))%nat; [done|]. simpl in *.
    destruct (itemsToInsert all); done. }
  apply satisfies_bind, satisfies_update.
  destruct (cast_all _ _) as [stored|e] eqn:Hcast; [|done].
  apply satisfies_ret. eauto.
Qed.

Lemma broadcast_row order_no sets stored (t1 : list (gmap string value)) r f :
  cast_all store_cast sets = Ok stored →
  is_Some (sets !! f) → sets !! "order_no" = None →
  r ∈ set_where (order_no_is order_no) stored <$> t1 →
  order_no_is order_no r →
  r !! f = stored !! f.
Proof.
  intros Hcast [v Hf] Ho (r0 & -> & Hr0)%list_elem_of_fmap.
  unfold set_where. case_decide as Hp; [|done]. intros _.
  apply lookup_union_l'. eauto using cast_all_lookup_Some.
Qed.

Lemma put_ok_header today order_no body s data ops details s' :
  put_orders_by_number store_cast today order_no body s
  = (Json200 data ops details, s') →
  ∃ stored,
    cast_all store_cast
      (commonValues (commonOrderDetails today (allItems body))) = Ok stored ∧
    data ≡ₚ filter (order_no_is order_no) (rows s') ∧
    ∀ r f, r ∈ rows s' → order_no_is order_no r → f ∈ commonFields →
           r !! f = stored !! f.
Proof.
  intros Hput.
  destruct (all_space order_no) eqn:Ho.
  { destruct (put_guarded store_cast today order_no body s) as [? H];
      [by left|congruence]. }
  destruct (decide (body = [])) as [->|Hb].
  { destruct (put_guarded store_cast today order_no [] s) as [? H];
      [by right|congruence]. }
  destruct (phases store_cast today order_no (allItems body)
              (query_begin (connect s)).2) as [[[]|e] c] eqn:Hp.
  - pose proof Hp as Hp'.
    apply (satisfies_elim _ _ _ _ _ _ _
             (phases_end_with_broadcast _ _ _ _ _ _)) in Hp'
      as (t' & n' & -> & Hpost).
    destruct (Hpost eq_refl) as (t1 & stored & Hcast & ->).
    rewrite put_run, Hp in Hput by done. simpl in Hput.
    injection Hput as <- _ _ <-. exists stored.
    split; [done|]. split; [apply js_sort_perm|]. simpl.
    intros r f Hr Hor Hf.
    apply (broadcast_row order_no _ stored t1 r f Hcast); [| |done|done].
    + unfold commonValues. rewrite lookup_tabulate.
      by rewrite decide_True.
    + apply commonValues_keys.
  - rewrite (put_throw _ _ _ _ _ _ _ Ho Hb Hp) in Hput. done.
Qed.
End Broadcast.

(** C2: after a successful reconciliation every stored row of the requested
    order number, and every returned row, carries the same value in each of
    the fourteen header fields. *)
Theorem header_identical store_cast today order_no body s resp s' :
  put_orders_by_number store_cast today order_no body s = (resp, s') →
  is_success resp = true →
  (∀ r1 r2 f, r1 ∈ rows s' → r2 ∈ rows s' →
     order_no_is order_no r1 → order_no_is order_no r2 →
     f ∈ commonFields → r1 !! f = r2 !! f) ∧
  (∀ r1 r2 f, r1 ∈ response_data resp → r2 ∈ response_data resp →
     f ∈ commonFields → r1 !! f = r2 !! f).
Proof.
  intros Hput Hok. destruct resp as [|data ops details|]; try discriminate.
  apply put_ok_header in Hput as (stored & _ & Hdata & Hrows). simpl.
  assert (∀ r, r ∈ data → r ∈ rows s' ∧ order_no_is order_no r) as Hin.
  { intros r. rewrite Hdata, list_elem_of_filter. tauto. }
  split.
  - intros r1 r2 f H1 H2 Ho1 Ho2 Hf.
    by rewrite (Hrows r1 f), (Hrows r2 f).
  - intros r1 r2 f [H1 Ho1]%Hin [H2 Ho2]%Hin Hf.
    by rewrite (Hrows r1 f), (Hrows r2 f).
Qed.

Lemma header_identical_witness :
  let out := put_orders_by_number accept_all "2024-06-05" "A" example_batch
               example_store in
  is_success out.1 = true ∧
  ∀ r1 r2 f, r1 ∈ rows out.2 → r2 ∈ rows out.2 →
    order_no_is "A" r1 → order_no_is "A" r2 →
    f ∈ commonFields → r1 !! f = r2 !! f.
Proof.
  intros out.
  assert (is_success out.1 = true) as Hok by (vm_compute; reflexivity).
  split; [exact Hok|].
  exact (proj1 (header_identical accept_all "2024-06-05" "A" example_batch
                  example_store out.1 out.2 (surjective_pairing out) Hok)).
Defined.

(** ** Rows keep their order number *)

Lemma NoDup_fmap_eq {A B} (f : A → B) (l : list A) x y :
  NoDup (f <$> l) → x ∈ l → y ∈ l → f x = f y → x = y.
Proof.
  induction l as [|z l IH]; [by intros _ ?%elem_of_nil|].
  rewrite fmap_cons, NoDup_cons, list_elem_of_fmap.
  intros [Hz Hl] [->|Hx]%elem_of_cons [->|Hy]%elem_of_cons Hf; eauto.
  - destruct Hz. eauto.
  - destruct Hz. eauto.
Qed.

(** Whatever the handler answers, the rows it leaves are rows it found, with
    their [id] and [order_no], or rows it inserted. *)
Lemma put_evolves store_cast today order_no body s resp s' :
  put_orders_by_number store_cast today order_no body s = (resp, s') →
  evolves (rows s) (next_id s) (rows s') (next_id s').
Proof.
  intros Hput.
  destruct (all_space order_no) eqn:Ho.
  { destruct (put_guarded store_cast today order_no body s) as [? H];
      [by left|]. rewrite H in Hput. injection Hput as _ <-.
    apply evolves_refl. }
  destruct (decide (body = [])) as [->|Hb].
  { destruct (put_guarded store_cast today order_no [] s) as [? H];
      [by right|]. rewrite H in Hput. injection Hput as _ <-.
    apply evolves_refl. }
  rewrite put_run in Hput by done.
  destruct (phases store_cast today order_no (allItems body)
              (query_begin (connect s)).2) as [r c] eqn:Hp.
  apply (satisfies_elim _ _ _ _ _ _ _ (evolves_phases _ _ _ _ _ _ _))
    in Hp as (t' & n' & -> & Hev).
  destruct r as [[]|e]; injection Hput as _ <-; simpl; [done|].
  destruct Hev as [Hn _]. split; [done|]. intros r Hr. left. eauto.
Qed.

(** X2: every reconciliation request keeps the primary key: ids present,
    unique and below the id sequence. *)
Lemma put_keeps_wf store_cast today order_no body s resp s' :
  wf_store s →
  put_orders_by_number store_cast today order_no body s = (resp, s') →
  wf_store s'.
Proof.
  intros Hwf Hput.
  destruct (all_space order_no) eqn:Ho.
  { destruct (put_guarded store_cast today order_no body s) as [? H];
      [by left|]. rewrite H in Hput. by injection Hput as _ <-. }
  destruct (decide (body = [])) as [->|Hb].
  { destruct (put_guarded store_cast today order_no [] s) as [? H];
      [by right|]. rewrite H in Hput. by injection Hput as _ <-. }
  rewrite put_run in Hput by done.
  destruct (phases store_cast today order_no (allItems body)
              (query_begin (connect s)).2) as [r c] eqn:Hp.
  pose proof Hp as Hp'.
  apply (satisfies_elim _ _ _ _ _ _ _ (wf_kept_phases _ _ _ _ _ _ _))
    in Hp as (t' & n' & -> & Hkept).
  apply (satisfies_elim _ _ _ _ _ _ _ (evolves_phases _ _ _ _ _ _ _))
    in Hp' as (t'' & n'' & Heq & [Hn _]).
  injection Heq as _ <-.
  destruct r as [[]|e]; injection Hput as _ <-.
  - by apply Hkept.
  - destruct Hwf as [Hnodup Hids]. split; [done|]. simpl.
    intros r Hr. destruct (Hids r Hr) as (i & Hi & Hlt).
    exists i. split; [done|]. simpl in Hn. lia.
Qed.

(** C9: no reconciliation changes the order number of an existing row: a
    stored row that is still there after the request, under its id, has the
    order number it had before. *)
Theorem order_no_never_changes store_cast today order_no body s resp s' r r' :
  wf_store s →
  put_orders_by_number store_cast today order_no body s = (resp, s') →
  r ∈ rows s → r' ∈ rows s' → r' !! "id" = r !! "id" →
  r' !! "order_no" = r !! "order_no".
Proof.
  intros [Hnodup Hids] [_ Hev]%put_evolves Hr Hr' Hid.
  destruct (Hev r' Hr') as [(r0 & Hr0 & Hk)|(i & Hi & Hnew)].
  - injection Hk as Hk1 Hk2. rewrite Hk2. f_equal.
    apply (NoDup_fmap_eq (λ r, r !! "id") (rows s)); [done..|congruence].
  - destruct (Hids r Hr) as (j & Hj & Hlt). rewrite Hid, Hj in Hnew.
    simplify_eq. lia.
Qed.

Lemma example_store_wf : wf_store example_store.
Proof.
  split.
  - apply (bool_decide_unpack _). by vm_compute.
  - intros r [->|[->|[]%elem_of_nil]%elem_of_cons]%elem_of_cons;
      eexists; (split; [reflexivity|done]).
Qed.

Lemma order_no_never_changes_witness :
  let out := put_orders_by_number accept_all "2024-06-05" "A" example_batch
               example_store in
  wf_store example_store ∧
  ∀ r', r' ∈ rows out.2 → r' !! "id" = row_1 !! "id" →
        r' !! "order_no" = row_1 !! "order_no".
Proof.
  intros out. split; [exact example_store_wf|]. intros r' Hr' Hid.
  refine (order_no_never_changes accept_all "2024-06-05" "A" example_batch
            example_store out.1 out.2 row_1 r' example_store_wf
            (surjective_pairing out) _ Hr' Hid).
  by left.
Defined.

(** ** Ownership checks *)

Lemma not_owned_stays order_no t n t' n' i :
  stays t n t' n' → ¬ owned order_no t i → ¬ owned order_no t' i.
Proof.
  intros [_ Hst] Hno (r' & Hr' & Hid & Ho). apply Hno.
  destruct (Hst r' Hr') as (r & Hr & Hk). injection Hk as Hk1 Hk2.
  exists r. unfold id_is, order_no_is in *. split; [done|]. split; congruence.
Qed.

(** No element passes the filter. *)
Lemma filter_none {A} (P : A → Prop) `{!∀ x, Decision (P x)} (l : list A) :
  (∀ x, x ∈ l → ¬ P x) → filter P l = [].
Proof.
  induction l as [|x l IH]; intros Hl; [done|].
  rewrite filter_cons, decide_False by (apply Hl; left).
  apply IH. intros y Hy. apply Hl. by right.
Qed.

Section Ownership.
Variable store_cast : string → value → option value.
Implicit Types (t : list (gmap string value)).

(** The check of the update loop throws on an id the order does not own. *)
Lemma update_one_rejects order_no update k t n :
  ¬ owned order_no t (sort_key update) →
  satisfies (update_one store_cast true order_no update) k t n
    (λ r _ n', n' = n ∧ ∃ e, r = Throw e).
Proof.
  intros Hno. unfold update_one. cbv zeta.
  apply satisfies_bind, satisfies_bind, satisfies_select.
  destruct (filter _ t) as [|r rest] eqn:Hf.
  { apply satisfies_throw. eauto. }
  assert (id_is (sort_key update) r ∧ r ∈ t) as [Hid Hr].
  { apply (list_elem_of_filter (id_is (sort_key update))).
    rewrite Hf. by left. }
  case_decide as Ho; [apply satisfies_throw; eauto|].
  destruct Hno. exists r. split; [done|]. split; [done|].
  unfold order_no_is. by destruct (decide (r !! "order_no" = Some (VStr order_no))).
Qed.

Lemma update_phase_rejects order_no it toUpdate : ∀ k t n,
  it ∈ toUpdate → ¬ owned order_no t (sort_key it) →
  satisfies (update_phase store_cast true order_no toUpdate) k t n
    (λ r _ n', n' = n ∧ ∃ e, r = Throw e).
Proof.
  induction toUpdate as [|u l IH]; intros k t n Hin Hno.
  { by apply elem_of_nil in Hin. }
  simpl. apply satisfies_bind.
  apply elem_of_cons in Hin as [<-|Hin].
  - eapply satisfies_mono; [by apply update_one_rejects|].
    intros r t' n' [-> [e ->]]. eauto.
  - eapply satisfies_mono.
    { exact (rowwise_update_one store_cast stays stays_refl stays_trans
               (@stays_set) true order_no u k t n). }
    intros [[]|e] t' n' Hst; [|destruct Hst as [-> _]; eauto].
    pose proof Hst as [-> _].
    apply IH; [done|]. eauto using not_owned_stays.
Qed.

(** The verification of the delete phase counts fewer rows than ids when
    the order does not own one of the ids. *)
Lemma verify_count order_no t (ids : list Z) i :
  NoDup ((λ r, r !! "id") <$> t) →
  i ∈ ids → ¬ owned order_no t i →
  length (filter (λ r, id_in ids r ∧ order_no_is order_no r) t)
  ≠ length ids.
Proof.
  intros Hnodup Hi Hno.
  set (found := filter _ t).
  assert (Hfound : ∀ r, r ∈ found →
            r ∈ t ∧ order_no_is order_no r ∧
            ∃ j, j ∈ ids ∧ r !! "id" = Some (VNum j) ∧ row_id r = j).
  { intros r [[(j & Hj & Hid) Ho] Hr]%list_elem_of_filter.
    split; [done|]. split; [done|]. exists j. split; [done|].
    split; [done|]. unfold row_id. by rewrite Hid. }
  assert (NoDup (i :: (row_id <$> found))) as Hnd.
  { apply NoDup_cons. split.
    - intros (r & -> & Hr)%list_elem_of_fmap.
      destruct (Hfound r Hr) as (Ht & Ho & j & _ & Hid & Hrow).
      apply Hno. exists r. split; [done|]. split; [|done].
      unfold id_is. by rewrite Hid, Hrow.
    - apply NoDup_fmap_2_strong.
      + intros x y Hx Hy Hxy.
        destruct (Hfound x Hx) as (Htx & _ & jx & _ & Hidx & Hrx).
        destruct (Hfound y Hy) as (Hty & _ & jy & _ & Hidy & Hry).
        apply (NoDup_fmap_eq (λ r, r !! "id") t); [done..|congruence].
      + apply NoDup_filter. by apply NoDup_fmap_1 in Hnodup. }
  assert (Hsub : i :: (row_id <$> found) ⊆+ ids).
  { apply NoDup_submseteq; [done|].
    intros j [->|(r & -> & Hr)%list_elem_of_fmap]%elem_of_cons; [done|].
    destruct (Hfound r Hr) as (_ & _ & j & Hj & _ & <-). done. }
  apply submseteq_length in Hsub. simpl in Hsub.
  rewrite length_fmap in Hsub. lia.
Qed.

Lemma delete_phase_rejects order_no it toDelete k t n :
  NoDup ((λ r, r !! "id") <$> t) →
  it ∈ toDelete → ¬ owned order_no t (sort_key it) →
  satisfies (delete_phase true order_no toDelete) k t n
    (λ r t' n', t' = t ∧ n' = n ∧ ∃ e, r = Throw e).
Proof.
  intros Hnodup Hin Hno. unfold delete_phase. cbv zeta.
  assert ((0 <? length toDelete)%nat = true) as ->.
  { apply Nat.ltb_lt. destruct toDelete; [by apply elem_of_nil in Hin|].
    simpl. lia. }
  apply satisfies_bind, satisfies_bind, satisfies_select.
  rewrite decide_True; [apply satisfies_throw; eauto|].
  apply verify_count with (i := sort_key it); [done| |done].
  apply list_elem_of_fmap. eauto.
Qed.

(** An order without rows stays without rows while nothing is inserted. *)
Lemma no_rows_stays order_no t n t' n' :
  stays t n t' n' →
  (∀ r, r ∈ t → ¬ order_no_is order_no r) →
  ∀ r', r' ∈ t' → ¬ order_no_is order_no r'.
Proof.
  intros [_ Hst] Hnone r' Hr' Ho.
  destruct (Hst r' Hr') as (r & Hr & [= _ Hk]).
  apply (Hnone r Hr). unfold order_no_is in *. congruence.
Qed.

(** In an order without rows the ownership check is skipped, and the
    [UPDATE] of a descriptor that names an allowlisted field finds no row. *)
Lemma update_one_unfound order_no update k t n :
  (∀ r, r ∈ t → ¬ order_no_is order_no r) →
  filteredFields (fields update) ≠ ∅ →
  satisfies (update_one store_cast false order_no update) k t n
    (λ r _ n', n' = n ∧ ∃ e, r = Throw e).
Proof.
  intros Hnone Hne. unfold update_one. cbv zeta.
  apply satisfies_bind, satisfies_ret.
  rewrite decide_False by exact Hne.
  apply satisfies_bind, satisfies_update.
  destruct (cast_all store_cast _) as [stored|e]; [|eauto].
  rewrite filter_none; [apply satisfies_throw; eauto|].
  intros r Hr [_ Ho]. by apply (Hnone r Hr).
Qed.

Lemma update_phase_unfound order_no it toUpdate : ∀ k t n,
  (∀ r, r ∈ t → ¬ order_no_is order_no r) →
  it ∈ toUpdate → filteredFields (fields it) ≠ ∅ →
  satisfies (update_phase store_cast false order_no toUpdate) k t n
    (λ r _ n', n' = n ∧ ∃ e, r = Throw e).
Proof.
  induction toUpdate as [|u l IH]; intros k t n Hnone Hin Hne.
  { by apply elem_of_nil in Hin. }
  simpl. apply satisfies_bind.
  apply elem_of_cons in Hin as [<-|Hin].
  - eapply satisfies_mono; [by apply update_one_unfound|].
    intros r t' n' [-> [e ->]]. eauto.
  - eapply satisfies_mono.
    { exact (rowwise_update_one store_cast stays stays_refl stays_trans
               (@stays_set) false order_no u k t n). }
    intros [[]|e] t' n' Hst; [|destruct Hst as [-> _]; eauto].
    pose proof Hst as [-> _].
    apply IH; [|done..]. eauto using no_rows_stays.
Qed.

(** A descriptor whose id the order does not own makes the phases throw,
    when the order has rows or the descriptor is an update that names an
    allowlisted field; for a deletion the throw comes before any statement
    has changed the working table. *)
Lemma phases_reject today order_no all it k t n :
  NoDup ((λ r, r !! "id") <$> t) →
  it ∈ all → has_id it = true → ¬ owned order_no t (sort_key it) →
  (∃ r, r ∈ t ∧ order_no_is order_no r)
  ∨ (is_deleted it = false ∧ filteredFields (fields it) ≠ ∅) →
  satisfies (phases store_cast today order_no all) k t n
    (λ r t' n', n' = n ∧ (∃ e, r = Throw e)
                ∧ (is_deleted it = true → t' = t)).
Proof.
  intros Hnodup Hin Hid Hno Hcase. unfold phases.
  apply satisfies_bind, satisfies_select. cbv zeta.
  destruct (filter (order_no_is order_no) t) as [|r0 found] eqn:Hfound.
  - (* the order has no row *)
    assert (Hnone : ∀ r, r ∈ t → ¬ order_no_is order_no r).
    { intros r Hr Ho.
      assert (r ∈ filter (order_no_is order_no) t) as Hf
        by by apply list_elem_of_filter.
      rewrite Hfound in Hf. by apply elem_of_nil in Hf. }
    destruct Hcase as [(r & Hr & Ho)|[Hdel Hne]]; [by destruct (Hnone r Hr)|].
    assert (Hupd : is_deleted it = true → False) by (rewrite Hdel; done).
    cbn [length Nat.ltb Nat.leb negb andb].
    destruct (length (itemsToInsert all) =? 0)%nat.
    { apply satisfies_throw. split; [done|]. split; [eauto|].
      intros H. by destruct (Hupd H). }
    apply satisfies_bind. eapply satisfies_mono.
    { exact (rowwise_delete_phase stays stays_refl stays_trans
               (@stays_filter) false order_no _ k t n). }
    intros [[]|e] t' n' Hst;
      [|destruct Hst as [-> _]; split; [done|]; split; [eauto|];
        intros H; by destruct (Hupd H)].
    pose proof Hst as [-> _].
    apply satisfies_bind. eapply satisfies_mono.
    { apply (update_phase_unfound order_no it).
      - eauto using no_rows_stays.
      - unfold itemsToUpdate. apply list_elem_of_filter.
        by rewrite Hdel, Hid.
      - exact Hne. }
    intros r t'' n'' [-> [e ->]]. split; [done|]. split; [eauto|].
    intros H. by destruct (Hupd H).
  - (* the order has rows *)
    cbn [length Nat.ltb Nat.leb negb andb].
    apply satisfies_bind.
    destruct (is_deleted it) eqn:Hdel.
    + eapply satisfies_mono.
      { apply (delete_phase_rejects order_no it); [done| |done].
        unfold itemsToDelete. apply list_elem_of_filter.
        by rewrite Hdel, Hid. }
      intros r t' n' (-> & -> & e & ->). eauto.
    + eapply satisfies_mono.
      { exact (rowwise_delete_phase stays stays_refl stays_trans
                 (@stays_filter) true order_no _ k t n). }
      intros [[]|e] t' n' Hst;
        [|destruct Hst as [-> _]; split; [done|]; split; [eauto|done]].
      pose proof Hst as [-> _].
      apply satisfies_bind. eapply satisfies_mono.
      { apply (update_phase_rejects order_no it).
        - unfold itemsToUpdate. apply list_elem_of_filter.
          by rewrite Hdel, Hid.
        - eauto using not_owned_stays. }
      intros r t'' n'' [-> [e ->]]. split; [done|]. split; [eauto|done].
Qed.
End Ownership.

(** C3, as stated, fails in three ways.  Order [C] has no stored row, and
    the batch [[{item_code: "X"}, {id: 5, _deleted: true}]] refers to row 5,
    which belongs to order [B]; yet the batch commits and the store changes.
    So does [[{item_code: "X"}, {id: 5}]], whose update descriptor names no
    allowlisted field.  And order [A] owns row 1 but not row 5: for
    [[{id: 1, quantity: 3}, {id: 5, quantity: 3}]] the check of id 5 throws
    when row 1 has already been updated in the working table. *)
Lemma ownership_counterexample :
  let deleting := [Item None None {[ "item_code" := VStr "X" ]};
                   Item (Some 5) (Some (VBool true)) ∅] in
  let updating := [Item None None {[ "item_code" := VStr "X" ]};
                   Item (Some 5) None ∅] in
  let out1 := put_orders_by_number accept_all "2024-06-05" "C" deleting
                example_store in
  let out2 := put_orders_by_number accept_all "2024-06-05" "C" updating
                example_store in
  let run := phases accept_all "2024-06-05" "A" (allItems foreign_batch)
               (query_begin (connect example_store)).2 in
  ¬ owned "C" (rows example_store) 5 ∧
  (is_success out1.1 = true ∧ length (rows out1.2) = 3%nat) ∧
  (is_success out2.1 = true ∧ length (rows out2.2) = 3%nat) ∧
  ¬ owned "A" (rows example_store) 5 ∧
  run.1 = Throw (ItemBelongsTo 5 (Some (VStr "B")) "A") ∧
  visible run.2 ≠ rows example_store.
Proof.
  assert (Hno : ∀ o, o ≠ "B" → ¬ owned o (rows example_store) 5).
  { intros o Hneq (r & Hr & Hi & Ho).
    apply elem_of_cons in Hr as [->|Hr]; [discriminate Hi|].
    apply elem_of_cons in Hr as [->|Hr];
      [|by apply elem_of_nil in Hr].
    apply Hneq. unfold order_no_is in Ho. vm_compute in Ho. congruence. }
  split; [by apply Hno|].
  split; [split; vm_compute; reflexivity|].
  split; [split; vm_compute; reflexivity|].
  split; [by apply Hno|].
  split; [vm_compute; reflexivity|].
  intros H.
  apply (f_equal (λ t, t !! 0%nat ≫= (.!! "quantity"))) in H.
  vm_compute in H. discriminate H.
Qed.

(** C3, amended: in a store with unique ids, a batch that refers, in an
    update or delete descriptor, to an id that is missing or belongs to
    another order fails and leaves the store as it was, when the requested
    order already has a stored row, or when the descriptor is an update that
    names a field of the allowlist.  Past the guard on the order number the
    failure is a throw of the phases: the transaction is not committed, the
    connection is handed back as it was taken, and the ids of the deletions
    are verified before any statement has changed the working table. *)
Theorem ownership_checked store_cast today order_no body s it :
  wf_store s →
  it ∈ body → has_id it = true →
  ¬ owned order_no (rows s) (sort_key it) →
  (∃ r, r ∈ rows s ∧ order_no_is order_no r)
  ∨ (is_deleted it = false ∧ filteredFields (fields it) ≠ ∅) →
  (∃ resp, put_orders_by_number store_cast today order_no body s = (resp, s)
           ∧ is_success resp = false) ∧
  (all_space order_no = false →
   ∃ e c,
     phases store_cast today order_no (allItems body)
       (query_begin (connect s)).2 = (Throw e, c) ∧
     (is_deleted it = true → visible c = rows s) ∧
     put_try_catch store_cast today order_no (allItems body) (connect s)
     = (Json500 e, connect s) ∧
     put_orders_by_number store_cast today order_no body s
     = (Json500 e, s)).
Proof.
  intros [Hnodup _] Hin Hid Hno Hcase.
  assert (body ≠ []) as Hb by (intros ->; by apply elem_of_nil in Hin).
  assert (Hmain : all_space order_no = false →
    ∃ e c,
      phases store_cast today order_no (allItems body)
        (query_begin (connect s)).2 = (Throw e, c) ∧
      (is_deleted it = true → visible c = rows s) ∧
      put_try_catch store_cast today order_no (allItems body) (connect s)
      = (Json500 e, connect s) ∧
      put_orders_by_number store_cast today order_no body s
      = (Json500 e, s)).
  { intros Ho.
    destruct (phases store_cast today order_no (allItems body)
                (query_begin (connect s)).2) as [r c] eqn:Hp.
    pose proof Hp as Hp'.
    apply (satisfies_elim _ _ _ _ _ _ _
             (phases_reject store_cast today order_no (allItems body) it
                _ _ _ Hnodup (proj2 (elem_of_allItems _ _) Hin) Hid Hno
                Hcase))
      in Hp' as (t' & n' & -> & -> & [e ->] & Hdel).
    exists e, (in_tx (rows s) t' (next_id s)).
    split; [reflexivity|]. split; [exact Hdel|].
    split.
    - by rewrite (proj2 (put_try_catch_throw _ _ _ _ _ _ _ Hp)).
    - rewrite (put_throw _ _ _ _ _ _ _ Ho Hb Hp). by destruct s. }
  split; [|exact Hmain].
  destruct (all_space order_no) eqn:Ho.
  - destruct (put_guarded store_cast today order_no body s) as [msg Hput];
      [by left|].
    exists (Json400 msg). by rewrite Hput.
  - destruct (Hmain eq_refl) as (e & c & _ & _ & _ & Hput).
    exists (Json500 e). by rewrite Hput.
Qed.

Lemma ownership_checked_witness :
  (∃ resp, put_orders_by_number accept_all "2024-06-05" "A" foreign_batch
             example_store = (resp, example_store)
           ∧ is_success resp = false) ∧
  (∃ resp, put_orders_by_number accept_all "2024-06-05" "C" example_batch
             example_store = (resp, example_store)
           ∧ is_success resp = false).
Proof.
  assert (Hno : ∀ o i, (o, i) ≠ ("A", 1) → (o, i) ≠ ("B", 5) →
                       ¬ owned o (rows example_store) i).
  { intros o i H1 H5 (r & Hr & Hi & Ho).
    unfold id_is, order_no_is in *.
    apply elem_of_cons in Hr as [->|Hr].
    { apply H1. vm_compute in Hi, Ho. congruence. }
    apply elem_of_cons in Hr as [->|Hr]; [|by apply elem_of_nil in Hr].
    apply H5. vm_compute in Hi, Ho. congruence. }
  split.
  - apply (ownership_checked accept_all "2024-06-05" "A" foreign_batch
             example_store (Item (Some 5) None {[ "quantity" := VNum 3 ]})
             example_store_wf).
    + right. left.
    + reflexivity.
    + apply Hno; discriminate.
    + left. exists row_1. split; [by left|reflexivity].
  - apply (ownership_checked accept_all "2024-06-05" "C" example_batch
             example_store (Item (Some 1) None {[ "quantity" := VNum 3 ]})
             example_store_wf).
    + right. left.
    + reflexivity.
    + apply Hno; discriminate.
    + right. split; [reflexivity|].
      intros Hempty.
      apply (f_equal (λ m : gmap string value, m !! "quantity")) in Hempty.
      vm_compute in Hempty. discriminate Hempty.
Defined.

(** ** Flagged descriptors without an id *)

Lemma filter_allItems_without (P : item → Prop) `{!∀ it, Decision (P it)}
    (l1 : list item) d (l2 : list item) :
  ¬ P d →
  filter P (allItems (l1 ++ d :: l2)) = filter P (allItems (l1 ++ l2)).
Proof.
  intros Hd. unfold allItems. rewrite !filter_js_sort. f_equal.
  rewrite !filter_app, filter_cons. by rewrite decide_False.
Qed.

Section Ignored.
Variable store_cast : string → value → option value.

Lemma try_block_without today order_no (l1 : list item) d
    (l2 : list item) :
  is_deleted d = true → has_id d = false →
  try_block store_cast today order_no (allItems (l1 ++ d :: l2))
  = try_block store_cast today order_no (allItems (l1 ++ l2)).
Proof.
  intros Hdel Hid.
  unfold try_block, phases, commonOrderDetails, validItems,
    itemsToInsert, itemsToUpdate, itemsToDelete.
  rewrite !(filter_allItems_without _ l1 d l2); [done|..];
    rewrite Hdel, ?Hid; simpl; congruence.
Qed.
End Ignored.

(** C10, as stated, fails: a batch made of one flagged descriptor without id
    is not handled as the empty batch.  The empty batch is answered 400 and
    changes nothing; the batch [[{_deleted: true}]], sent for the existing
    order [A], commits and resets the header of row 1 to the defaults. *)
Lemma flagged_without_id_counterexample :
  let d := Item None (Some (VBool true)) ∅ in
  let with_d := put_orders_by_number accept_all "2024-06-05" "A" [d]
                  example_store in
  let without := put_orders_by_number accept_all "2024-06-05" "A" []
                   example_store in
  is_deleted d = true ∧ has_id d = false ∧
  without = (Json400 "No data provided", example_store) ∧
  is_success with_d.1 = true ∧
  rows with_d.2 !! 0%nat ≫= (.!! "status") = Some (VStr "pending") ∧
  row_1 !! "status" = Some (VStr "open") ∧
  with_d ≠ without.
Proof.
  repeat split; try reflexivity; try (vm_compute; reflexivity).
  intros H. apply (f_equal (λ x, is_success x.1)) in H.
  vm_compute in H. discriminate H.
Qed.

(** C10, amended: a descriptor that carries the deletion flag but no
    persisted id is in none of the three differ sets and is no candidate for
    the header source; when the batch holds at least one other descriptor,
    the request is handled, in its response and in its effect on the store,
    exactly as if that descriptor were absent. *)
Theorem flagged_without_id_ignored store_cast today order_no
    (l1 : list item) (d : item) (l2 : list item) s :
  is_deleted d = true → has_id d = false → l1 ++ l2 ≠ [] →
  let all := allItems (l1 ++ d :: l2) in
  (d ∉ itemsToInsert all) ∧ (d ∉ itemsToUpdate all) ∧
  (d ∉ itemsToDelete all) ∧ (d ∉ validItems all) ∧
  put_orders_by_number store_cast today order_no (l1 ++ d :: l2) s
  = put_orders_by_number store_cast today order_no (l1 ++ l2) s.
Proof.
  intros Hdel Hid Hne all.
  unfold itemsToInsert, itemsToUpdate, itemsToDelete, validItems.
  rewrite !list_elem_of_filter, Hdel, Hid.
  repeat (split; [simpl; intuition congruence|]).
  unfold put_orders_by_number, put_try_catch.
  rewrite try_block_without by done.
  unfold allItems. rewrite !length_js_sort.
  destruct (all_space order_no); [done|].
  assert ((length (l1 ++ l2) =? 0)%nat = false) as ->.
  { apply Nat.eqb_neq. by destruct (l1 ++ l2). }
  assert ((length (l1 ++ d :: l2) =? 0)%nat = false) as ->.
  { apply Nat.eqb_neq. rewrite length_app. simpl. lia. }
  done.
Qed.

Lemma flagged_without_id_ignored_witness :
  put_orders_by_number accept_all "2024-06-05" "A"
    ([Item None None {[ "item_code" := VStr "X" ]}]
     ++ Item None (Some (VBool true)) ∅
     :: [Item (Some 1) None {[ "quantity" := VNum 3 ]}]) example_store
  = put_orders_by_number accept_all "2024-06-05" "A"
      ([Item None None {[ "item_code" := VStr "X" ]}]
       ++ [Item (Some 1) None {[ "quantity" := VNum 3 ]}]) example_store.
Proof.
  apply (flagged_without_id_ignored accept_all "2024-06-05" "A"
           [Item None None {[ "item_code" := VStr "X" ]}]
           (Item None (Some (VBool true)) ∅)
           [Item (Some 1) None {[ "quantity" := VNum 3 ]}] example_store);
    [reflexivity | reflexivity | discriminate].
Defined.

(** ** Resubmitting an update batch *)

Lemma key_pred_id_is i : key_pred (id_is i).
Proof. intros r r' [= H1 H2]. unfold id_is. by rewrite H1. Qed.

Lemma key_pred_order_no_is o : key_pred (order_no_is o).
Proof. intros r r' [= H1 H2]. unfold order_no_is. by rewrite H2. Qed.

Lemma key_pred_and p q : key_pred p → key_pred q → key_pred (λ r, p r ∧ q r).
Proof. intros Hp Hq r r' Hk. by rewrite (Hp r r' Hk), (Hq r r' Hk). Qed.

Lemma filter_same_keys p `{!∀ r, Decision (p r)}
    (t : list (gmap string value)) : ∀ t2,
  key_pred p → keys <$> t2 = keys <$> t →
  keys <$> filter p t2 = keys <$> filter p t.
Proof.
  induction t as [|r t IH]; intros [|r2 t2] Hp Hk; try done.
  rewrite !fmap_cons in Hk.
  assert (Hr : keys r2 = keys r) by congruence.
  assert (Ht : keys <$> t2 = keys <$> t) by congruence.
  clear Hk. rewrite !filter_cons.
  destruct (decide (p r2)) as [H2|H2], (decide (p r)) as [H1|H1].
  - rewrite !fmap_cons. f_equal; [done|]. by apply IH.
  - destruct H1. by apply (Hp r2 r).
  - destruct H2. by apply (Hp r2 r).
  - by apply IH.
Qed.

Lemma fmap_same (l : list (gmap string value)) : (λ r, r) <$> l = l.
Proof. apply list_fmap_id. Qed.

Lemma key_update_id : key_update (λ r, r).
Proof.
  intros r. exists ∅. split; [done|]. split; [done|].
  intros r' _. by rewrite (left_id_L ∅ (∪)).
Qed.

Lemma key_update_keys G r : key_update G → keys (G r) = keys r.
Proof.
  intros HG. destruct (HG r) as (U & H1 & H2 & HU).
  rewrite (HU r eq_refl). by apply keys_union.
Qed.

Lemma key_update_same_keys G (t t2 : list (gmap string value)) :
  key_update G → keys <$> t2 = keys <$> t →
  keys <$> (G <$> t2) = keys <$> (G <$> t).
Proof.
  intros HG Hk. rewrite <- !list_fmap_compose.
  rewrite !(list_fmap_ext (keys ∘ G) keys) by
    (intros; by apply key_update_keys).
  done.
Qed.

Lemma key_update_compose G1 G2 :
  key_update G1 → key_update G2 → key_update (G2 ∘ G1).
Proof.
  intros H1 H2 r.
  destruct (H1 r) as (U1 & Hi1 & Ho1 & HU1).
  destruct (H2 (G1 r)) as (U2 & Hi2 & Ho2 & HU2).
  exists (U2 ∪ U1). split; [by apply lookup_union_None_2|].
  split; [by apply lookup_union_None_2|].
  intros r' Hk. simpl. rewrite (HU1 r' Hk).
  rewrite HU2.
  - by rewrite (assoc_L (∪)).
  - rewrite keys_union by done. rewrite Hk. symmetry.
    by apply key_update_keys.
Qed.

Lemma key_update_set_where p `{!∀ r, Decision (p r)}
    (stored : gmap string value) :
  key_pred p → stored !! "id" = None → stored !! "order_no" = None →
  key_update (set_where p stored).
Proof.
  intros Hp H1 H2 r. unfold set_where. destruct (decide (p r)) as [Hr|Hr].
  - exists stored. split; [done|]. split; [done|]. intros r' Hk.
    rewrite decide_True; [done|]. by apply (Hp r' r).
  - exists ∅. split; [done|]. split; [done|]. intros r' Hk.
    rewrite decide_False; [by rewrite (left_id_L ∅ (∪))|].
    intros Hr'. apply Hr. by apply (Hp r' r).
Qed.

(** Broadcasting after the updates, twice, is broadcasting after the updates
    once. *)
Lemma broadcast_update_idem order_no (stored : gmap string value) G r :
  key_update G →
  stored !! "id" = None → stored !! "order_no" = None →
  let B := set_where (order_no_is order_no) stored in
  B (G (B (G r))) = B (G r).
Proof.
  intros HG H1 H2 B.
  destruct (HG r) as (U & Hi & Ho & HU).
  assert (HB : ∀ x, keys (B x) = keys x)
    by (intros; by apply keys_set_where).
  rewrite (HU r eq_refl).
  rewrite (HU (B (U ∪ r))) by (rewrite HB; by apply keys_union).
  assert (Hiff : order_no_is order_no (U ∪ B (U ∪ r))
                 ↔ order_no_is order_no (U ∪ r)).
  { apply key_pred_order_no_is. rewrite keys_union by done. apply HB. }
  unfold B, set_where in *.
  destruct (decide (order_no_is order_no (U ∪ r))) as [Hor|Hor].
  - rewrite decide_True by tauto.
    apply map_eq. intros c. rewrite !lookup_union.
    by destruct (stored !! c), (U !! c), (r !! c).
  - rewrite decide_False by tauto.
    apply map_eq. intros c. rewrite !lookup_union.
    by destruct (U !! c), (r !! c).
Qed.

Lemma run_bind {A B} (m : M A) (f : A → M B) c :
  (m ≫= f) c = match m c with
               | (Ok a, c') => f a c'
               | (Throw e, c') => (Throw e, c')
               end.
Proof. reflexivity. Qed.

Lemma run_select p `{!∀ r, Decision (p r)} k t n :
  sql_select p (in_tx k t n) = (Ok (filter p t), in_tx k t n).
Proof. reflexivity. Qed.

Section Resubmit.
Variable store_cast : string → value → option value.
Implicit Types (t u : list (gmap string value)).

Lemma update_one_sim order_no update k t n k' u m :
  keys <$> u = keys <$> t →
  (∃ e c c',
      update_one store_cast true order_no update (in_tx k t n)
      = (Throw e, c) ∧ seq c = n ∧
      update_one store_cast true order_no update (in_tx k' u m)
      = (Throw e, c') ∧ seq c' = m) ∨
  (∃ G, key_update G ∧
      update_one store_cast true order_no update (in_tx k t n)
      = (Ok (), in_tx k (G <$> t) n) ∧
      update_one store_cast true order_no update (in_tx k' u m)
      = (Ok (), in_tx k' (G <$> u) m)).
Proof.
  intros Hk.
  unfold update_one, sql_update, sql_select, cast_params.
  unfold mbind, M_bind, mret, M_ret, throw, get_visible, put_visible.
  cbn [visible tx in_tx write committed seq].
  set (i := sort_key update).
  pose proof (filter_same_keys (id_is i) t u (key_pred_id_is i) Hk) as Hf.
  destruct (filter (id_is i) t) as [|r rest],
           (filter (id_is i) u) as [|r2 rest2]; try discriminate Hf.
  { left. eexists _, _, _. repeat split; reflexivity. }
  rewrite !fmap_cons in Hf.
  assert (r2 !! "order_no" = r !! "order_no") as Ho
    by (unfold keys in Hf; congruence).
  clear Hf.
  destruct (decide (r !! "order_no" ≠ Some (VStr order_no))) as [H1|H1],
    (decide (r2 !! "order_no" ≠ Some (VStr order_no))) as [H2|H2].
  { left. eexists _, _, _. rewrite Ho. repeat split; reflexivity. }
  { destruct H2. congruence. }
  { destruct H1. congruence. }
  case_decide.
  { right. exists (λ r, r). split; [apply key_update_id|].
    rewrite !fmap_same. split; reflexivity. }
  destruct (cast_all store_cast _) as [stored|e] eqn:Hcast;
    [|left; eexists _, _, _; repeat split; reflexivity].
  cbn [visible tx in_tx write committed seq].
  set (p := λ r0, id_is i r0 ∧ order_no_is order_no r0).
  assert (Hp : key_pred p).
  { apply key_pred_and; [apply key_pred_id_is|apply key_pred_order_no_is]. }
  assert (length (filter p u) = length (filter p t)) as ->.
  { rewrite <- (length_fmap keys (filter p u)),
      <- (length_fmap keys (filter p t)).
    f_equal. by apply filter_same_keys. }
  case_decide; [left; eexists _, _, _; repeat split; reflexivity|].
  right. exists (set_where p stored). split; [|split; reflexivity].
  apply key_update_set_where; [done|..];
    eapply cast_all_lookup_None; eauto; apply filteredFields_keys.
Qed.

Lemma update_phase_sim order_no toUpdate : ∀ k t n k' u m,
  keys <$> u = keys <$> t →
  (∃ e c c',
      update_phase store_cast true order_no toUpdate (in_tx k t n)
      = (Throw e, c) ∧ seq c = n ∧
      update_phase store_cast true order_no toUpdate (in_tx k' u m)
      = (Throw e, c') ∧ seq c' = m) ∨
  (∃ G, key_update G ∧
      update_phase store_cast true order_no toUpdate (in_tx k t n)
      = (Ok (), in_tx k (G <$> t) n) ∧
      update_phase store_cast true order_no toUpdate (in_tx k' u m)
      = (Ok (), in_tx k' (G <$> u) m)).
Proof.
  induction toUpdate as [|x l IH]; intros k t n k' u m Hk.
  { right. exists (λ r, r). split; [apply key_update_id|].
    rewrite !fmap_same. split; reflexivity. }
  cbn [update_phase]. unfold mbind, M_bind.
  destruct (update_one_sim order_no x k t n k' u m Hk)
    as [(e & c & c' & -> & Hn & -> & Hm)|(G1 & HG1 & -> & ->)].
  { left. eexists _, _, _. repeat split; first [reflexivity|assumption]. }
  destruct (IH k (G1 <$> t) n k' (G1 <$> u) m
              (key_update_same_keys G1 t u HG1 Hk))
    as [(e & c & c' & -> & Hn & -> & Hm)|(G2 & HG2 & -> & ->)].
  { left. eexists _, _, _. repeat split; first [reflexivity|assumption]. }
  right. exists (G2 ∘ G1). split; [by apply key_update_compose|].
  rewrite !list_fmap_compose. split; reflexivity.
Qed.

(** The phases for a batch of updates only. *)
Lemma phases_updates_run today order_no all k t n :
  itemsToInsert all = [] → itemsToDelete all = [] →
  phases store_cast today order_no all (in_tx k t n)
  = if (0 <? length (filter (order_no_is order_no) t))%nat then
      match update_phase store_cast true order_no (itemsToUpdate all)
              (in_tx k t n) with
      | (Ok _, c) =>
          match cast_all store_cast
                  (commonValues (commonOrderDetails today all)) with
          | Ok stored =>
              (Ok (), write (set_where (order_no_is order_no) stored
                               <$> visible c) c)
          | Throw e => (Throw e, c)
          end
      | (Throw e, c) => (Throw e, c)
      end
    else (Throw (OrderDoesNotExist order_no), in_tx k t n).
Proof.
  intros Hins Hdel. unfold phases. rewrite Hins, Hdel.
  rewrite run_bind, run_select.
  cbn [length Nat.eqb andb].
  destruct (0 <? length (filter (order_no_is order_no) t))%nat;
    [|reflexivity].
  cbn [negb andb]. rewrite run_bind.
  change (delete_phase true order_no [] (in_tx k t n))
    with (Ok (), in_tx k t n).
  cbv beta iota. rewrite run_bind.
  destruct (update_phase _ _ _ _ _) as [[[]|e] c]; [|done].
  rewrite run_bind.
  change (insert_phase store_cast order_no (commonOrderDetails today all)
            [] c) with (Ok ([] : list Z), c).
  cbv beta iota. unfold broadcast_phase. cbn [orb].
  rewrite run_bind. unfold sql_update. rewrite run_bind.
  unfold cast_params. destruct (cast_all _ _); reflexivity.
Qed.

Lemma phases_sim today1 today2 order_no all k t n k' u m :
  itemsToInsert all = [] → itemsToDelete all = [] →
  commonOrderDetails today1 all = commonOrderDetails today2 all →
  keys <$> u = keys <$> t →
  (∃ e c c',
      phases store_cast today1 order_no all (in_tx k t n) = (Throw e, c) ∧
      seq c = n ∧
      phases store_cast today2 order_no all (in_tx k' u m) = (Throw e, c') ∧
      seq c' = m) ∨
  (∃ G stored, key_update G ∧
      stored !! "id" = None ∧ stored !! "order_no" = None ∧
      phases store_cast today1 order_no all (in_tx k t n)
      = (Ok (), in_tx k (set_where (order_no_is order_no) stored
                           <$> (G <$> t)) n) ∧
      phases store_cast today2 order_no all (in_tx k' u m)
      = (Ok (), in_tx k' (set_where (order_no_is order_no) stored
                            <$> (G <$> u)) m)).
Proof.
  intros Hins Hdel Hcommon Hk.
  rewrite !phases_updates_run, <- Hcommon by done.
  assert (length (filter (order_no_is order_no) u)
          = length (filter (order_no_is order_no) t)) as ->.
  { rewrite <- (length_fmap keys (filter _ u)),
      <- (length_fmap keys (filter _ t)).
    f_equal. apply filter_same_keys; [apply key_pred_order_no_is|done]. }
  destruct (0 <? length _)%nat.
  2:{ left. eexists _, _, _. repeat split; reflexivity. }
  destruct (update_phase_sim order_no (itemsToUpdate all) k t n k' u m Hk)
    as [(e & c & c' & -> & Hn & -> & Hm)|(G & HG & -> & ->)].
  { left. eexists _, _, _. repeat split; first [reflexivity|assumption]. }
  destruct (cast_all store_cast _) as [stored|e] eqn:Hcast.
  2:{ left. eexists _, _, _. repeat split; reflexivity. }
  right. exists G, stored. split; [done|].
  split; [|split; [|split; reflexivity]];
    eapply cast_all_lookup_None; eauto; apply commonValues_keys.
Qed.
End Resubmit.

Lemma updates_only body :
  (∀ it, it ∈ body → has_id it = true ∧ is_deleted it = false) →
  itemsToInsert (allItems body) = [] ∧ itemsToDelete (allItems body) = [].
Proof.
  intros H. split; apply filter_none; intros it Hit;
    apply (proj1 (elem_of_allItems it body)) in Hit;
    destruct (H it Hit) as [-> ->]; done.
Qed.

(** C8, as stated, fails: the default order date is the date of the request.
    Row 1 of order [A] is updated by [[{id: 1, quantity: 3}]] on 5 June and
    the same batch is sent again on 6 June: the second request changes the
    order date of the row. *)
Lemma resubmission_counterexample :
  let once := (put_orders_by_number accept_all "2024-06-05" "A" update_batch
                 example_store).2 in
  let twice := (put_orders_by_number accept_all "2024-06-06" "A" update_batch
                  once).2 in
  (∀ it, it ∈ update_batch → has_id it = true ∧ is_deleted it = false) ∧
  rows once !! 0%nat ≫= (.!! "order_date") = Some (VStr "2024-06-05") ∧
  rows twice !! 0%nat ≫= (.!! "order_date") = Some (VStr "2024-06-06") ∧
  twice ≠ once.
Proof.
  split; [|split; [|split]].
  - intros it [->|[]%elem_of_nil]%elem_of_cons. done.
  - vm_compute; reflexivity.
  - vm_compute; reflexivity.
  - intros H.
    apply (f_equal (λ s, rows s !! 0%nat ≫= (.!! "order_date"))) in H.
    vm_compute in H. discriminate H.
Qed.

(** C8, amended: for a batch in which every descriptor carries a persisted
    id and none is marked deleted, submitting the batch a second time leaves
    the store as the first submission left it, provided both submissions
    resolve the same header: they do when they are made on the same date, or
    when the source descriptor carries an order date. *)
Theorem resubmission_idempotent store_cast today1 today2 order_no body s :
  (∀ it, it ∈ body → has_id it = true ∧ is_deleted it = false) →
  commonOrderDetails today1 (allItems body)
  = commonOrderDetails today2 (allItems body) →
  let once := (put_orders_by_number store_cast today1 order_no body s).2 in
  (put_orders_by_number store_cast today2 order_no body once).2 = once.
Proof.
  intros Hbody Hcommon once.
  destruct (updates_only body Hbody) as [Hins Hdel].
  destruct (decide (all_space order_no = true ∨ body = [])) as [Hg|Hng].
  { assert (∀ today s0, (put_orders_by_number store_cast today order_no
                           body s0).2 = s0) as Hsame.
    { intros today s0.
      by destruct (put_guarded store_cast today order_no body s0 Hg)
        as [? ->]. }
    unfold once. by rewrite !Hsame. }
  assert (all_space order_no = false) as Ho
    by (destruct (all_space order_no); tauto).
  assert (body ≠ []) as Hb by tauto.
  destruct s as [t n].
  destruct (phases_sim store_cast today1 today2 order_no (allItems body)
              t t n t t n Hins Hdel Hcommon eq_refl)
    as [(e & c & c' & H1 & Hn & H2 & Hm)|(G & stored & HG & Hi & Hon & H1 & _)].
  - assert (once = {| rows := t; next_id := n |}) as ->.
    { unfold once. rewrite (put_throw _ _ _ _ _ e c Ho Hb); [|exact H1].
      simpl. by rewrite Hn. }
    rewrite (put_throw _ _ _ _ _ e c' Ho Hb); [|exact H2].
    simpl. by rewrite Hm.
  - set (B := set_where (order_no_is order_no) stored) in *.
    assert (once = {| rows := B <$> (G <$> t); next_id := n |}) as ->.
    { unfold once. rewrite put_run by done.
      change (query_begin (connect {| rows := t; next_id := n |})).2
        with (in_tx t t n).
      by rewrite H1. }
    assert (Hkeys : keys <$> (B <$> (G <$> t)) = keys <$> t).
    { rewrite <- !list_fmap_compose. apply list_fmap_ext. intros _ r _.
      simpl. unfold B. rewrite keys_set_where by done.
      by apply key_update_keys. }
    destruct (phases_sim store_cast today1 today2 order_no (allItems body)
                t t n (B <$> (G <$> t)) (B <$> (G <$> t)) n
                Hins Hdel Hcommon Hkeys)
      as [(e & c & c' & H1' & _)|(G' & stored' & HG' & Hi' & Hon' & H1' & H2')].
    { rewrite H1 in H1'. discriminate H1'. }
    rewrite H1 in H1'. injection H1' as Heq.
    rewrite put_run by done.
    change (query_begin (connect {| rows := ?t0; next_id := n |})).2
      with (in_tx t0 t0 n).
    rewrite H2'. cbn [visible tx in_tx seq snd]. f_equal.
    fold B in Heq. rewrite Heq at 2. rewrite Heq.
    rewrite <- !list_fmap_compose. apply list_fmap_ext. intros _ r _.
    simpl. by apply broadcast_update_idem.
Qed.

Lemma resubmission_idempotent_witness :
  let once := (put_orders_by_number accept_all "2024-06-05" "A" update_batch
                 example_store).2 in
  (put_orders_by_number accept_all "2024-06-05" "A" update_batch once).2
  = once.
Proof.
  apply (resubmission_idempotent accept_all "2024-06-05" "2024-06-05" "A"
           update_batch example_store).
  - intros it Hit. apply list_elem_of_singleton in Hit. by rewrite Hit.
  - reflexivity.
Defined.

(** ** Validation before the transaction *)

Section ValidationFacts.
Variable StringToNumber : string → option Z.
Variable sort_by_id : list item → list item.
Hypothesis sort_by_id_perm : ∀ l, sort_by_id l ≡ₚ l.

Lemma validate_one_malformed index it :
  malformed StringToNumber it →
  validate_one StringToNumber index it ≠ [].
Proof.
  unfold validate_one.
  intros [Hid|(Hdel & [(f & v & Hf & Hv & Hnan)|(v & Hv & Hout)])].
  - rewrite Hid. cbn [negb]. destruct (is_deleted it); [discriminate|].
    intros Hnil. apply app_eq_nil in Hnil as [Hnil _]. discriminate Hnil.
  - rewrite Hdel. intros Hnil.
    apply app_eq_nil in Hnil as [_ [Hnil _]%app_eq_nil].
    assert (MustBeNumber index f ∈ omap
              (λ field,
                 match fields it !! field with
                 | Some v => if isNaN StringToNumber v
                             then Some (MustBeNumber index field) else None
                 | None => None
                 end) numericFields) as Hin.
    { apply list_elem_of_omap. exists f. split; [done|].
      by rewrite Hv, Hnan. }
    rewrite Hnil in Hin. by apply elem_of_nil in Hin.
  - rewrite Hdel, Hv, Hout. intros Hnil.
    by apply app_eq_nil in Hnil as [_ [_ Hnil]%app_eq_nil].
Qed.

Lemma join_imap_nonempty {A B} (f : nat → A → list B) (l : list A) i x :
  l !! i = Some x → f i x ≠ [] → mjoin (imap f l) ≠ [].
Proof.
  revert f i. induction l as [|y l IH]; intros f i Hi Hne; [done|].
  simpl. intros [Hy Hl]%app_eq_nil.
  destruct i as [|i]; simpl in Hi.
  - by simplify_eq.
  - by apply (IH (f ∘ S) i Hi Hne).
Qed.

(** The update-only handler answers 400, before it connects, to a blank
    order number, to an empty array and to a batch with a malformed
    descriptor. *)
Lemma precheck_update_only_rejects order_no body :
  all_space order_no = true ∨ body = [] ∨
  (∃ it, it ∈ body ∧ malformed StringToNumber it) →
  is_Some (precheck_update_only StringToNumber sort_by_id order_no body).
Proof.
  unfold precheck_update_only. intros H.
  destruct (all_space order_no); [done|].
  destruct (length (sort_by_id body) =? 0)%nat eqn:Hlen; [done|].
  destruct H as [?|[->|(it & Hin & Hbad)]]; [done| |].
  - apply Nat.eqb_neq in Hlen. by rewrite sort_by_id_perm in Hlen.
  - rewrite <- sort_by_id_perm in Hin.
    apply list_elem_of_lookup in Hin as [i Hi].
    pose proof (join_imap_nonempty (validate_one StringToNumber) _ i it Hi
                  (validate_one_malformed i it Hbad)) as Hne.
    unfold validationErrors. by destruct (mjoin _).
Qed.
End ValidationFacts.

(** C7: the reconciliation handler does not answer 400 to every malformed
    request.  A body that is an object makes the spread throw before the
    array guard, so no response is sent; and a gst percentage of 150 is not
    looked at: the update is applied and committed, while the update-only
    handler of the same route answers 400 to that batch. *)
Theorem malformed_requests_not_rejected :
  app_put accept_all "2024-06-05" "A" (BodyObject ∅) example_store
  = (UncaughtTypeError, example_store) ∧
  (let out := put_orders_by_number accept_all "2024-06-05" "A" gst_batch
                example_store in
   is_success out.1 = true ∧
   rows out.2 !! 0%nat ≫= (.!! "gst") = Some (VNum 150)) ∧
  precheck_update_only (λ _, None) (js_sort sort_key) "A" gst_batch
  = Some (ValidationFailed [GstOutOfRange 0]).
Proof.
  split; [reflexivity|]. split; [split|]; vm_compute; reflexivity.
Qed.

(** * Further properties of the handlers *)

(** ** The guards of the reconciliation handler *)

(** An order number that is a no-break space, [%C2%A0] in the path, is
    blank. *)
Lemma put_blank_nbsp store_cast today body s :
  put_orders_by_number store_cast today nbsp body s
  = (Json400 "Order Number is required", s).
Proof. reflexivity. Qed.


Lemma put_keeps_wf_witness :
  wf_store example_store ∧
  wf_store (put_orders_by_number accept_all "2024-06-05" "A" example_batch
              example_store).2.
Proof.
  split; [exact example_store_wf|].
  exact (put_keeps_wf accept_all "2024-06-05" "A" example_batch
           example_store _ _ example_store_wf (surjective_pairing _)).
Defined.

(** ** What a success response reports *)

(** A success response comes from a run of the phases that did not throw;
    its rows and counts are read off that run. *)
Lemma put_ok_run store_cast today order_no body s resp s' :
  put_orders_by_number store_cast today order_no body s = (resp, s') →
  is_success resp = true →
  all_space order_no = false ∧ body ≠ [] ∧
  ∃ c, phases store_cast today order_no (allItems body)
         (query_begin (connect s)).2 = (Ok (), c) ∧
       s' = {| rows := visible c; next_id := seq c |} ∧
       response_data resp
       = js_sort row_id (filter (order_no_is order_no) (visible c)) ∧
       response_operations resp
       = {| inserted := length (itemsToInsert (allItems body));
            updated := length (itemsToUpdate (allItems body));
            deleted := length (itemsToDelete (allItems body));
            total := length (response_data resp) |}.
Proof.
  intros Hput Hok.
  destruct (all_space order_no) eqn:Ho.
  { destruct (put_guarded store_cast today order_no body s) as [? H];
      [by left|]. rewrite H in Hput. injection Hput as <- _. done. }
  destruct (decide (body = [])) as [->|Hb].
  { destruct (put_guarded store_cast today order_no [] s) as [? H];
      [by right|]. rewrite H in Hput. injection Hput as <- _. done. }
  split; [done|]. split; [done|].
  rewrite put_run in Hput by done.
  destruct (phases store_cast today order_no (allItems body)
              (query_begin (connect s)).2) as [[[]|e] c] eqn:Hp.
  - exists c. split; [done|]. injection Hput as <- <-. done.
  - injection Hput as <- _. done.
Qed.

(** X4: the [data] of a success response is the committed rows of the
    order, read back in ascending id order, and [total] counts them. *)
Theorem put_response_reads_back store_cast today order_no body s resp s' :
  put_orders_by_number store_cast today order_no body s = (resp, s') →
  is_success resp = true →
  response_data resp
  = js_sort row_id (filter (order_no_is order_no) (rows s')) ∧
  ascending row_id (response_data resp) ∧
  (∀ r, r ∈ response_data resp ↔ r ∈ rows s' ∧ order_no_is order_no r) ∧
  total (response_operations resp) = length (response_data resp).
Proof.
  intros Hput Hok.
  destruct (put_ok_run _ _ _ _ _ _ _ Hput Hok)
    as (_ & _ & c & _ & -> & Hdata & Hops).
  rewrite Hops, Hdata. simpl. split; [done|].
  split; [apply js_sort_ascending|]. split; [|done].
  intros r. rewrite elem_of_js_sort, list_elem_of_filter. tauto.
Qed.

Lemma put_response_reads_back_witness :
  let out := put_orders_by_number accept_all "2024-06-05" "A" example_batch
               example_store in
  is_success out.1 = true ∧
  response_data out.1
  = js_sort row_id (filter (order_no_is "A") (rows out.2)).
Proof.
  intros out.
  assert (is_success out.1 = true) as Hok by (vm_compute; reflexivity).
  split; [exact Hok|].
  exact (proj1 (put_response_reads_back accept_all "2024-06-05" "A"
                  example_batch example_store out.1 out.2
                  (surjective_pairing out) Hok)).
Defined.

(** X5: the counts of a success response sort the descriptors of the batch
    by shape; with the flagged descriptors without id, which are counted
    nowhere, they add up to the size of the batch. *)
Theorem put_operations_count store_cast today order_no body s resp s' :
  put_orders_by_number store_cast today order_no body s = (resp, s') →
  is_success resp = true →
  let ops := response_operations resp in
  (inserted ops + updated ops + deleted ops
   + length (filter (λ it, is_deleted it && negb (has_id it) = true) body)
   = length body)%nat ∧
  inserted ops
  = length (filter (λ it, has_id it = false ∧ is_deleted it = false) body) ∧
  updated ops
  = length (filter (λ it, has_id it = true ∧ is_deleted it = false) body) ∧
  deleted ops
  = length (filter (λ it, has_id it = true ∧ is_deleted it = true) body).
Proof.
  intros Hput Hok ops.
  destruct (put_ok_run _ _ _ _ _ _ _ Hput Hok)
    as (_ & _ & c & _ & _ & _ & Hops).
  unfold ops. rewrite Hops. cbn [inserted updated deleted].
  assert (Hlen : ∀ (P : item → Prop) `{!∀ x, Decision (P x)},
            length (filter P (allItems body)) = length (filter P body)).
  { intros P ?. unfold allItems. by rewrite filter_js_sort, length_js_sort. }
  unfold itemsToInsert, itemsToUpdate, itemsToDelete. rewrite !Hlen.
  split; [|split; [|split]].
  - pose proof (differ_classes_perm body) as Hperm.
    apply Permutation_length in Hperm. rewrite !length_app in Hperm.
    unfold itemsToInsert, itemsToUpdate, itemsToDelete in Hperm. lia.
  - f_equal. apply list_filter_iff. intros it.
    destruct (has_id it), (is_deleted it); simpl; intuition congruence.
  - f_equal. apply list_filter_iff. intros it.
    destruct (has_id it), (is_deleted it); simpl; intuition congruence.
  - f_equal. apply list_filter_iff. intros it.
    destruct (has_id it), (is_deleted it); simpl; intuition congruence.
Qed.

Lemma put_operations_count_witness :
  let out := put_orders_by_number accept_all "2024-06-05" "A" example_batch
               example_store in
  is_success out.1 = true ∧
  inserted (response_operations out.1) = 1%nat ∧
  updated (response_operations out.1) = 1%nat.
Proof.
  intros out.
  assert (is_success out.1 = true) as Hok by (vm_compute; reflexivity).
  split; [exact Hok|].
  destruct (put_operations_count accept_all "2024-06-05" "A"
              example_batch example_store out.1 out.2
              (surjective_pairing out) Hok) as (_ & Hi & Hu & _).
  split; [exact Hi|exact Hu].
Defined.

(** ** The rows of the other orders *)

Lemma frame_refl o t n : frame o t n t n.
Proof. done. Qed.

Lemma frame_trans o t1 n1 t2 n2 t3 n3 :
  frame o t1 n1 t2 n2 → frame o t2 n2 t3 n3 → frame o t1 n1 t3 n3.
Proof. unfold frame. congruence. Qed.

(** The three kinds of statement the handler issues: a delete and an update
    restricted to the order, and the insert of a row of the order. *)
Lemma frame_filter o t n (p : gmap string value → Prop)
    `{!∀ r, Decision (p r)} :
  (∀ r, p r → order_no_is o r) →
  frame o t n (filter (λ r, ¬ p r) t) n.
Proof.
  intros Hp. unfold frame, other_orders. rewrite list_filter_filter.
  apply list_filter_iff. intros r. split; [tauto|].
  intros Hr. split; [done|]. intros Hpr. by apply Hr, Hp.
Qed.

Lemma frame_set o t n (p : gmap string value → Prop)
    `{!∀ r, Decision (p r)} (stored : gmap string value) :
  (∀ r, p r → order_no_is o r) → stored !! "order_no" = None →
  frame o t n (set_where p stored <$> t) n.
Proof.
  intros Hp Hs. unfold frame, other_orders.
  induction t as [|r t IH]; [done|].
  rewrite fmap_cons, !filter_cons, IH.
  destruct (decide (p r)) as [Hr|Hr].
  - assert (set_where p stored r = stored ∪ r) as ->
      by (unfold set_where; by rewrite decide_True).
    assert (order_no_is o (stored ∪ r)) as Ho.
    { unfold order_no_is. rewrite lookup_union_r by done. by apply Hp. }
    rewrite !decide_False; [done|..]; intros Hn; apply Hn; auto.
  - assert (set_where p stored r = r) as ->
      by (unfold set_where; by rewrite decide_False).
    done.
Qed.

Lemma frame_insert o t n (stored : gmap string value) :
  stored !! "order_no" = Some (VStr o) →
  frame o t n (t ++ [<["id" := VNum n]> stored]) (n + 1).
Proof.
  intros Hs. unfold frame, other_orders.
  rewrite filter_app, filter_cons, decide_False, filter_nil.
  - apply app_nil_r.
  - intros Hn. apply Hn. unfold order_no_is. by rewrite lookup_insert_ne.
Qed.

Lemma insertItem_order_no order_no common newItem :
  insertItem order_no common newItem !! "order_no" = Some (VStr order_no).
Proof. unfold insertItem. cbv zeta. apply lookup_insert_eq. Qed.

Section Frame.
Variable store_cast : string → value → option value.
Variable order_no : string.
Hypothesis cast_order_no :
  store_cast "order_no" (VStr order_no) = Some (VStr order_no).
Implicit Types (p : gmap string value → Prop).

Lemma frame_sql_delete p `{!∀ r, Decision (p r)} :
  (∀ r, p r → order_no_is order_no r) →
  preserves (frame order_no) (sql_delete p).
Proof. intros Hp k t n. by apply satisfies_delete, frame_filter. Qed.

Lemma frame_sql_update p `{!∀ r, Decision (p r)} sets :
  (∀ r, p r → order_no_is order_no r) → sets !! "order_no" = None →
  preserves (frame order_no) (sql_update store_cast p sets).
Proof.
  intros Hp Hs k t n. apply satisfies_update.
  destruct (cast_all store_cast sets) as [stored|e] eqn:Hcast; [|done].
  apply frame_set; eauto using cast_all_lookup_None.
Qed.

Lemma frame_sql_insert cols :
  cols !! "order_no" = Some (VStr order_no) →
  preserves (frame order_no) (sql_insert store_cast cols).
Proof.
  intros Hc k t n. apply satisfies_insert.
  destruct (cast_all store_cast cols) as [stored|e] eqn:Hcast; [|done].
  apply frame_insert.
  by rewrite (cast_all_lookup _ _ _ _ Hcast), Hc.
Qed.

Ltac fstep :=
  first [ apply rowwise_select; exact (frame_refl order_no)
        | apply frame_sql_delete; tauto
        | apply frame_sql_update;
            [tauto
            |first [apply filteredFields_keys | apply commonValues_keys]]
        | apply preserves_ret; exact (frame_refl order_no)
        | apply preserves_throw; exact (frame_refl order_no)
        | apply preserves_bind; [exact (frame_trans order_no)| |intros ?] ].

Lemma frame_delete_phase orderExists toDelete :
  preserves (frame order_no) (delete_phase orderExists order_no toDelete).
Proof.
  unfold delete_phase. cbv zeta.
  destruct (0 <? length toDelete)%nat; [|fstep].
  fstep; [|repeat fstep].
  destruct orderExists; [|fstep]. fstep; [fstep|]. case_decide; fstep.
Qed.

Lemma frame_update_one orderExists update :
  preserves (frame order_no)
    (update_one store_cast orderExists order_no update).
Proof.
  unfold update_one. cbv zeta. fstep.
  - destruct orderExists; [|fstep]. fstep; [fstep|].
    destruct a; [fstep|]. case_decide; fstep.
  - case_decide; [fstep|]. fstep; [fstep|]. case_decide; fstep.
Qed.

Lemma frame_update_phase orderExists toUpdate :
  preserves (frame order_no)
    (update_phase store_cast orderExists order_no toUpdate).
Proof.
  induction toUpdate as [|u l IH]; simpl; [fstep|].
  fstep; [apply frame_update_one|exact IH].
Qed.

Lemma frame_insert_loop insertData : ∀ index,
  Forall (λ cols, cols !! "order_no" = Some (VStr order_no)) insertData →
  preserves (frame order_no) (insert_loop store_cast index insertData).
Proof.
  induction insertData as [|x l IH]; intros index Hall; simpl; [fstep|].
  apply Forall_cons in Hall as [Hx Hl].
  fstep.
  - apply preserves_catch; [exact (frame_trans order_no)| |].
    + by apply frame_sql_insert.
    + intros e. fstep.
  - fstep; [by apply IH|fstep].
Qed.

Lemma frame_broadcast_phase orderExists common toInsert :
  preserves (frame order_no)
    (broadcast_phase store_cast orderExists order_no common toInsert).
Proof.
  unfold broadcast_phase. destruct (_ || _); [|fstep]. fstep; fstep.
Qed.

Lemma frame_phases today all :
  preserves (frame order_no) (phases store_cast today order_no all).
Proof.
  unfold phases. fstep; [fstep|]. cbv zeta. destruct (_ && _); [fstep|].
  fstep; [apply frame_delete_phase|].
  fstep; [apply frame_update_phase|].
  fstep; [|apply frame_broadcast_phase].
  apply frame_insert_loop, Forall_fmap, Forall_forall.
  intros it _. apply insertItem_order_no.
Qed.
End Frame.

(** X3: a reconciliation for one order number leaves every row of every
    other order exactly as it was, whatever it answers, in a store that keeps
    the order number it is handed. *)
Theorem put_other_orders_untouched store_cast today order_no body s resp s' :
  store_cast "order_no" (VStr order_no) = Some (VStr order_no) →
  put_orders_by_number store_cast today order_no body s = (resp, s') →
  other_orders order_no (rows s') = other_orders order_no (rows s).
Proof.
  intros Hcast Hput.
  destruct (all_space order_no) eqn:Ho.
  { destruct (put_guarded store_cast today order_no body s) as [? H];
      [by left|]. rewrite H in Hput. by injection Hput as _ <-. }
  destruct (decide (body = [])) as [->|Hb].
  { destruct (put_guarded store_cast today order_no [] s) as [? H];
      [by right|]. rewrite H in Hput. by injection Hput as _ <-. }
  rewrite put_run in Hput by done.
  destruct (phases store_cast today order_no (allItems body)
              (query_begin (connect s)).2) as [r c] eqn:Hp.
  apply (satisfies_elim _ _ _ _ _ _ _
           (frame_phases store_cast order_no Hcast today _ _ _ _))
    in Hp as (t' & n' & -> & Hfr).
  destruct r as [[]|e]; injection Hput as _ <-; simpl; done.
Qed.

Lemma put_other_orders_untouched_witness :
  let out := put_orders_by_number accept_all "2024-06-05" "A" example_batch
               example_store in
  other_orders "A" (rows out.2) = other_orders "A" (rows example_store).
Proof.
  intros out.
  exact (put_other_orders_untouched accept_all "2024-06-05" "A"
           example_batch example_store out.1 out.2 eq_refl
           (surjective_pairing out)).
Defined.

(** ** The id sequence *)

Section Sequence.
Variable store_cast : string → value → option value.

(** The insert loop hands out the next ids of the sequence, one per row; a
    failed insert takes none. *)
Lemma insert_loop_seq insertData : ∀ index k t n,
  satisfies (insert_loop store_cast index insertData) k t n (λ r _ n',
    n ≤ n' ≤ n + Z.of_nat (length insertData) ∧
    ∀ ids, r = Ok ids →
      n' = n + Z.of_nat (length insertData) ∧
      ids = seqZ n (Z.of_nat (length insertData))).
Proof.
  induction insertData as [|x l IH]; intros index k t n.
  { apply satisfies_ret. split; [simpl; lia|].
    intros ids [= <-]. split; [simpl; lia|done]. }
  cbn [insert_loop]. apply satisfies_bind, satisfies_catch, satisfies_insert.
  destruct (cast_all store_cast x) as [stored|e].
  - apply satisfies_bind.
    eapply satisfies_mono; [apply (IH (S index))|].
    intros [ids|e] t' n' [Hn Hids].
    + apply satisfies_ret. destruct (Hids ids eq_refl) as [-> ->].
      rewrite length_cons, Nat2Z.inj_succ. split; [lia|].
      intros ? [= <-]. split; [lia|].
      rewrite (seqZ_cons n) by lia. f_equal. f_equal; lia.
    + rewrite length_cons, Nat2Z.inj_succ. split; [lia|done].
  - apply satisfies_throw. rewrite length_cons, Nat2Z.inj_succ.
    split; [lia|done].
Qed.

(** Only the insert phase moves the sequence. *)
Lemma phases_seq today order_no all k t n :
  satisfies (phases store_cast today order_no all) k t n (λ r _ n',
    n ≤ n' ≤ n + Z.of_nat (length (itemsToInsert all)) ∧
    (r = Ok () → n' = n + Z.of_nat (length (itemsToInsert all)))).
Proof.
  unfold phases. apply satisfies_bind, satisfies_select. cbv zeta.
  destruct (negb _ && _); [apply satisfies_throw; split; [lia|done]|].
  apply satisfies_bind. eapply satisfies_mono.
  { exact (rowwise_delete_phase stays stays_refl stays_trans
             (@stays_filter) _ order_no _ k t n). }
  intros [[]|e] t1 n1 [-> _]; [|split; [lia|done]].
  apply satisfies_bind. eapply satisfies_mono.
  { exact (rowwise_update_phase store_cast stays stays_refl stays_trans
             (@stays_set) _ order_no _ k t1 n). }
  intros [[]|e] t2 n2 [-> _]; [|split; [lia|done]].
  apply satisfies_bind. eapply satisfies_mono.
  { apply insert_loop_seq. }
  rewrite length_fmap.
  intros [ids|e] t3 n3 [Hn Hids]; [|split; [lia|done]].
  destruct (Hids ids eq_refl) as [-> _].
  eapply satisfies_mono.
  { exact (rowwise_broadcast_phase store_cast stays stays_refl stays_trans
             (@stays_set) _ order_no _ _ k t3 _). }
  intros r t4 n4 [-> _]. split; [lia|done].
Qed.
End Sequence.

(** X6: a successful reconciliation advances the id sequence by the number
    of inserted descriptors; a failed one never moves it back and consumes at
    most that many ids. *)
Theorem put_id_sequence store_cast today order_no body s resp s' :
  put_orders_by_number store_cast today order_no body s = (resp, s') →
  let new := length (filter (λ it, has_id it = false ∧ is_deleted it = false)
                       body) in
  next_id s ≤ next_id s' ≤ next_id s + Z.of_nat new ∧
  (is_success resp = true → next_id s' = next_id s + Z.of_nat new).
Proof.
  intros Hput new.
  assert (length (itemsToInsert (allItems body)) = new) as Hnew.
  { unfold itemsToInsert, allItems, new.
    rewrite filter_js_sort, length_js_sort. f_equal.
    apply list_filter_iff. intros it.
    destruct (has_id it), (is_deleted it); simpl; intuition congruence. }
  destruct (all_space order_no) eqn:Ho.
  { destruct (put_guarded store_cast today order_no body s) as [? H];
      [by left|]. rewrite H in Hput. injection Hput as <- <-.
    split; [lia|done]. }
  destruct (decide (body = [])) as [->|Hb].
  { destruct (put_guarded store_cast today order_no [] s) as [? H];
      [by right|]. rewrite H in Hput. injection Hput as <- <-.
    split; [lia|done]. }
  rewrite put_run in Hput by done.
  destruct (phases store_cast today order_no (allItems body)
              (query_begin (connect s)).2) as [r c] eqn:Hp.
  apply (satisfies_elim _ _ _ _ _ _ _ (phases_seq _ _ _ _ _ _ _))
    in Hp as (t' & n' & -> & Hn & Hok).
  rewrite Hnew in Hn, Hok.
  destruct r as [[]|e]; injection Hput as <- <-; simpl in *.
  - split; [done|]. auto.
  - split; [done|]. done.
Qed.

Lemma put_id_sequence_witness :
  let out := put_orders_by_number accept_all "2024-06-05" "A" example_batch
               example_store in
  is_success out.1 = true ∧ next_id out.2 = 7.
Proof.
  intros out.
  assert (is_success out.1 = true) as Hok by (vm_compute; reflexivity).
  split; [exact Hok|].
  exact (proj2 (put_id_sequence accept_all "2024-06-05" "A" example_batch
                  example_store out.1 out.2 (surjective_pairing out)) Hok).
Defined.

(** ** A row deleted and updated in one batch *)

Lemma delete_phase_removes orderExists order_no toDelete k t n :
  satisfies (delete_phase orderExists order_no toDelete) k t n (λ r t' n',
    n' = n ∧
    (r = Ok () →
     ∀ it, it ∈ toDelete → ¬ owned order_no t' (sort_key it))).
Proof.
  unfold delete_phase. cbv zeta.
  destruct (0 <? length toDelete)%nat eqn:Hlen.
  2:{ apply satisfies_ret. split; [done|]. intros _ it Hit.
      destruct toDelete; [by apply elem_of_nil in Hit|done]. }
  apply satisfies_bind.
  assert (Hrest : satisfies
            (sql_delete (λ r, id_in (sort_key <$> toDelete) r
                              ∧ order_no_is order_no r) ≫= λ _, mret ())
            k t n (λ r t' n',
              n' = n ∧
              (r = Ok () →
               ∀ it, it ∈ toDelete → ¬ owned order_no t' (sort_key it)))).
  { apply satisfies_bind, satisfies_delete, satisfies_ret.
    split; [done|]. intros _ it Hit (r & Hr & Hid & Ho).
    apply list_elem_of_filter in Hr as [Hnp _]. apply Hnp.
    split; [|done]. exists (sort_key it).
    split; [|done]. apply list_elem_of_fmap. eauto. }
  destruct orderExists.
  - apply satisfies_bind, satisfies_select.
    case_decide; [by apply satisfies_throw|].
    apply satisfies_ret. exact Hrest.
  - apply satisfies_ret. exact Hrest.
Qed.

Section Conflict.
Variable store_cast : string → value → option value.

(** With the order present, the update of a row that the delete phase has
    removed makes the phases throw. *)
Lemma phases_conflict today order_no all d u k t n :
  (∃ r, r ∈ t ∧ order_no_is order_no r) →
  d ∈ all → u ∈ all →
  is_deleted d = true → has_id d = true →
  is_deleted u = false → id u = id d →
  satisfies (phases store_cast today order_no all) k t n
    (λ r _ n', n' = n ∧ ∃ e, r = Throw e).
Proof.
  intros (r0 & Hr0 & Ho0) Hd Hu Hdd Hdi Hud Hid. unfold phases.
  apply satisfies_bind, satisfies_select. cbv zeta.
  assert ((0 <? length (filter (order_no_is order_no) t))%nat = true) as ->.
  { apply Nat.ltb_lt.
    assert (r0 ∈ filter (order_no_is order_no) t) as Hf
      by by apply list_elem_of_filter.
    destruct (filter _ t); [by apply elem_of_nil in Hf|]. simpl. lia. }
  simpl negb. cbv iota. simpl andb. cbv iota.
  assert (has_id u = true) as Hui by (unfold has_id in *; by rewrite Hid).
  assert (sort_key u = sort_key d) as Hkey by (unfold sort_key; by rewrite Hid).
  apply satisfies_bind. eapply satisfies_mono; [apply delete_phase_removes|].
  intros [[]|e] t' n' [-> Hgone]; [|eauto].
  apply satisfies_bind. eapply satisfies_mono.
  { apply (update_phase_rejects store_cast order_no u).
    - unfold itemsToUpdate. apply list_elem_of_filter.
      by rewrite Hud, Hui.
    - rewrite Hkey. apply Hgone; [done|].
      unfold itemsToDelete. apply list_elem_of_filter.
      by rewrite Hdd, Hdi. }
  intros r t'' n'' [-> [e ->]]. eauto.
Qed.
End Conflict.

(** X7: for an order that has rows, a batch that deletes a row and updates
    the same row is rejected: the delete phase runs first, so the check of the
    update no longer finds the row; the store is left as it was. *)
Theorem delete_and_update_rejected store_cast today order_no body s d u :
  (∃ r, r ∈ rows s ∧ order_no_is order_no r) →
  all_space order_no = false →
  d ∈ body → u ∈ body →
  is_deleted d = true → has_id d = true →
  is_deleted u = false → id u = id d →
  ∃ e, put_orders_by_number store_cast today order_no body s
       = (Json500 e, s).
Proof.
  intros Hex Ho Hd Hu Hdd Hdi Hud Hid.
  assert (body ≠ []) as Hb by (intros ->; by apply elem_of_nil in Hd).
  destruct (phases store_cast today order_no (allItems body)
              (query_begin (connect s)).2) as [r c] eqn:Hp.
  pose proof Hp as Hp'.
  apply (satisfies_elim _ _ _ _ _ _ _
           (phases_conflict store_cast today order_no (allItems body) d u
              _ _ _ Hex (proj2 (elem_of_allItems _ _) Hd)
              (proj2 (elem_of_allItems _ _) Hu) Hdd Hdi Hud Hid))
    in Hp' as (t' & n' & -> & -> & e & ->).
  exists e. rewrite (put_throw _ _ _ _ _ _ _ Ho Hb Hp). by destruct s.
Qed.

Lemma delete_and_update_rejected_witness :
  ∃ e, put_orders_by_number accept_all "2024-06-05" "A"
         [Item (Some 1) (Some (VBool true)) ∅;
          Item (Some 1) None {[ "quantity" := VNum 3 ]}] example_store
       = (Json500 e, example_store).
Proof.
  apply (delete_and_update_rejected accept_all "2024-06-05" "A" _
           example_store (Item (Some 1) (Some (VBool true)) ∅)
           (Item (Some 1) None {[ "quantity" := VNum 3 ]})).
  - exists row_1. split; [by left|reflexivity].
  - reflexivity.
  - left.
  - right. left.
  - reflexivity.
  - reflexivity.
  - reflexivity.
  - reflexivity.
Defined.

(** ** Keys the handler never reads *)

Lemma sort_insert_fmap {A B} (key : A → Z) (key' : B → Z) (f : B → A) x l :
  (∀ y, key (f y) = key' y) →
  sort_insert key (f x) (f <$> l) = f <$> sort_insert key' x l.
Proof.
  intros Hkey. induction l as [|y l IH]; [done|].
  cbn [fmap list_fmap sort_insert]. rewrite !Hkey.
  destruct (key' x <=? key' y); [done|].
  cbn [fmap list_fmap]. f_equal. exact IH.
Qed.

Lemma js_sort_fmap {A B} (key : A → Z) (key' : B → Z) (f : B → A) l :
  (∀ y, key (f y) = key' y) →
  js_sort key (f <$> l) = f <$> js_sort key' l.
Proof.
  intros Hkey. induction l as [|y l IH]; [done|].
  cbn [fmap list_fmap js_sort foldr].
  change (foldr (sort_insert key) [] (f <$> l)) with (js_sort key (f <$> l)).
  rewrite IH. by apply sort_insert_fmap.
Qed.

Lemma filter_fmap_comm {A} (P : A → Prop) `{!∀ x, Decision (P x)}
    (f : A → A) (l : list A) :
  (∀ x, P (f x) ↔ P x) → filter P (f <$> l) = f <$> filter P l.
Proof.
  intros HP. induction l as [|x l IH]; [done|].
  rewrite fmap_cons, !filter_cons, IH.
  destruct (decide (P x)) as [Hx|Hx].
  - by rewrite decide_True by by apply HP.
  - by rewrite decide_False by by rewrite HP.
Qed.

Lemma find_fmap_comm {A} (P : A → Prop) `{!∀ x, Decision (P x)}
    (f : A → A) (l : list A) :
  (∀ x, P (f x) ↔ P x) →
  snd <$> list_find P (f <$> l) = f <$> (snd <$> list_find P l).
Proof.
  intros HP. induction l as [|x l IH]; [done|].
  rewrite fmap_cons. cbn [list_find].
  destruct (decide (P x)) as [Hx|Hx].
  - by rewrite decide_True by by apply HP.
  - rewrite decide_False by by rewrite HP.
    destruct (list_find P (f <$> l)) as [[??]|],
             (list_find P l) as [[??]|]; simpl in *; congruence.
Qed.

(** [known] keeps what the handler reads of a descriptor. *)
Lemma fields_known it k :
  k ∈ allowedFields ∨ k ∈ commonFields →
  fields (known it) !! k = fields it !! k.
Proof.
  intros Hk. unfold known. cbn [fields].
  destruct (fields it !! k) as [v|] eqn:Hv.
  - by apply map_lookup_filter_Some.
  - apply map_lookup_filter_None. by left.
Qed.

Lemma allItems_known body : allItems (known <$> body) = known <$> allItems body.
Proof. unfold allItems. by apply js_sort_fmap. Qed.

Lemma itemsToInsert_known all :
  itemsToInsert (known <$> all) = known <$> itemsToInsert all.
Proof. by apply filter_fmap_comm. Qed.

Lemma itemsToUpdate_known all :
  itemsToUpdate (known <$> all) = known <$> itemsToUpdate all.
Proof. by apply filter_fmap_comm. Qed.

Lemma itemsToDelete_known all :
  itemsToDelete (known <$> all) = known <$> itemsToDelete all.
Proof. by apply filter_fmap_comm. Qed.

Lemma commonOrderDetails_known today all :
  commonOrderDetails today (known <$> all) = commonOrderDetails today all.
Proof.
  unfold commonOrderDetails, validItems.
  rewrite (filter_fmap_comm (λ it, is_deleted it = false)) by done.
  assert (priorityItem (known <$> filter (λ it, is_deleted it = false) all)
          = known <$> priorityItem (filter (λ it, is_deleted it = false) all))
    as ->.
  { unfold priorityItem.
    pose proof (find_fmap_comm (λ it, has_id it = true) known
                  (filter (λ it, is_deleted it = false) all)) as Hfind.
    destruct (list_find _ (known <$> _)) as [[??]|],
             (list_find _ (filter _ all)) as [[??]|];
      simpl in Hfind; try (specialize (Hfind ltac:(done)); simplify_eq);
      try done.
    by destruct (filter _ all). }
  destruct (priorityItem _) as [p|]; [|done].
  cbn [fmap option_fmap option_map].
  apply map_eq. intros f. rewrite !lookup_copy_fields.
  case_decide as Hf; [|done]. rewrite fields_known by by right. done.
Qed.

Lemma filteredFields_known it :
  filteredFields (fields (known it)) = filteredFields (fields it).
Proof.
  unfold filteredFields, known. cbn [fields].
  apply map_filter_filter_l. intros k v _ Hk. by left.
Qed.

Lemma insertItem_known order_no common it :
  insertItem order_no common (known it) = insertItem order_no common it.
Proof.
  unfold insertItem. cbv zeta.
  by rewrite !fields_known by (left; compute_done).
Qed.

Section Known.
Variable store_cast : string → value → option value.

Lemma update_phase_known orderExists order_no toUpdate :
  update_phase store_cast orderExists order_no (known <$> toUpdate)
  = update_phase store_cast orderExists order_no toUpdate.
Proof.
  induction toUpdate as [|u l IH]; [done|].
  rewrite fmap_cons. cbn [update_phase]. rewrite IH. f_equal.
  unfold update_one. by rewrite filteredFields_known.
Qed.

(** The phases and the [try] block run the same on the trimmed batch. *)
Lemma phases_known today order_no all c :
  phases store_cast today order_no (known <$> all) c
  = phases store_cast today order_no all c.
Proof.
  unfold phases. rewrite !run_bind.
  destruct (sql_select (order_no_is order_no) c) as [[orderCheck|e] c'];
    [|done].
  cbv zeta.
  rewrite commonOrderDetails_known, itemsToInsert_known, itemsToUpdate_known,
    itemsToDelete_known, update_phase_known.
  unfold delete_phase, insert_phase, broadcast_phase.
  rewrite !length_fmap, <- !list_fmap_compose.
  rewrite (list_fmap_ext (sort_key ∘ known) sort_key) by done.
  rewrite (list_fmap_ext (insertItem order_no (commonOrderDetails today all)
                          ∘ known)
             (insertItem order_no (commonOrderDetails today all)))
    by (intros; apply insertItem_known).
  done.
Qed.

Lemma try_block_known today order_no all c :
  try_block store_cast today order_no (known <$> all) c
  = try_block store_cast today order_no all c.
Proof.
  unfold try_block. rewrite !run_bind.
  destruct (query_begin c) as [[[]|e] c0]; [|done].
  rewrite !run_bind, phases_known.
  rewrite commonOrderDetails_known, itemsToInsert_known, itemsToUpdate_known,
    itemsToDelete_known, !length_fmap.
  done.
Qed.
End Known.

(** X8: the keys of a descriptor outside the update allowlist and the
    header fields are never read: dropping them from every descriptor changes
    neither the response nor the store. *)
Theorem unread_keys_ignored store_cast today order_no body s :
  put_orders_by_number store_cast today order_no (known <$> body) s
  = put_orders_by_number store_cast today order_no body s.
Proof.
  unfold put_orders_by_number, put_try_catch.
  by rewrite allItems_known, try_block_known, length_fmap.
Qed.

(** ** Counting the rows found under a list of ids *)

(** The rows an order owns among [ids] are as many as the ids exactly when
    the ids are distinct and every one of them is owned. *)
Lemma verify_count_iff order_no (t : list (gmap string value)) (ids : list Z) :
  NoDup ((λ r, r !! "id") <$> t) →
  length (filter (λ r, id_in ids r ∧ order_no_is order_no r) t) = length ids
  ↔ NoDup ids ∧ ∀ i, i ∈ ids → owned order_no t i.
Proof.
  intros Hnodup. set (found := filter _ t).
  assert (Hfound : ∀ r, r ∈ found →
            r ∈ t ∧ order_no_is order_no r ∧ row_id r ∈ ids ∧
            r !! "id" = Some (VNum (row_id r))).
  { intros r [[(j & Hj & Hid) Ho] Hr]%list_elem_of_filter.
    unfold row_id. rewrite Hid. done. }
  assert (NoDup (row_id <$> found)) as Hnd.
  { apply NoDup_fmap_2_strong.
    - intros x y Hx Hy Hxy.
      destruct (Hfound x Hx) as (Htx & _ & _ & Hidx).
      destruct (Hfound y Hy) as (Hty & _ & _ & Hidy).
      apply (NoDup_fmap_eq (λ r, r !! "id") t); [done..|congruence].
    - apply NoDup_filter. by apply NoDup_fmap_1 in Hnodup. }
  assert (Hin : ∀ i, i ∈ row_id <$> found ↔ i ∈ ids ∧ owned order_no t i).
  { intros i. split.
    - intros (r & -> & Hr)%list_elem_of_fmap.
      destruct (Hfound r Hr) as (Ht & Ho & Hids & Hid).
      split; [done|]. by exists r.
    - intros [Hi (r & Hr & Hid & Ho)]. apply list_elem_of_fmap.
      exists r. split; [unfold row_id; by rewrite Hid|].
      apply list_elem_of_filter. split; [|done]. split; [|done].
      by exists i. }
  rewrite <- (length_fmap row_id found). split.
  - intros Hlen.
    assert (row_id <$> found ≡ₚ ids) as Hperm.
    { apply submseteq_length_Permutation; [|lia].
      apply NoDup_submseteq; [done|]. intros i Hi. by apply Hin in Hi as [? _]. }
    split; [by rewrite <- Hperm|].
    intros i Hi. rewrite <- Hperm in Hi. by apply Hin in Hi as [_ ?].
  - intros [Hids Howned]. apply Permutation_length.
    apply NoDup_Permutation; [done..|].
    intros i. rewrite Hin. split; [tauto|].
    intros Hi. split; [done|]. by apply Howned.
Qed.

(** ** Deleting every line of an order *)

Lemma filter_all {A} (P : A → Prop) `{!∀ x, Decision (P x)} (l : list A) :
  (∀ x, x ∈ l → P x) → filter P l = l.
Proof.
  induction l as [|x l IH]; intros Hl; [done|].
  rewrite filter_cons, decide_True by (apply Hl; left).
  f_equal. apply IH. intros y Hy. apply Hl. by right.
Qed.

Lemma filter_iff_in {A} (P Q : A → Prop) `{!∀ x, Decision (P x)}
    `{!∀ x, Decision (Q x)} (l : list A) :
  (∀ x, x ∈ l → (P x ↔ Q x)) → filter P l = filter Q l.
Proof.
  induction l as [|x l IH]; intros Hl; [done|].
  rewrite !filter_cons, IH by (intros y Hy; apply Hl; by right).
  destruct (decide (P x)) as [Hx|Hx].
  - by rewrite decide_True by (apply Hl; [left|done]).
  - rewrite decide_False; [done|]. intros HQ. apply Hx, Hl; [left|done].
Qed.

Lemma set_where_none p `{!∀ r, Decision (p r)} stored
    (t : list (gmap string value)) :
  (∀ r, r ∈ t → ¬ p r) → set_where p stored <$> t = t.
Proof.
  intros Hno. rewrite <- (list_fmap_id t) at 2.
  apply list_fmap_ext. intros i r Hr. unfold set_where.
  rewrite decide_False; [done|]. apply Hno.
  by apply list_elem_of_lookup_2 in Hr.
Qed.

Section DeleteAll.
Variable store_cast : string → value → option value.

(** The run of the phases on a batch that deletes every line of the order. *)
Lemma phases_delete_all today order_no all stored k t n :
  wf_table t n → all ≠ [] →
  (∀ it, it ∈ all → is_deleted it = true ∧ has_id it = true) →
  NoDup (sort_key <$> all) →
  (∀ i, i ∈ sort_key <$> all ↔ owned order_no t i) →
  cast_all store_cast (commonValues (defaultOrderDetails today)) = Ok stored →
  satisfies (phases store_cast today order_no all) k t n (λ r t' n',
    r = Ok () ∧ t' = other_orders order_no t ∧ n' = n).
Proof.
  intros [Hnodup Hids] Hne Hall Hdistinct Hcover.
  assert (∃ r0, r0 ∈ t ∧ order_no_is order_no r0) as (r0 & Hr0 & Ho0).
  { destruct all as [|it all]; [destruct Hne; reflexivity|].
    destruct (proj1 (Hcover (sort_key it))) as (r & Hr & _ & Ho);
      [rewrite fmap_cons; left|eauto]. }
  assert ((0 <? length all)%nat = true) as Hlen.
  { apply Nat.ltb_lt. destruct all; [destruct Hne; reflexivity|simpl; lia]. }
  assert ((0 <? length (filter (order_no_is order_no) t))%nat = true) as Hex.
  { apply Nat.ltb_lt.
    assert (r0 ∈ filter (order_no_is order_no) t) as Hf
      by by apply list_elem_of_filter.
    destruct (filter _ t); [by apply elem_of_nil in Hf|]. simpl. lia. }
  assert (itemsToDelete all = all) as HD.
  { apply filter_all. intros it Hit. by destruct (Hall it Hit) as [-> ->]. }
  assert (itemsToUpdate all = []) as HU.
  { apply filter_none. intros it Hit.
    destruct (Hall it Hit) as [-> ->]. done. }
  assert (itemsToInsert all = []) as HI.
  { apply filter_none. intros it Hit.
    destruct (Hall it Hit) as [-> ->]. done. }
  assert (length (filter (λ r, id_in (sort_key <$> all) r
                               ∧ order_no_is order_no r) t)
          = length (sort_key <$> all)) as Hcount.
  { apply verify_count_iff; [done|]. split; [done|].
    intros i Hi. by apply Hcover. }
  assert (filter (λ r, ¬ (id_in (sort_key <$> all) r
                          ∧ order_no_is order_no r)) t
          = other_orders order_no t) as Hleft.
  { apply filter_iff_in. intros r Hr. split; [|tauto].
    intros Hn Ho. apply Hn. split; [|done].
    destruct (Hids r Hr) as (i & Hi & _). exists i. split; [|done].
    apply Hcover. by exists r. }
  assert (commonOrderDetails today all = defaultOrderDetails today) as HC.
  { unfold commonOrderDetails, validItems.
    rewrite filter_none; [reflexivity|]. intros it Hit.
    destruct (Hall it Hit) as [-> _]. discriminate. }
  intros Hcast.
  unfold phases. apply satisfies_bind, satisfies_select. cbv zeta.
  rewrite Hex. cbn [negb andb]. rewrite HD, HU, HI, HC.
  (* the delete phase *)
  apply satisfies_bind. unfold delete_phase. cbv zeta. rewrite Hlen.
  apply satisfies_bind, satisfies_bind, satisfies_select.
  rewrite decide_False by (intros Hne'; apply Hne'; exact Hcount).
  apply satisfies_ret, satisfies_bind, satisfies_delete, satisfies_ret.
  (* nothing to update or insert *)
  cbn [update_phase]. apply satisfies_bind, satisfies_ret.
  unfold insert_phase. cbn [fmap list_fmap insert_loop].
  apply satisfies_bind, satisfies_ret.
  (* the broadcast finds no row *)
  unfold broadcast_phase. cbn [orb].
  apply satisfies_bind, satisfies_update.
  rewrite Hcast.
  apply satisfies_ret. split; [reflexivity|]. split; [|reflexivity].
  rewrite Hleft.
  apply set_where_none. intros r [Hr _]%list_elem_of_filter. exact Hr.
Qed.
End DeleteAll.

(** X9: deleting every line of an order, each once, and inserting none
    succeeds in a store that accepts the default header: the response holds
    no row, the rows of the order are gone and the other rows are as before. *)
Theorem delete_all_lines store_cast today order_no body s stored :
  wf_store s → all_space order_no = false → body ≠ [] →
  (∀ it, it ∈ body → is_deleted it = true ∧ has_id it = true) →
  NoDup (sort_key <$> body) →
  (∀ i, i ∈ sort_key <$> body ↔ owned order_no (rows s) i) →
  cast_all store_cast (commonValues (defaultOrderDetails today)) = Ok stored →
  let out := put_orders_by_number store_cast today order_no body s in
  is_success out.1 = true ∧ response_data out.1 = [] ∧
  deleted (response_operations out.1) = length body ∧
  out.2 = {| rows := other_orders order_no (rows s); next_id := next_id s |}.
Proof.
  intros Hwf Ho Hb Hall Hdistinct Hcover Hcast out.
  assert (Hperm : allItems body ≡ₚ body) by apply js_sort_perm.
  assert (Hsat := phases_delete_all store_cast today order_no (allItems body)
                    stored (rows s) (rows s) (next_id s) Hwf).
  assert (allItems body ≠ []) as Hne.
  { clear Hcast Hsat. intros Hnil. rewrite Hnil in Hperm.
    by apply Permutation_nil in Hperm. }
  assert (∀ it, it ∈ allItems body
                → is_deleted it = true ∧ has_id it = true) as Hall'.
  { clear Hcast Hsat. intros it Hit. apply Hall. by rewrite <- Hperm. }
  assert (NoDup (sort_key <$> allItems body)) as Hdistinct'.
  { clear Hcast Hsat. by rewrite Hperm. }
  assert (∀ i, i ∈ sort_key <$> allItems body ↔ owned order_no (rows s) i)
    as Hcover'.
  { clear Hcast Hsat. intros i. by rewrite Hperm. }
  specialize (Hsat Hne Hall' Hdistinct' Hcover' Hcast).
  clear Hcast.
  destruct (phases store_cast today order_no (allItems body)
              (query_begin (connect s)).2) as [r c] eqn:Hp.
  pose proof Hp as Hp'.
  apply (satisfies_elim _ _ _ _ _ _ _ Hsat) in Hp'
    as (t' & n' & -> & -> & -> & ->).
  unfold out. rewrite put_run, Hp by done. cbn [fst snd].
  cbn [is_success response_data response_operations deleted visible tx
       in_tx seq].
  assert (filter (order_no_is order_no) (other_orders order_no (rows s))
          = []) as ->.
  { apply filter_none. by intros r [Hr _]%list_elem_of_filter. }
  split; [done|]. split; [done|]. split; [|done].
  unfold itemsToDelete. rewrite filter_all.
  - unfold allItems. apply length_js_sort.
  - intros it Hit. by destruct (Hall' it Hit) as [-> ->].
Qed.

(** The store of the examples accepts every parameter. *)
Lemma cast_all_accept_all (m : gmap string value) :
  cast_all accept_all m = Ok (map_imap accept_all m).
Proof.
  unfold cast_all. rewrite filter_none; [done|]. by intros [k v] _.
Qed.

Lemma delete_all_lines_witness :
  let out := put_orders_by_number accept_all "2024-06-05" "A"
               [Item (Some 1) (Some (VBool true)) ∅] example_store in
  is_success out.1 = true ∧ response_data out.1 = [] ∧
  rows out.2 = other_orders "A" (rows example_store).
Proof.
  intros out.
  destruct (delete_all_lines accept_all "2024-06-05" "A"
              [Item (Some 1) (Some (VBool true)) ∅] example_store
              (map_imap accept_all
                 (commonValues (defaultOrderDetails "2024-06-05"))))
    as (Hok & Hdata & _ & Hout).
  - exact example_store_wf.
  - reflexivity.
  - discriminate.
  - intros it Hit. apply list_elem_of_singleton in Hit. by rewrite Hit.
  - apply NoDup_singleton.
  - intros i. cbn [fmap list_fmap]. rewrite list_elem_of_singleton. split.
    + intros ->. exists row_1. split; [by left|]. split; reflexivity.
    + intros (r & Hr & Hid & Hor).
      apply elem_of_cons in Hr as [->|Hr].
      * unfold id_is in Hid. by injection Hid as <-.
      * apply list_elem_of_singleton in Hr as ->. discriminate Hor.
  - apply cast_all_accept_all.
  - split; [exact Hok|]. split; [exact Hdata|].
    fold out in Hout. by rewrite Hout.
Defined.

(** ** What an update descriptor writes *)

(** Two facts about one run hold together. *)
Lemma satisfies_conj {A} (m : M A) k t n (post1 post2 : result A → _) :
  satisfies m k t n post1 → satisfies m k t n post2 →
  satisfies m k t n (λ r t' n', post1 r t' n' ∧ post2 r t' n').
Proof.
  intros (r & t' & n' & Hm & H1) (r2 & t2 & n2 & Hm2 & H2).
  rewrite Hm in Hm2. injection Hm2 as <- <- <-.
  exists r, t', n'. done.
Qed.

Section Applied.
Variable store_cast : string → value → option value.
Variable order_no : string.
Variable i : Z.
Variable f : string.
Variable v : value.
Hypothesis f_allowed : f ∈ allowedFields.
Hypothesis f_line : f ∉ commonFields.

Local Abbreviation applied := (applied store_cast order_no i f v).

Lemma f_not_key : f ≠ "id" ∧ f ≠ "order_no".
Proof.
  split; intros ->; revert f_allowed; compute_done.
Qed.

(** An [UPDATE] that does not select row [i] leaves it as it is. *)
Lemma applied_set_other p `{!∀ r, Decision (p r)} stored
    (t : list (gmap string value)) :
  stored !! "id" = None →
  (∀ r, p r → ¬ id_is i r) → applied t → applied (set_where p stored <$> t).
Proof.
  intros Hsid Hp [(r0 & Hr0 & Hid0 & Ho0) Hall].
  assert (Hsame : ∀ r, id_is i (set_where p stored r) →
                       set_where p stored r = r ∧ id_is i r).
  { intros r. unfold set_where. case_decide as Hpr; [|done].
    unfold id_is. rewrite lookup_union_r by done. intros Hr.
    by destruct (Hp r). }
  split.
  - exists r0. split; [|done]. apply list_elem_of_fmap. exists r0.
    split; [|done]. unfold set_where. rewrite decide_False; [done|].
    intros Hpr. by apply (Hp r0).
  - intros r' (r & -> & Hr)%list_elem_of_fmap Hid Ho.
    destruct (Hsame r Hid) as [Heq Hir]. rewrite Heq in *. eauto.
Qed.

(** An [UPDATE] that sets other columns keeps column [f] of row [i]. *)
Lemma applied_set_columns p `{!∀ r, Decision (p r)} stored
    (t : list (gmap string value)) :
  stored !! "id" = None → stored !! "order_no" = None → stored !! f = None →
  applied t → applied (set_where p stored <$> t).
Proof.
  intros Hsid Hso Hsf [(r0 & Hr0 & Hid0 & Ho0) Hall].
  assert (Hkeep : ∀ r, keys (set_where p stored r) = keys r
                       ∧ set_where p stored r !! f = r !! f).
  { intros r. split; [by apply keys_set_where|].
    unfold set_where. case_decide; [|done]. by apply lookup_union_r. }
  split.
  - exists (set_where p stored r0).
    split; [apply list_elem_of_fmap; eauto|].
    destruct (Hkeep r0) as [[= Hk1 Hk2] _].
    unfold id_is, order_no_is in *. split; congruence.
  - intros r' (r & -> & Hr)%list_elem_of_fmap Hid Ho.
    destruct (Hkeep r) as [[= Hk1 Hk2] Hf].
    rewrite Hf. apply Hall; [done|..]; unfold id_is, order_no_is in *;
      congruence.
Qed.

(** An [UPDATE] of row [i] that sets column [f] to [v], and finds the row. *)
Lemma applied_set_this sets stored (t : list (gmap string value)) :
  cast_all store_cast sets = Ok stored →
  sets !! "id" = None → sets !! "order_no" = None → sets !! f = Some v →
  filter (λ r, id_is i r ∧ order_no_is order_no r) t ≠ [] →
  applied (set_where (λ r, id_is i r ∧ order_no_is order_no r) stored <$> t).
Proof.
  intros Hcast Hsid Hso Hsf Hfound.
  pose proof (cast_all_lookup_None _ _ _ "id" Hcast Hsid) as Hid.
  pose proof (cast_all_lookup_None _ _ _ "order_no" Hcast Hso) as Ho.
  pose proof (cast_all_lookup _ _ _ f Hcast) as Hf. rewrite Hsf in Hf.
  destruct (cast_all_lookup_Some _ _ _ f v Hcast Hsf) as [w Hw].
  rewrite Hw in Hf. cbn [mbind option_bind] in Hf.
  split.
  - destruct (filter _ t) as [|r0 rest] eqn:Hfilter; [done|].
    assert (r0 ∈ filter (λ r, id_is i r ∧ order_no_is order_no r) t)
      as [[Hi0 Ho0] Hr0]%list_elem_of_filter by (rewrite Hfilter; left).
    exists (stored ∪ r0). split.
    + apply list_elem_of_fmap. exists r0. split; [|done].
      unfold set_where. by rewrite decide_True.
    + unfold id_is, order_no_is in *.
      by rewrite !lookup_union_r by done.
  - intros r' (r & -> & Hr)%list_elem_of_fmap Hir Hor.
    assert (keys (set_where (λ r, id_is i r ∧ order_no_is order_no r)
                    stored r) = keys r) as [= Hk1 Hk2]
      by by apply keys_set_where.
    unfold set_where in *. rewrite decide_True.
    + exists w. split; [done|]. by apply lookup_union_Some_l.
    + unfold id_is, order_no_is in *. split; congruence.
Qed.

(** An [INSERT] under a fresh id. *)
Lemma applied_insert stored (t : list (gmap string value)) n :
  i < n → applied t → applied (t ++ [<["id" := VNum n]> stored]).
Proof.
  intros Hlt [(r0 & Hr0 & Hid0 & Ho0) Hall]. split.
  - exists r0. split; [|done]. apply elem_of_app. by left.
  - intros r [Hr|Hr]%elem_of_app Hid Ho; [eauto|].
    apply list_elem_of_singleton in Hr as ->.
    unfold id_is in Hid. rewrite lookup_insert_eq in Hid.
    injection Hid as ->. lia.
Qed.

Lemma update_one_applies orderExists update k t n :
  (sort_key update = i → fields update !! f = Some v) →
  satisfies (update_one store_cast orderExists order_no update) k t n
    (λ r t' n',
       r = Ok () → (applied t → applied t')
                   ∧ (sort_key update = i → applied t')).
Proof.
  intros Hagree. unfold update_one. cbv zeta.
  apply satisfies_bind.
  assert (Hmain : satisfies
            (if decide (filteredFields (fields update) = ∅) then mret ()
             else
               rowCount ← sql_update store_cast
                            (λ r, id_is (sort_key update) r
                                  ∧ order_no_is order_no r)
                            (filteredFields (fields update));
               if decide (rowCount = 0%nat)
               then throw (NoRecordFound (sort_key update) order_no)
               else mret ())
            k t n
            (λ r t' n',
               r = Ok () → (applied t → applied t')
                           ∧ (sort_key update = i → applied t'))).
  { case_decide as Hempty.
    { apply satisfies_ret. intros _. split; [done|]. intros Hi.
      pose proof (Hagree Hi) as Hf.
      assert (filteredFields (fields update) !! f = Some v) as Hin
        by by apply map_lookup_filter_Some.
      rewrite Hempty in Hin. done. }
    apply satisfies_bind, satisfies_update.
    destruct (cast_all store_cast _) as [stored|e] eqn:Hcast; [|done].
    case_decide as Hcount; [by apply satisfies_throw|].
    apply satisfies_ret. intros _.
    destruct (filteredFields_keys (fields update)) as [Hkid Hko].
    destruct (decide (sort_key update = i)) as [Hi|Hi].
    - assert (applied (set_where
                         (λ r, id_is (sort_key update) r
                               ∧ order_no_is order_no r) stored <$> t)).
      { rewrite Hi in *.
        apply (applied_set_this (filteredFields (fields update)));
          [done..| |].
        - apply map_lookup_filter_Some. split; [by apply Hagree|done].
        - intros Hnil. apply Hcount. by rewrite Hnil. }
      done.
    - split; [|done]. apply applied_set_other.
      { eapply cast_all_lookup_None; [exact Hcast|done]. }
      intros r [Hr _] Hir. unfold id_is in *. congruence. }
  destruct orderExists; [|by apply satisfies_ret].
  apply satisfies_bind, satisfies_select.
  destruct (filter _ t) as [|r rest]; [by apply satisfies_throw|].
  destruct (decide (_ ≠ _)); [by apply satisfies_throw|].
  by apply satisfies_ret.
Qed.

Lemma update_phase_applies orderExists toUpdate : ∀ k t n,
  (∀ u, u ∈ toUpdate → sort_key u = i → fields u !! f = Some v) →
  satisfies (update_phase store_cast orderExists order_no toUpdate) k t n
    (λ r t' n',
       r = Ok () → (applied t → applied t')
                   ∧ ((∃ u, u ∈ toUpdate ∧ sort_key u = i) → applied t')).
Proof.
  induction toUpdate as [|u l IH]; intros k t n Hagree.
  { apply satisfies_ret. intros _. split; [done|].
    by intros (u & ?%elem_of_nil & _). }
  cbn [update_phase]. apply satisfies_bind.
  eapply satisfies_mono.
  { apply update_one_applies. intros Hi. apply Hagree; [left|done]. }
  intros [[]|e] t1 n1 Hone; [|done].
  destruct (Hone eq_refl) as [Hkeep1 Hthis].
  eapply satisfies_mono.
  { apply IH. intros u' Hu'. apply Hagree. by right. }
  intros r t2 n2 Hrest ->. destruct (Hrest eq_refl) as [Hkeep2 Hlater].
  split; [auto|].
  intros (u' & [->|Hu']%elem_of_cons & Hi); [auto|].
  apply Hlater. eauto.
Qed.

Lemma insert_loop_applies insertData : ∀ index k t n,
  i < n →
  satisfies (insert_loop store_cast index insertData) k t n
    (λ _ t' _, applied t → applied t').
Proof.
  induction insertData as [|x l IH]; intros index k t n Hlt.
  { by apply satisfies_ret. }
  cbn [insert_loop]. apply satisfies_bind, satisfies_catch, satisfies_insert.
  destruct (cast_all store_cast x) as [stored|e]; [|by apply satisfies_throw].
  apply satisfies_bind. eapply satisfies_mono.
  { apply (IH (S index)). lia. }
  intros [ids|e] t' n' Hrest.
  - apply satisfies_ret. intros Ht. by apply Hrest, applied_insert.
  - intros Ht. by apply Hrest, applied_insert.
Qed.

Lemma broadcast_phase_applies orderExists common toInsert k t n :
  satisfies (broadcast_phase store_cast orderExists order_no common toInsert)
    k t n (λ _ t' _, applied t → applied t').
Proof.
  unfold broadcast_phase. destruct (_ || _); [|by apply satisfies_ret].
  apply satisfies_bind, satisfies_update.
  destruct (cast_all store_cast _) as [stored|e] eqn:Hcast; [|done].
  apply satisfies_ret.
  destruct (commonValues_keys common) as [Hid Ho].
  apply applied_set_columns.
  - eapply cast_all_lookup_None; [exact Hcast|exact Hid].
  - eapply cast_all_lookup_None; [exact Hcast|exact Ho].
  - eapply cast_all_lookup_None; [exact Hcast|].
    unfold commonValues. rewrite lookup_tabulate.
    rewrite decide_False; [reflexivity|exact f_line].
Qed.

Lemma phases_apply today all k t n :
  wf_table t n →
  (∃ u, u ∈ itemsToUpdate all ∧ sort_key u = i) →
  (∀ u, u ∈ itemsToUpdate all → sort_key u = i → fields u !! f = Some v) →
  satisfies (phases store_cast today order_no all) k t n
    (λ r t' _, r = Ok () → applied t').
Proof.
  intros [_ Hids] Hex Hagree. unfold phases.
  apply satisfies_bind, satisfies_select. cbv zeta.
  destruct (negb _ && _); [by apply satisfies_throw|].
  apply satisfies_bind. eapply satisfies_mono.
  { exact (rowwise_delete_phase stays stays_refl stays_trans
             (@stays_filter) _ order_no _ k t n). }
  intros [[]|e] t1 n1 Hst1; [|done].
  apply satisfies_bind. eapply satisfies_mono.
  { apply satisfies_conj.
    - exact (rowwise_update_phase store_cast stays stays_refl stays_trans
               (@stays_set) _ order_no _ k t1 n1).
    - by apply update_phase_applies. }
  intros [[]|e] t2 n2 [Hst2 Happ]; [|done].
  destruct (Happ eq_refl) as [_ Hthis]. specialize (Hthis Hex).
  assert (i < n2) as Hlt.
  { destruct Hthis as [(r2 & Hr2 & Hid2 & _) _].
    destruct (stays_trans _ _ _ _ _ _ Hst1 Hst2) as [-> Hrows].
    destruct (Hrows r2 Hr2) as (r & Hr & [= Hk _]).
    destruct (Hids r Hr) as (j & Hj & Hjn).
    unfold id_is in Hid2. rewrite Hk, Hj in Hid2. by injection Hid2 as <-. }
  apply satisfies_bind. eapply satisfies_mono.
  { by apply insert_loop_applies. }
  intros [ids|e] t3 n3 Hins; [|done].
  eapply satisfies_mono; [apply broadcast_phase_applies|].
  intros r t4 n4 Hbc _. auto.
Qed.
End Applied.

(** X10: in a success response, the row of an update descriptor holds in each
    allowlisted line column the descriptor names what the store keeps of the
    descriptor's value, when the update descriptors of that id agree on it. *)
Theorem update_writes_field store_cast today order_no body s resp s' u f v :
  put_orders_by_number store_cast today order_no body s = (resp, s') →
  is_success resp = true →
  wf_store s →
  u ∈ body → has_id u = true → is_deleted u = false →
  f ∈ allowedFields → f ∉ commonFields →
  (∀ u', u' ∈ body → has_id u' = true → is_deleted u' = false →
         sort_key u' = sort_key u → fields u' !! f = Some v) →
  ∃ r w, r ∈ response_data resp ∧ r ∈ rows s' ∧
         id_is (sort_key u) r ∧ order_no_is order_no r ∧
         store_cast f v = Some w ∧ r !! f = Some w.
Proof.
  intros Hput Hok Hwf Hu Hid Hdel Hf Hline Hagree.
  destruct (put_ok_run _ _ _ _ _ _ _ Hput Hok)
    as (_ & _ & c & Hrun & -> & Hdata & _).
  assert (Hupd : ∀ u', u' ∈ itemsToUpdate (allItems body)
                       ↔ u' ∈ body ∧ has_id u' = true
                         ∧ is_deleted u' = false).
  { intros u'. unfold itemsToUpdate.
    rewrite list_elem_of_filter, elem_of_allItems.
    destruct (has_id u'), (is_deleted u'); simpl; intuition congruence. }
  apply (satisfies_elim _ _ _ _ _ _ _
           (phases_apply store_cast order_no (sort_key u) f v Hf Hline
              today (allItems body) _ _ _ Hwf
              ltac:(exists u; split; [by apply Hupd|done])
              ltac:(intros u' (? & ? & ?)%Hupd ?; by apply Hagree)))
    in Hrun as (t' & n' & -> & Happ).
  destruct (Happ eq_refl) as [(r & Hr & Hir & Hor) Hall].
  destruct (Hall r Hr Hir Hor) as (w & Hw & Hrf).
  exists r, w. cbn [rows visible tx in_tx] in *.
  rewrite Hdata, elem_of_js_sort, list_elem_of_filter. done.
Qed.

Lemma update_writes_field_witness :
  let out := put_orders_by_number accept_all "2024-06-05" "A" example_batch
               example_store in
  is_success out.1 = true ∧
  ∃ r w, r ∈ response_data out.1 ∧ r ∈ rows out.2 ∧
         id_is 1 r ∧ order_no_is "A" r ∧
         accept_all "quantity" (VNum 3) = Some w ∧ r !! "quantity" = Some w.
Proof.
  intros out.
  assert (is_success out.1 = true) as Hok by (vm_compute; reflexivity).
  split; [exact Hok|].
  apply (update_writes_field accept_all "2024-06-05" "A" example_batch
           example_store out.1 out.2
           (Item (Some 1) None {[ "quantity" := VNum 3 ]}) "quantity"
           (VNum 3) (surjective_pairing out) Hok example_store_wf).
  - right. left.
  - reflexivity.
  - reflexivity.
  - compute_done.
  - compute_done.
  - intros u' Hu' Hid' Hdel' Hkey.
    apply elem_of_cons in Hu' as [->|Hu']; [discriminate Hid'|].
    apply list_elem_of_singleton in Hu' as ->. reflexivity.
Defined.

(** ** What an insert descriptor writes *)

(** The stable sort leaves a list of equal keys as it is. *)
Lemma js_sort_const {A} (key : A → Z) c (l : list A) :
  (∀ x, x ∈ l → key x = c) → js_sort key l = l.
Proof.
  induction l as [|x l IH]; intros Hc; [done|].
  cbn [js_sort foldr]. fold (js_sort key l).
  rewrite IH by (intros y Hy; apply Hc; by right).
  destruct l as [|y l']; [done|]. cbn [sort_insert].
  rewrite (Hc x), (Hc y) by (repeat constructor).
  by rewrite Z.leb_refl.
Qed.

(** The descriptors to insert are taken in the order of the body: the sort
    does not move them among themselves. *)
Lemma itemsToInsert_allItems body :
  itemsToInsert (allItems body) = itemsToInsert body.
Proof.
  unfold itemsToInsert, allItems. rewrite filter_js_sort.
  apply (js_sort_const _ 0). intros it [Hit _]%list_elem_of_filter.
  unfold has_id, sort_key in *. destruct (id it) as [n|]; [|done].
  destruct (Z.eqb_spec n 0); [done|]. by destruct (is_deleted it).
Qed.

(** An inserted row takes its header columns from the resolved header. *)
Lemma insertItem_common order_no common newItem c :
  c ∈ commonFields →
  insertItem order_no common newItem !! c = Some (param common c).
Proof.
  intros Hc. unfold commonFields in Hc.
  repeat (apply elem_of_cons in Hc as [->|Hc]);
    [unfold insertItem; cbv zeta; cbn [list_to_map foldr fst snd];
     repeat (rewrite lookup_insert_ne by discriminate);
     apply lookup_insert_eq ..|].
  by apply elem_of_nil in Hc.
Qed.

Section Inserted.
Variable store_cast : string → value → option value.

(** The header broadcast finds its values already in an inserted row. *)
Lemma set_where_inserted p `{!∀ r, Decision (p r)} order_no common newItem
    stored_c stored (i : Z) :
  cast_all store_cast (commonValues common) = Ok stored_c →
  cast_all store_cast (insertItem order_no common newItem) = Ok stored →
  set_where p stored_c (<["id" := VNum i]> stored)
  = <["id" := VNum i]> stored.
Proof.
  intros Hc Hs. unfold set_where. case_decide; [|done].
  apply map_subseteq_union, map_subseteq_spec. intros c w Hw.
  pose proof (cast_all_lookup _ _ _ c Hc) as Hlook. rewrite Hw in Hlook.
  unfold commonValues in Hlook. rewrite lookup_tabulate in Hlook.
  destruct (decide (c ∈ commonFields)) as [Hin|]; [|discriminate Hlook].
  assert (c ≠ "id") as Hne by (intros ->; revert Hin; compute_done).
  rewrite lookup_insert_ne by done.
  rewrite (cast_all_lookup _ _ _ c Hs), insertItem_common by exact Hin.
  symmetry. exact Hlook.
Qed.

(** The rows the insert loop appends. *)
Lemma insert_loop_run insertData : ∀ index k t n,
  satisfies (insert_loop store_cast index insertData) k t n (λ r t' n',
    ∀ ids, r = Ok ids →
      ∃ storeds,
        Forall2 (λ cols stored, cast_all store_cast cols = Ok stored)
                insertData storeds ∧
        t' = t ++ zip_with (λ i stored, <["id" := VNum i]> stored)
                    (seqZ n (Z.of_nat (length insertData))) storeds).
Proof.
  induction insertData as [|x l IH]; intros index k t n.
  { apply satisfies_ret. intros ids _. exists []. split; [constructor|].
    by rewrite app_nil_r. }
  cbn [insert_loop]. apply satisfies_bind, satisfies_catch, satisfies_insert.
  destruct (cast_all store_cast x) as [stored|e] eqn:Hx;
    [|by apply satisfies_throw].
  apply satisfies_bind.
  eapply satisfies_mono; [apply (IH (S index))|].
  intros [ids|e] t' n' Hrest; [|done].
  apply satisfies_ret. intros ? _.
  destruct (Hrest ids eq_refl) as (storeds & Hall & ->).
  exists (stored :: storeds). split; [by constructor|].
  rewrite length_cons, Nat2Z.inj_succ, (seqZ_cons n) by lia.
  cbn [zip_with]. rewrite <- app_assoc. cbn [app].
  do 4 f_equal; lia.
Qed.

Lemma phases_insert_rows today order_no all k t n :
  satisfies (phases store_cast today order_no all) k t n (λ r t' _,
    r = Ok () →
    ∃ kept storeds,
      (∀ r', r' ∈ kept → ∃ r0, r0 ∈ t ∧ keys r' = keys r0) ∧
      Forall2 (λ it stored,
                 cast_all store_cast
                   (insertItem order_no (commonOrderDetails today all) it)
                 = Ok stored)
              (itemsToInsert all) storeds ∧
      t' = kept ++ zip_with (λ i stored, <["id" := VNum i]> stored)
                     (seqZ n (Z.of_nat (length (itemsToInsert all))))
                     storeds).
Proof.
  unfold phases. apply satisfies_bind, satisfies_select. cbv zeta.
  destruct (negb _ && _); [by apply satisfies_throw|].
  apply satisfies_bind. eapply satisfies_mono.
  { exact (rowwise_delete_phase stays stays_refl stays_trans
             (@stays_filter) _ order_no _ k t n). }
  intros [[]|e] t1 n1 Hst1; [|done].
  apply satisfies_bind. eapply satisfies_mono.
  { exact (rowwise_update_phase store_cast stays stays_refl stays_trans
             (@stays_set) _ order_no _ k t1 n1). }
  intros [[]|e] t2 n2 Hst2; [|done].
  destruct (stays_trans _ _ _ _ _ _ Hst1 Hst2) as [-> Hkept].
  apply satisfies_bind. unfold insert_phase. eapply satisfies_mono.
  { apply insert_loop_run. }
  intros [ids|e] t3 n3 Hins; [|done].
  destruct (Hins ids eq_refl) as (storeds & Hall & ->).
  rewrite length_fmap. apply Forall2_fmap_l in Hall.
  unfold broadcast_phase. destruct (_ || _).
  2:{ apply satisfies_ret. intros _. exists t2, storeds. done. }
  apply satisfies_bind, satisfies_update.
  destruct (cast_all store_cast (commonValues _)) as [stored_c|e] eqn:Hc;
    [|done].
  apply satisfies_ret. intros _.
  exists (set_where (order_no_is order_no) stored_c <$> t2), storeds.
  split.
  { intros r' (r & -> & Hr)%list_elem_of_fmap.
    destruct (Hkept r Hr) as (r0 & Hr0 & Hk). exists r0. split; [done|].
    rewrite <- Hk. destruct (commonValues_keys (commonOrderDetails today all))
      as [Hcid Hco].
    apply keys_set_where.
    - eapply cast_all_lookup_None; [exact Hc|exact Hcid].
    - eapply cast_all_lookup_None; [exact Hc|exact Hco]. }
  split; [exact Hall|].
  rewrite fmap_app. f_equal.
  apply list_eq. intros j. rewrite list_lookup_fmap.
  destruct (zip_with _ _ storeds !! j) as [r|] eqn:Hj; [|done].
  apply lookup_zip_with_Some in Hj as (i & stored & -> & _ & Hst).
  destruct (Forall2_lookup_r _ _ _ _ _ Hall Hst) as (it & _ & Hit).
  cbn [fmap option_fmap option_map]. f_equal.
  by eapply set_where_inserted.
Qed.
End Inserted.

(** X11: a successful reconciliation appends one row per descriptor to insert,
    in the order of the body, after the rows it kept; the row of the j-th
    holds what the store keeps of its [insertItem], under the j-th next id,
    and the header broadcast leaves it as inserted. *)
Theorem insert_writes_rows store_cast today order_no body s resp s' :
  put_orders_by_number store_cast today order_no body s = (resp, s') →
  is_success resp = true →
  ∃ kept,
    (∀ r, r ∈ kept → ∃ r0, r0 ∈ rows s ∧ keys r = keys r0) ∧
    length (rows s') = (length kept + length (itemsToInsert body))%nat ∧
    take (length kept) (rows s') = kept ∧
    ∀ (j : nat) it, itemsToInsert body !! j = Some it →
      ∃ stored,
        cast_all store_cast
          (insertItem order_no (commonOrderDetails today (allItems body)) it)
        = Ok stored ∧
        rows s' !! (length kept + j)%nat
        = Some (<["id" := VNum (next_id s + Z.of_nat j)]> stored).
Proof.
  intros Hput Hok.
  destruct (put_ok_run _ _ _ _ _ _ _ Hput Hok)
    as (_ & _ & c & Hrun & -> & _).
  apply (satisfies_elim _ _ _ _ _ _ _
           (phases_insert_rows store_cast today order_no (allItems body)
              _ _ _)) in Hrun as (t' & n' & -> & Hrows).
  destruct (Hrows eq_refl) as (kept & storeds & Hkept & Hall & ->).
  rewrite itemsToInsert_allItems in *.
  cbn [rows visible tx in_tx committed release] in *.
  pose proof (Forall2_length _ _ _ Hall) as Hlen.
  exists kept. split; [exact Hkept|].
  split.
  { rewrite length_app, length_zip_with, length_seqZ. lia. }
  split; [by rewrite take_app_length|].
  intros j it Hj.
  destruct (Forall2_lookup_l _ _ _ _ _ Hall Hj) as (stored & Hst & Hcast).
  exists stored. split; [exact Hcast|].
  rewrite lookup_app_r by lia.
  replace (length kept + j - length kept)%nat with j by lia.
  apply lookup_zip_with_Some. exists (next_id s + Z.of_nat j), stored.
  split; [done|]. split; [|done].
  apply lookup_seqZ. split; [done|].
  apply lookup_lt_Some in Hj. lia.
Qed.

Lemma insert_writes_rows_witness :
  let out := put_orders_by_number accept_all "2024-06-05" "A" example_batch
               example_store in
  is_success out.1 = true ∧
  ∃ kept,
    (∀ r, r ∈ kept → ∃ r0, r0 ∈ rows example_store ∧ keys r = keys r0) ∧
    length (rows out.2)
    = (length kept + length (itemsToInsert example_batch))%nat ∧
    take (length kept) (rows out.2) = kept ∧
    ∀ (j : nat) it, itemsToInsert example_batch !! j = Some it →
      ∃ stored,
        cast_all accept_all
          (insertItem "A"
             (commonOrderDetails "2024-06-05" (allItems example_batch)) it)
        = Ok stored ∧
        rows out.2 !! (length kept + j)%nat
        = Some (<["id" := VNum (next_id example_store + Z.of_nat j)]> stored).
Proof.
  intros out.
  assert (is_success out.1 = true) as Hok by (vm_compute; reflexivity).
  split; [exact Hok|].
  exact (insert_writes_rows accept_all "2024-06-05" "A" example_batch
           example_store out.1 out.2 (surjective_pairing out) Hok).
Defined.

(** ** [POST /orders] *)

Section PostFacts.
Variable store_cast : string → value → option value.

(** The rows a run of inserts appends: the stored columns with the ids the
    sequence hands out. *)
Lemma insertPromises_run data : ∀ k t n,
  satisfies (insertPromises store_cast data) k t n (λ r t' n',
    n ≤ n' ≤ n + Z.of_nat (length data) ∧
    match r with
    | Ok ids =>
        ∃ storeds,
          Forall2 (λ item stored,
                     cast_all store_cast (insertParams item) = Ok stored)
                  data storeds ∧
          ids = seqZ n (Z.of_nat (length data)) ∧
          n' = n + Z.of_nat (length data) ∧
          t' = t ++ zip_with (λ i stored, <["id" := VNum i]> stored)
                      ids storeds
    | Throw e =>
        ∃ item, item ∈ data ∧
                cast_all store_cast (insertParams item) = Throw e
    end).
Proof.
  induction data as [|item rest IH]; intros k t n.
  { apply satisfies_ret. split; [simpl; lia|]. exists [].
    split; [constructor|]. split; [done|]. split; [simpl; lia|].
    by rewrite app_nil_r. }
  cbn [insertPromises]. apply satisfies_bind, satisfies_insert.
  rewrite length_cons, Nat2Z.inj_succ.
  destruct (cast_all store_cast (insertParams item)) as [stored|e] eqn:Hcast.
  2:{ split; [lia|]. exists item. split; [left|done]. }
  apply satisfies_bind. eapply satisfies_mono; [apply IH|].
  intros [ids|e] t' n' [Hn Hpost].
  - apply satisfies_ret. split; [lia|].
    destruct Hpost as (storeds & Hall & -> & -> & ->).
    exists (stored :: storeds). split; [by constructor|].
    assert (seqZ n (Z.succ (Z.of_nat (length rest)))
            = n :: seqZ (n + 1) (Z.of_nat (length rest))) as Hseq.
    { rewrite (seqZ_cons n) by lia. f_equal. f_equal; lia. }
    split; [by rewrite Hseq|]. split; [lia|].
    cbn [zip_with]. by rewrite <- app_assoc.
  - split; [lia|]. destruct Hpost as (item' & Hin & He).
    exists item'. split; [by right|done].
Qed.

(** The inserts keep the primary key. *)
Lemma insertPromises_wf data :
  preserves wf_kept (insertPromises store_cast data).
Proof.
  induction data as [|item rest IH]; cbn [insertPromises].
  { apply preserves_ret, wf_kept_refl. }
  apply preserves_bind; [exact wf_kept_trans| |].
  { apply rowwise_insert; [exact wf_kept_refl|exact wf_kept_insert]. }
  intros new_id. apply preserves_bind; [exact wf_kept_trans|exact IH|].
  intros ids. apply preserves_ret, wf_kept_refl.
Qed.

(** The handler past its guard, in terms of the inserts. *)
Lemma post_run data s :
  data ≠ [] →
  post_orders store_cast (DataArray data) s
  = match insertPromises store_cast data (in_tx (rows s) (rows s) (next_id s))
    with
    | (Ok ids, c) =>
        (PostJson200 (length ids) ids,
         {| rows := visible c; next_id := seq c |})
    | (Throw e, c) =>
        (PostJson500 e, {| rows := committed c; next_id := seq c |})
    end.
Proof.
  intros Hd. unfold post_orders.
  assert ((length data =? 0)%nat = false) as ->
    by (apply Nat.eqb_neq; by destruct data).
  unfold post_try. rewrite run_bind.
  change (query_begin (connect s))
    with (Ok (), in_tx (rows s) (rows s) (next_id s)).
  cbv iota. rewrite run_bind.
  destruct (insertPromises _ _ _) as [[ids|e] c]; reflexivity.
Qed.

(** A [try] block of [POST /orders] that succeeds has committed: the
    connection is released with no transaction open. *)
Lemma post_try_closed data s r c :
  post_try store_cast data (connect s) = (Ok r, c) → tx c = None.
Proof.
  unfold post_try. rewrite run_bind.
  change (query_begin (connect s))
    with (Ok (), in_tx (rows s) (rows s) (next_id s)).
  cbv iota. rewrite run_bind.
  destruct (insertPromises _ _ _) as [[ids|e] c1]; [|done].
  rewrite run_bind. cbn. by intros [= _ <-].
Qed.
End PostFacts.

(** The guard of [POST /orders]. *)
Lemma post_400_iff store_cast body s :
  ((∃ msg, (post_orders store_cast body s).1 = PostJson400 msg)
   ↔ ∀ data, body = DataArray data → data = []) ∧
  ((∀ data, body = DataArray data → data = []) →
   (post_orders store_cast body s).2 = s).
Proof.
  destruct body as [data|o].
  - destruct (decide (data = [])) as [->|Hd].
    + split; [|done]. split; [by intros _ ? [= <-]|]. intros _. by eexists.
    + rewrite post_run by done.
      split; [split|]; try (intros H; by destruct Hd; apply H).
      intros [msg Hmsg]. by destruct (insertPromises _ _ _) as [[ids|e] c].
  - split; [|done]. split; [done|]. intros _. by eexists.
Qed.

(** X15: whenever [POST /orders] does not answer with the inserted ids, the
    rows are those before the request. *)
Theorem post_all_or_nothing store_cast body s resp s' :
  post_orders store_cast body s = (resp, s') →
  post_ok resp = false →
  rows s' = rows s.
Proof.
  intros Hpost Hfail. destruct body as [data|o].
  - destruct (decide (data = [])) as [->|Hd].
    { by injection Hpost as _ <-. }
    rewrite post_run in Hpost by done.
    destruct (insertPromises _ _ _) as [r c] eqn:Hrun.
    apply (satisfies_elim _ _ _ _ _ _ _ (insertPromises_run _ _ _ _ _))
      in Hrun as (t' & n' & -> & _).
    destruct r as [ids|e]; injection Hpost as <- <-; done.
  - by injection Hpost as _ <-.
Qed.

(** A success response comes from a run in which the store accepted every
    item; the rows appended are what it keeps of them, under the next ids. *)
Lemma post_ok_run store_cast data s resp s' :
  post_orders store_cast (DataArray data) s = (resp, s') →
  post_ok resp = true →
  ∃ storeds,
    Forall2 (λ item stored,
               cast_all store_cast (insertParams item) = Ok stored)
            data storeds ∧
    resp = PostJson200 (length data)
             (seqZ (next_id s) (Z.of_nat (length data))) ∧
    s' = {| rows := rows s
                    ++ zip_with (λ i stored, <["id" := VNum i]> stored)
                         (seqZ (next_id s) (Z.of_nat (length data))) storeds;
            next_id := next_id s + Z.of_nat (length data) |}.
Proof.
  intros Hpost Hok.
  destruct (decide (data = [])) as [->|Hd].
  { injection Hpost as <- _. done. }
  rewrite post_run in Hpost by done.
  destruct (insertPromises _ _ _) as [r c] eqn:Hrun.
  apply (satisfies_elim _ _ _ _ _ _ _ (insertPromises_run _ _ _ _ _))
    in Hrun as (t' & n' & -> & _ & Hrun).
  destruct r as [ids|e]; injection Hpost as <- <-; [|done].
  destruct Hrun as (storeds & Hall & -> & -> & ->).
  exists storeds. split; [done|].
  by rewrite length_seqZ, Nat2Z.id.
Qed.

(** X16: a successful [POST /orders] appends one row per item, in the order
    of the body, after the rows that were there; the returned ids are the
    next ids of the sequence, one per item, and each new row holds what the
    store keeps of the item's parameters. *)
Theorem post_inserts_every_item store_cast data s resp s' :
  post_orders store_cast (DataArray data) s = (resp, s') →
  post_ok resp = true →
  resp = PostJson200 (length data)
           (seqZ (next_id s) (Z.of_nat (length data))) ∧
  next_id s' = next_id s + Z.of_nat (length data) ∧
  length (rows s') = (length (rows s) + length data)%nat ∧
  take (length (rows s)) (rows s') = rows s ∧
  ∀ (i : nat) item, data !! i = Some item →
    ∃ stored,
      cast_all store_cast (insertParams item) = Ok stored ∧
      rows s' !! (length (rows s) + i)%nat
      = Some (<["id" := VNum (next_id s + Z.of_nat i)]> stored).
Proof.
  intros Hpost Hok.
  destruct (post_ok_run _ _ _ _ _ Hpost Hok) as (storeds & Hall & -> & ->).
  cbn [rows next_id].
  pose proof (Forall2_length _ _ _ Hall) as Hlen.
  assert (length (zip_with (λ i stored, <["id" := VNum i]> stored)
                    (seqZ (next_id s) (Z.of_nat (length data))) storeds)
          = length data) as Hnew.
  { rewrite length_zip_with, length_seqZ. lia. }
  split; [done|]. split; [done|].
  split; [by rewrite length_app, Hnew|].
  split; [by rewrite take_app_length|].
  intros i item Hi.
  destruct (Forall2_lookup_l _ _ _ _ _ Hall Hi) as (stored & Hst & Hcast).
  exists stored. split; [done|].
  rewrite lookup_app_r by lia.
  replace (length (rows s) + i - length (rows s))%nat with i by lia.
  apply lookup_zip_with_Some. exists (next_id s + Z.of_nat i), stored.
  split; [done|]. split; [|done].
  apply lookup_seqZ. split; [done|].
  apply lookup_lt_Some in Hi. lia.
Qed.

(** X17: [POST /orders] keeps the primary key. *)
Theorem post_keeps_wf store_cast body s resp s' :
  wf_store s → post_orders store_cast body s = (resp, s') → wf_store s'.
Proof.
  intros Hwf Hpost. destruct body as [data|o].
  - destruct (decide (data = [])) as [->|Hd].
    { by injection Hpost as _ <-. }
    rewrite post_run in Hpost by done.
    destruct (insertPromises _ _ _) as [r c] eqn:Hrun.
    pose proof Hrun as Hrun'.
    apply (satisfies_elim _ _ _ _ _ _ _ (insertPromises_wf _ _ _ _ _))
      in Hrun as (t' & n' & -> & Hkept).
    apply (satisfies_elim _ _ _ _ _ _ _ (insertPromises_run _ _ _ _ _))
      in Hrun' as (t2 & n2 & Heq & Hn & _).
    injection Heq as _ <-.
    destruct r as [ids|e]; injection Hpost as _ <-.
    + by apply Hkept.
    + destruct Hwf as [Hnodup Hids]. split; [done|].
      cbn [rows next_id committed seq in_tx].
      intros r Hr. destruct (Hids r Hr) as (i & Hi & Hlt).
      exists i. split; [done|]. lia.
  - by injection Hpost as _ <-.
Qed.

(** An array body succeeds exactly when the store accepts every item. *)
Lemma post_accepted_iff store_cast data s :
  post_ok (post_orders store_cast (DataArray data) s).1 = true
  ↔ data ≠ [] ∧
    ∀ item, item ∈ data →
      ∃ stored, cast_all store_cast (insertParams item) = Ok stored.
Proof.
  destruct (decide (data = [])) as [->|Hd].
  { split; [done|]. by intros [? _]. }
  rewrite post_run by done.
  destruct (insertPromises _ _ _) as [r c] eqn:Hrun.
  apply (satisfies_elim _ _ _ _ _ _ _ (insertPromises_run _ _ _ _ _))
    in Hrun as (t' & n' & -> & _ & Hrun).
  destruct r as [ids|e]; cbn [fst post_ok].
  - split; [|done]. intros _. split; [done|].
    destruct Hrun as (storeds & Hall & _).
    intros item (i & Hi)%list_elem_of_lookup.
    destruct (Forall2_lookup_l _ _ _ _ _ Hall Hi) as (stored & _ & Hcast).
    eauto.
  - split; [done|]. intros [_ Hall].
    destruct Hrun as (item & Hin & He).
    destruct (Hall item Hin) as [stored Hst]. congruence.
Qed.

(** X14: the answer of [POST /orders]: 400 exactly when the body is not a
    non-empty array, and then the store is left as it was; success exactly
    when the body is a non-empty array and the store accepts the parameters
    of every item. *)
Theorem post_response_iff store_cast body s :
  ((∃ msg, (post_orders store_cast body s).1 = PostJson400 msg)
   ↔ ∀ data, body = DataArray data → data = []) ∧
  (post_ok (post_orders store_cast body s).1 = true
   ↔ ∃ data, body = DataArray data ∧ data ≠ [] ∧
       ∀ item, item ∈ data →
         ∃ stored, cast_all store_cast (insertParams item) = Ok stored) ∧
  ((∀ data, body = DataArray data → data = []) →
   (post_orders store_cast body s).2 = s).
Proof.
  destruct (post_400_iff store_cast body s) as [H400 Hsame].
  split; [exact H400|]. split; [|exact Hsame].
  destruct body as [data|o].
  - rewrite post_accepted_iff. split.
    + intros [Hd Hall]. by exists data.
    + intros (data' & [= <-] & Hd & Hall). done.
  - split; [done|]. by intros (data & Hbody & _).
Qed.


(** ** The [gst] parameter *)

Lemma match_percent_spaces w rest :
  all_space w = true → match_percent (w +:+ String "%" rest) = Some rest.
Proof.
  intros Hw. unfold match_percent. rewrite skip_space_app by done.
  by rewrite skip_space_ascii.
Qed.

(** No match starts at a digit. *)
Lemma match_percent_digit a s :
  is_digit a = true → match_percent (String a s) = None.
Proof.
  intros Ha. unfold match_percent. rewrite skip_space_digit by done.
  destruct (is_digit_not_special a Ha) as (_ & _ & _ & _ & _ & _ & ->).
  done.
Qed.

Lemma replace_percent_unfold s :
  replace_percent s
  = match match_percent s with
    | Some rest => rest
    | None =>
        match s with
        | String a s' => String a (replace_percent s')
        | EmptyString => EmptyString
        end
    end.
Proof. by destruct s. Qed.

(** The no-break space before [%] goes with it. *)
Lemma replace_percent_nbsp : replace_percent ("18" +:+ nbsp +:+ "%") = "18".
Proof. reflexivity. Qed.

(** A numeral followed by white space and [%] loses both. *)
Lemma replace_percent_digits d w rest :
  all_digits d = true → all_space w = true →
  replace_percent (d +:+ w +:+ String "%" rest) = d +:+ rest.
Proof.
  intros Hd Hw. induction d as [|a d IH].
  - change ("" +:+ ?x) with x.
    by rewrite replace_percent_unfold, match_percent_spaces.
  - simpl in Hd. apply andb_true_iff in Hd as [Ha Hd].
    change (String a d +:+ ?x) with (String a (d +:+ x)).
    rewrite replace_percent_unfold, match_percent_digit by done.
    by rewrite (IH Hd).
Qed.

Lemma replace_percent_all_digits s :
  all_digits s = true → replace_percent s = s.
Proof.
  induction s as [|a s IH]; [done|]. cbn [all_digits].
  intros [Ha Hs]%andb_true_iff.
  rewrite replace_percent_unfold, match_percent_digit by done.
  by rewrite (IH Hs).
Qed.

(** The decimal text of a number holds no [%]. *)
Lemma replace_percent_number n :
  replace_percent (number_toString (Some n)) = number_toString (Some n).
Proof.
  unfold number_toString.
  destruct n as [|p|p]; cbn [Z.to_int NilEmpty.string_of_int].
  - done.
  - apply replace_percent_all_digits, all_digits_uint.
  - rewrite replace_percent_unfold. unfold match_percent at 1.
    rewrite skip_space_ascii by done.
    change (Ascii.eqb "-" "%") with false.
    cbv iota. f_equal. apply replace_percent_all_digits, all_digits_uint.
Qed.

Ltac lookup_param :=
  unfold insertParams; cbn [list_to_map foldr fst snd];
  repeat (rewrite lookup_insert_ne by discriminate);
  apply lookup_insert_eq.

Lemma insertParams_gst item :
  insertParams item !! "gst"
  = Some (VStr (replace_percent (js_String (item !! "gst")))).
Proof. lookup_param. Qed.

(** X18: what [POST /orders] sends for the [gst] column: a percentage
    written with a trailing [%], with or without white space before it, is
    sent without it; a number that is a safe integer is sent as its decimal
    text; a missing gst is sent as the text [undefined] and a null one as
    [null]. *)
Theorem gst_parameter item :
  (∀ d w, all_digits d = true → all_space w = true →
          item !! "gst" = Some (VStr (d +:+ w +:+ "%")) →
          insertParams item !! "gst" = Some (VStr d)) ∧
  (∀ n, safe_integer n → item !! "gst" = Some (VNum n) →
        insertParams item !! "gst" = Some (VStr (number_toString (Some n)))) ∧
  (item !! "gst" = None →
   insertParams item !! "gst" = Some (VStr "undefined")) ∧
  (item !! "gst" = Some VNull →
   insertParams item !! "gst" = Some (VStr "null")).
Proof.
  rewrite insertParams_gst. repeat split.
  - intros d w Hd Hw ->. cbn [js_String].
    rewrite replace_percent_digits by done. f_equal. f_equal.
    clear. induction d as [|a d IH]; [done|].
    change (String a d +:+ ?x) with (String a (d +:+ x)). by f_equal.
  - intros n _ ->. cbn [js_String]. by rewrite replace_percent_number.
  - by intros ->.
  - by intros ->.
Qed.

(** X19: in a store whose [gst] column rejects the text [undefined], a body
    with an item that has no gst is refused as a whole: the answer is the
    failure response and no row is inserted. *)
Theorem post_missing_gst_rejected store_cast data item s :
  store_cast "gst" (VStr "undefined") = None →
  item ∈ data → item !! "gst" = None →
  ∃ e, (post_orders store_cast (DataArray data) s).1 = PostJson500 e ∧
       rows (post_orders store_cast (DataArray data) s).2 = rows s.
Proof.
  intros Hrej Hin Hgst.
  assert (data ≠ []) as Hd by (intros ->; by apply elem_of_nil in Hin).
  rewrite post_run by done.
  destruct (insertPromises _ _ _) as [r c] eqn:Hrun.
  apply (satisfies_elim _ _ _ _ _ _ _ (insertPromises_run _ _ _ _ _))
    in Hrun as (t' & n' & -> & _ & Hrun).
  destruct r as [ids|e]; [|by exists e].
  destruct Hrun as (storeds & Hall & _).
  apply list_elem_of_lookup in Hin as [i Hi].
  destruct (Forall2_lookup_l _ _ _ _ _ Hall Hi) as (stored & _ & Hcast).
  pose proof (cast_all_lookup _ _ _ "gst" Hcast) as Hlook.
  destruct (cast_all_lookup_Some _ _ _ "gst" _ Hcast (insertParams_gst item))
    as [v Hv].
  rewrite insertParams_gst, Hgst in Hlook.
  change (replace_percent (js_String None)) with "undefined" in Hlook.
  cbn [mbind option_bind] in Hlook.
  rewrite Hrej in Hlook. congruence.
Qed.

Lemma post_missing_gst_rejected_witness :
  ∃ e, (post_orders gst_numeric (DataArray [line_18; line_no_gst])
          example_store).1 = PostJson500 e ∧
       rows (post_orders gst_numeric (DataArray [line_18; line_no_gst])
               example_store).2 = rows example_store.
Proof.
  apply (post_missing_gst_rejected gst_numeric [line_18; line_no_gst]
           line_no_gst example_store).
  - reflexivity.
  - right. left.
  - reflexivity.
Defined.

Lemma post_all_or_nothing_witness :
  let out := post_orders gst_numeric (DataArray [line_18; line_no_gst])
               example_store in
  post_ok out.1 = false ∧ rows out.2 = rows example_store.
Proof.
  intros out.
  assert (post_ok out.1 = false) as Hfail by (vm_compute; reflexivity).
  split; [exact Hfail|].
  exact (post_all_or_nothing gst_numeric _ example_store out.1 out.2
           (surjective_pairing out) Hfail).
Defined.

Lemma post_inserts_every_item_witness :
  let out := post_orders gst_numeric (DataArray [line_18]) example_store in
  post_ok out.1 = true ∧ next_id out.2 = 7 ∧
  length (rows out.2) = 3%nat.
Proof.
  intros out.
  assert (post_ok out.1 = true) as Hok by (vm_compute; reflexivity).
  split; [exact Hok|].
  destruct (post_inserts_every_item gst_numeric [line_18] example_store
              out.1 out.2 (surjective_pairing out) Hok)
    as (_ & Hn & Hlen & _).
  split; [exact Hn|exact Hlen].
Defined.

Lemma post_keeps_wf_witness :
  wf_store example_store ∧
  wf_store (post_orders gst_numeric (DataArray [line_18]) example_store).2.
Proof.
  split; [exact example_store_wf|].
  exact (post_keeps_wf gst_numeric (DataArray [line_18]) example_store _ _
           example_store_wf (surjective_pairing _)).
Defined.

(** ** [GET /orders-by-number/:order_no] *)

Lemma get_run store_cast order_no s :
  order_no ≠ "" →
  get_orders_by_number store_cast order_no None s
  = let found := filter (order_no_is order_no) (rows s) in
    match found with
    | [] => GetJson404 "No orders found"
    | _ => GetJson200 found
    end.
Proof.
  intros Ho. unfold get_orders_by_number.
  by destruct (String.eqb_spec order_no "").
Qed.

Lemma get_found_answer (r : result (list (gmap string value))) :
  get_found match r with
            | Ok [] => GetJson404 "No orders found"
            | Ok found => GetJson200 found
            | Throw _ => GetJson500 "Internal server error"
            end
  = match r with
    | Ok found => found
    | Throw _ => []
    end.
Proof. by destruct r as [[|??]|]. Qed.

(** X13: the [created_at] parameter only narrows the answer: the rows found
    with it are among the rows found without it, which are the rows of the
    order; and no 200 answer is empty. *)
Theorem get_created_at_narrows store_cast order_no created_at s :
  let filtered := get_orders_by_number store_cast order_no created_at s in
  let every := get_orders_by_number store_cast order_no None s in
  sublist (get_found filtered) (get_found every) ∧
  (∀ r, r ∈ get_found every ↔ order_no ≠ "" ∧ r ∈ rows s
                               ∧ order_no_is order_no r) ∧
  filtered ≠ GetJson200 [].
Proof.
  intros filtered every. unfold filtered, every, get_orders_by_number.
  destruct (String.eqb_spec order_no "") as [->|Ho].
  { split; [done|]. split; [|done]. intros r. split; [|tauto].
    by intros ?%elem_of_nil. }
  rewrite !get_found_answer.
  change ((pool_query (select_orders store_cast order_no None) s).1)
    with (Ok (filter (order_no_is order_no) (rows s))
          : result (list (gmap string value))).
  cbv iota.
  split; [|split].
  - destruct created_at as [c|]; [|done].
    unfold select_orders. destruct (String.eqb c ""); [done|].
    destruct (store_cast "created_at" (VStr c)) as [v|];
      [|apply sublist_nil_l].
    change ((pool_query (sql_select _) s).1)
      with (Ok (filter (λ r, order_no_is order_no r
                             ∧ r !! "created_at" = Some v) (rows s))
            : result (list (gmap string value))).
    cbv iota.
    rewrite <- (list_filter_filter_l _ (order_no_is order_no)) by tauto.
    apply sublist_filter.
  - intros r. rewrite list_elem_of_filter. tauto.
  - by destruct (pool_query _ s).1 as [[|??]|].
Qed.

(** X12: after a successful reconciliation, [GET /orders-by-number] for the
    same order number answers 404 exactly when the reconciliation returned no
    row, and otherwise returns the rows the reconciliation returned. *)
Theorem put_then_get store_cast today order_no body s resp s' :
  put_orders_by_number store_cast today order_no body s = (resp, s') →
  is_success resp = true →
  match get_orders_by_number store_cast order_no None s' with
  | GetJson200 found => response_data resp = js_sort row_id found
  | GetJson404 _ => response_data resp = []
  | _ => False
  end.
Proof.
  intros Hput Hok.
  destruct (put_ok_run _ _ _ _ _ _ _ Hput Hok)
    as (Ho & _ & c & _ & -> & Hdata & _).
  rewrite get_run by (by intros ->). rewrite Hdata. cbn [rows]. cbv zeta.
  by destruct (filter _ _).
Qed.

Lemma put_then_get_witness :
  let out := put_orders_by_number accept_all "2024-06-05" "A" example_batch
               example_store in
  is_success out.1 = true ∧
  match get_orders_by_number accept_all "A" None out.2 with
  | GetJson200 found => response_data out.1 = js_sort row_id found
  | GetJson404 _ => response_data out.1 = []
  | _ => False
  end.
Proof.
  intros out.
  assert (is_success out.1 = true) as Hok by (vm_compute; reflexivity).
  split; [exact Hok|].
  exact (put_then_get accept_all "2024-06-05" "A" example_batch
           example_store out.1 out.2 (surjective_pairing out) Hok).
Defined.

(** X20: after a successful [POST /orders], [GET /orders-by-number] for the
    order number of an item finds a row with one of the returned ids, in a
    store that keeps the order number it is handed. *)
Theorem post_then_get store_cast data s resp s' item order_no :
  post_orders store_cast (DataArray data) s = (resp, s') →
  post_ok resp = true →
  item ∈ data → item !! "order_no" = Some (VStr order_no) →
  order_no ≠ "" →
  store_cast "order_no" (VStr order_no) = Some (VStr order_no) →
  ∃ r i, r ∈ get_found (get_orders_by_number store_cast order_no None s') ∧
         r !! "id" = Some (VNum i) ∧ i ∈ post_ids resp.
Proof.
  intros Hpost Hok Hin Hono Hne Hcast.
  destruct (post_ok_run _ _ _ _ _ Hpost Hok) as (storeds & Hall & -> & ->).
  apply list_elem_of_lookup in Hin as [i Hi].
  destruct (Forall2_lookup_l _ _ _ _ _ Hall Hi) as (stored & Hsto & Hst).
  assert (seqZ (next_id s) (Z.of_nat (length data)) !! i
          = Some (next_id s + Z.of_nat i)) as Hid.
  { apply lookup_seqZ. split; [done|]. apply lookup_lt_Some in Hi. lia. }
  exists (<["id" := VNum (next_id s + Z.of_nat i)]> stored),
         (next_id s + Z.of_nat i).
  split; [|split].
  - rewrite get_run by done. cbv zeta. cbn [rows].
    assert (<["id" := VNum (next_id s + Z.of_nat i)]> stored
            ∈ filter (order_no_is order_no)
                (rows s ++ zip_with (λ i stored, <["id" := VNum i]> stored)
                             (seqZ (next_id s) (Z.of_nat (length data)))
                             storeds)) as Hfound.
    { apply list_elem_of_filter. split.
      - unfold order_no_is. rewrite lookup_insert_ne by done.
        rewrite (cast_all_lookup _ _ _ _ Hst).
        assert (insertParams item !! "order_no" = Some (VStr order_no)) as ->.
        { unfold insertParams, param. rewrite Hono.
          cbn [list_to_map foldr fst snd default].
          rewrite lookup_insert_ne by discriminate. apply lookup_insert_eq. }
        exact Hcast.
      - apply elem_of_app. right.
        apply (list_elem_of_lookup_2 _ i).
        apply lookup_zip_with_Some. eauto. }
    by destruct (filter _ _).
  - apply lookup_insert_eq.
  - cbn [post_ids]. by apply (list_elem_of_lookup_2 _ i).
Qed.

Lemma post_then_get_witness :
  let out := post_orders gst_numeric (DataArray [line_18]) example_store in
  post_ok out.1 = true ∧
  ∃ r i, r ∈ get_found (get_orders_by_number gst_numeric "C" None out.2) ∧
         r !! "id" = Some (VNum i) ∧ i ∈ post_ids out.1.
Proof.
  intros out.
  assert (post_ok out.1 = true) as Hok by (vm_compute; reflexivity).
  split; [exact Hok|].
  apply (post_then_get gst_numeric [line_18] example_store out.1 out.2
           line_18 "C" (surjective_pairing out) Hok).
  - left.
  - reflexivity.
  - discriminate.
  - reflexivity.
Defined.

(** ** The update-only handler *)

Lemma omap_none {A B} (f : A → option B) (l : list A) :
  (∀ x, x ∈ l → f x = None) → omap f l = [].
Proof.
  induction l as [|x l IH]; intros Hl; [done|].
  cbn [omap list_omap]. rewrite (Hl x) by left.
  apply IH. intros y Hy. apply Hl. by right.
Qed.

Lemma join_imap_nil {A B} (f : nat → A → list B) (l : list A) :
  (∀ i x, l !! i = Some x → f i x = []) → mjoin (imap f l) = [].
Proof.
  revert f. induction l as [|y l IH]; intros f Hl; [done|].
  cbn [imap mjoin list_join]. rewrite (Hl 0%nat y) by done.
  apply (IH (f ∘ S)). intros i x Hi. by apply (Hl (S i)).
Qed.

Section UpdateOnlyValidation.
Variable StringToNumber : string → option Z.
Variable sort_by_id : list item → list item.
Hypothesis sort_by_id_perm : ∀ l, sort_by_id l ≡ₚ l.

(** The validation finds nothing in a descriptor that is not malformed. *)
Lemma validate_one_well_formed index it :
  ¬ malformed StringToNumber it → validate_one StringToNumber index it = [].
Proof.
  intros Hwf. unfold validate_one.
  destruct (has_id it) eqn:Hid.
  2:{ destruct Hwf. by left. }
  cbn [negb]. destruct (is_deleted it) eqn:Hdel; [done|].
  cbn [app]. rewrite omap_none.
  - cbn [app]. destruct (fields it !! "gst") as [v|] eqn:Hgst; [|done].
    destruct (outside_0_100 StringToNumber v) eqn:Hout; [|done].
    destruct Hwf. right. split; [done|]. right. eauto.
  - intros f Hf. destruct (fields it !! f) as [v|] eqn:Hv; [|done].
    destruct (isNaN StringToNumber v) eqn:Hnan; [|done].
    destruct Hwf. right. split; [done|]. left. eauto.
Qed.

(** The handler goes on to connect exactly when nothing is wrong with the
    request. *)
Lemma precheck_update_only_passes order_no body :
  precheck_update_only StringToNumber sort_by_id order_no body = None
  ↔ all_space order_no = false ∧ body ≠ [] ∧
    ∀ it, it ∈ body → ¬ malformed StringToNumber it.
Proof.
  split.
  - intros Hnone.
    destruct (all_space order_no) eqn:Ho.
    { pose proof (precheck_update_only_rejects StringToNumber sort_by_id
                    sort_by_id_perm order_no body ltac:(by left))
        as [r Hr]. congruence. }
    split; [done|]. split.
    + intros ->.
      pose proof (precheck_update_only_rejects StringToNumber sort_by_id
                    sort_by_id_perm order_no [] ltac:(by right; left))
        as [r Hr]. congruence.
    + intros it Hit Hbad.
      pose proof (precheck_update_only_rejects StringToNumber sort_by_id
                    sort_by_id_perm order_no body
                    ltac:(right; right; eauto)) as [r Hr]. congruence.
  - intros (Ho & Hb & Hall). unfold precheck_update_only. rewrite Ho.
    assert ((length (sort_by_id body) =? 0)%nat = false) as ->.
    { apply Nat.eqb_neq. rewrite sort_by_id_perm. by destruct body. }
    unfold validationErrors. rewrite join_imap_nil; [done|].
    intros i it Hi. apply validate_one_well_formed, Hall.
    rewrite <- sort_by_id_perm. by eapply list_elem_of_lookup_2.
Qed.
End UpdateOnlyValidation.

(** The statements of the update-only transaction touch rows of the
    requested order only, delete rows or overwrite columns other than [id]
    and [order_no]; they respect every relation that such steps respect. *)
Section UpdateOnlySteps.
Variable store_cast : string → value → option value.
Variable order_no : string.
Variable R : list (gmap string value) → Z →
             list (gmap string value) → Z → Prop.
Hypothesis R_refl : ∀ t n, R t n t n.
Hypothesis R_trans : ∀ t1 n1 t2 n2 t3 n3,
  R t1 n1 t2 n2 → R t2 n2 t3 n3 → R t1 n1 t3 n3.
Hypothesis R_filter : ∀ t n (p : gmap string value → Prop)
  `{!∀ r, Decision (p r)},
  (∀ r, p r → order_no_is order_no r) →
  R t n (filter (λ r, ¬ p r) t) n.
Hypothesis R_set : ∀ t n (p : gmap string value → Prop)
  `{!∀ r, Decision (p r)} (stored : gmap string value),
  (∀ r, p r → order_no_is order_no r) →
  stored !! "id" = None → stored !! "order_no" = None →
  R t n (set_where p stored <$> t) n.

Lemma uo_delete_phase toDelete :
  preserves R (UpdateOnly.delete_phase order_no toDelete).
Proof.
  unfold UpdateOnly.delete_phase. cbv zeta.
  destruct (0 <? length toDelete)%nat; [|by apply preserves_ret].
  apply preserves_bind; [exact R_trans| |intros ?; by apply preserves_ret].
  intros k t n. apply satisfies_delete, R_filter. tauto.
Qed.

Lemma uo_filteredFields_keys flds :
  UpdateOnly.filteredFields flds !! "id" = None ∧
  UpdateOnly.filteredFields flds !! "order_no" = None.
Proof.
  split; apply map_lookup_filter_None; right; intros v _; compute_done.
Qed.

Lemma uo_update_one update :
  preserves R (UpdateOnly.update_one store_cast order_no update).
Proof.
  unfold UpdateOnly.update_one. cbv zeta.
  case_decide; [by apply preserves_ret|].
  apply preserves_bind; [exact R_trans| |].
  - intros k t n. apply satisfies_update.
    destruct (cast_all store_cast _) as [stored|e] eqn:Hcast;
      [|apply R_refl].
    apply R_set; [tauto|..];
      eapply cast_all_lookup_None; eauto; apply uo_filteredFields_keys.
  - intros rowCount.
    case_decide; [by apply preserves_throw|by apply preserves_ret].
Qed.

Lemma uo_update_phase toUpdate :
  preserves R (UpdateOnly.update_phase store_cast order_no toUpdate).
Proof.
  induction toUpdate as [|u l IH]; cbn [UpdateOnly.update_phase].
  { by apply preserves_ret. }
  apply preserves_bind; [exact R_trans|apply uo_update_one|by intros _].
Qed.

Lemma uo_phases toDelete toUpdate :
  preserves R
    (UpdateOnly.delete_phase order_no toDelete ≫= λ _,
     UpdateOnly.update_phase store_cast order_no toUpdate).
Proof.
  apply preserves_bind; [exact R_trans|apply uo_delete_phase|].
  intros _. apply uo_update_phase.
Qed.
End UpdateOnlySteps.

Section UpdateOnlyFacts.
Variable store_cast : string → value → option value.
Variable StringToNumber : string → option Z.
Variable sort_by_id : list item → list item.
Hypothesis sort_by_id_perm : ∀ l, sort_by_id l ≡ₚ l.

(** The handler past its validation, in terms of the verification and of
    what the delete and update statements do inside the transaction. *)
Lemma uo_run order_no body s :
  precheck_update_only StringToNumber sort_by_id order_no body = None →
  UpdateOnly.put_orders_by_number store_cast StringToNumber sort_by_id
    order_no body s
  = let updates := sort_by_id body in
    let ids := sort_key <$> updates in
    if decide (length (filter (λ r, id_in ids r ∧ order_no_is order_no r)
                         (rows s)) ≠ length ids)
    then (UpdateOnly.UpdateFailed (UpdateOnly.SomeIdsDoNotBelong order_no), s)
    else
      match (UpdateOnly.delete_phase order_no (itemsToDelete updates) ≫= λ _,
             UpdateOnly.update_phase store_cast order_no
               (UpdateOnly.itemsToUpdate updates))
              (in_tx (rows s) (rows s) (next_id s)) with
      | (Ok _, c) =>
          (UpdateOnly.Processed
             (length (UpdateOnly.itemsToUpdate updates))
             (length (itemsToDelete updates))
             (js_sort row_id (filter (order_no_is order_no) (visible c))),
           {| rows := visible c; next_id := seq c |})
      | (Throw e, c) =>
          (UpdateOnly.UpdateFailed (UpdateOnly.Raised e),
           {| rows := committed c; next_id := seq c |})
      end.
Proof.
  intros Hpre. unfold UpdateOnly.put_orders_by_number. rewrite Hpre.
  unfold UpdateOnly.try_block. rewrite run_bind.
  change (query_begin (connect s))
    with (Ok (), in_tx (rows s) (rows s) (next_id s)).
  cbv iota zeta. rewrite run_bind, run_select. cbv iota.
  case_decide as Hcount.
  { by destruct s. }
  rewrite !run_bind.
  destruct (UpdateOnly.delete_phase _ _ _) as [[[]|e] c1]; [|done].
  rewrite run_bind.
  destruct (UpdateOnly.update_phase _ _ _ _) as [[[]|e] c2]; [|done].
  reflexivity.
Qed.

(** A [try] block of the update-only handler that answers with the
    processed rows has committed: the connection is released with no
    transaction open. *)
Lemma uo_try_closed order_no updates s r c :
  UpdateOnly.try_block store_cast order_no updates (connect s)
  = (Ok (Some r), c) →
  tx c = None.
Proof.
  unfold UpdateOnly.try_block. rewrite run_bind.
  change (query_begin (connect s))
    with (Ok (), in_tx (rows s) (rows s) (next_id s)).
  cbv iota zeta. rewrite run_bind, run_select. cbv iota.
  case_decide as Hcount; [done|].
  rewrite !run_bind.
  destruct (UpdateOnly.delete_phase _ _ _) as [[[]|e] c1]; [|done].
  rewrite run_bind.
  destruct (UpdateOnly.update_phase _ _ _ _) as [[[]|e] c2]; [|done].
  cbn. by intros [= _ <-].
Qed.

Lemma uo_ids_perm body :
  sort_key <$> sort_by_id body ≡ₚ sort_key <$> body.
Proof. by rewrite sort_by_id_perm. Qed.

(** What the handler leaves behind, whatever it answers. *)
Lemma uo_effect order_no body s resp s' :
  UpdateOnly.put_orders_by_number store_cast StringToNumber sort_by_id
    order_no body s = (resp, s') →
  (UpdateOnly.processed resp = false → s' = s) ∧
  stays (rows s) (next_id s) (rows s') (next_id s') ∧
  other_orders order_no (rows s') = other_orders order_no (rows s) ∧
  (wf_store s → wf_store s') ∧
  (UpdateOnly.processed resp = true →
   UpdateOnly.processed_data resp
   = js_sort row_id (filter (order_no_is order_no) (rows s'))).
Proof.
  intros Hput.
  destruct (precheck_update_only StringToNumber sort_by_id order_no body)
    as [r|] eqn:Hpre.
  { unfold UpdateOnly.put_orders_by_number in Hput. rewrite Hpre in Hput.
    injection Hput as <- <-.
    split; [done|]. split; [apply stays_refl|]. done. }
  rewrite uo_run in Hput by done. cbv zeta in Hput.
  case_decide as Hcount.
  { injection Hput as <- <-.
    split; [done|]. split; [apply stays_refl|]. done. }
  match type of Hput with
  | context [ match ?x with _ => _ end ] => destruct x as [r c] eqn:Hrun
  end.
  pose proof Hrun as Hrun1. pose proof Hrun as Hrun2.
  apply (satisfies_elim _ _ _ _ _ _ _
           (uo_phases store_cast order_no stays stays_refl stays_trans
              (λ t n p _ _, stays_filter t n (λ r, ¬ p r))
              (λ t n p _ stored _, stays_set t n p stored) _ _ _ _ _))
    in Hrun as (t' & n' & -> & Hstays).
  apply (satisfies_elim _ _ _ _ _ _ _
           (uo_phases store_cast order_no (frame order_no)
              (frame_refl order_no) (frame_trans order_no)
              (λ t n p _ Hp, frame_filter order_no t n p Hp)
              (λ t n p _ stored Hp _ Ho,
                 frame_set order_no t n p stored Hp Ho) _ _ _ _ _))
    in Hrun1 as (t1 & n1 & Heq1 & Hframe).
  apply (satisfies_elim _ _ _ _ _ _ _
           (uo_phases store_cast order_no wf_kept wf_kept_refl wf_kept_trans
              (λ t n p _ _, wf_kept_filter t n (λ r, ¬ p r))
              (λ t n p _ stored _, wf_kept_set t n p stored) _ _ _ _ _))
    in Hrun2 as (t2 & n2 & Heq2 & Hkept).
  injection Heq1 as <- <-. injection Heq2 as <- <-.
  pose proof Hstays as [-> _].
  destruct r as [[]|e]; injection Hput as <- <-;
    cbn [rows next_id visible committed tx seq in_tx UpdateOnly.processed
         UpdateOnly.processed_data].
  - split; [done|]. split; [done|]. split; [done|]. split; [|done].
    exact Hkept.
  - split; [by destruct s|]. split; [apply stays_refl|]. done.
Qed.
End UpdateOnlyFacts.

(** X23: the update-only handler gets past its validation exactly when the
    order number is not blank, the batch is not empty and no descriptor is
    malformed; when it answers 400 the store is left as it was. *)
Theorem update_only_validation store_cast StringToNumber sort_by_id
    order_no body s :
  (∀ l, sort_by_id l ≡ₚ l) →
  let out := UpdateOnly.put_orders_by_number store_cast StringToNumber
               sort_by_id order_no body s in
  (rejected out.1 = false
   ↔ all_space order_no = false ∧ body ≠ [] ∧
     ∀ it, it ∈ body → ¬ malformed StringToNumber it) ∧
  (rejected out.1 = true → out.2 = s).
Proof.
  intros Hperm out.
  pose proof (precheck_update_only_passes StringToNumber sort_by_id Hperm
                order_no body) as Hiff.
  unfold out.
  destruct (precheck_update_only StringToNumber sort_by_id order_no body)
    as [r|] eqn:Hpre.
  - unfold UpdateOnly.put_orders_by_number. rewrite Hpre. cbn [fst snd rejected].
    split; [|done]. split; [done|]. intros H. by apply Hiff in H.
  - assert (rejected (UpdateOnly.put_orders_by_number store_cast
                        StringToNumber sort_by_id order_no body s).1 = false)
      as Hrej.
    { rewrite uo_run by done. cbv zeta. case_decide; [done|].
      by match goal with
         | |- context [ match ?x with _ => _ end ] =>
             destruct x as [[[]|?] ?]
         end. }
    rewrite Hrej. split; [|done]. split; [|done].
    intros _. by apply Hiff.
Qed.

Lemma update_only_validation_witness :
  let out := UpdateOnly.put_orders_by_number accept_all (λ _, None)
               (js_sort sort_key) "A" gst_batch example_store in
  rejected out.1 = true ∧ out.2 = example_store.
Proof.
  intros out.
  assert (rejected out.1 = true) as Hrej by (vm_compute; reflexivity).
  split; [exact Hrej|].
  exact (proj2 (update_only_validation accept_all (λ _, None)
                  (js_sort sort_key) "A" gst_batch example_store
                  (js_sort_perm sort_key)) Hrej).
Defined.

(** X24: whenever the update-only handler does not answer with the
    processed rows, the store is the store before the request. *)
Theorem update_only_all_or_nothing store_cast StringToNumber sort_by_id
    order_no body s resp s' :
  UpdateOnly.put_orders_by_number store_cast StringToNumber sort_by_id
    order_no body s = (resp, s') →
  UpdateOnly.processed resp = false →
  s' = s.
Proof.
  intros Hput Hfail.
  by apply (uo_effect store_cast StringToNumber sort_by_id order_no body s
              resp s' Hput).
Qed.

Lemma update_only_all_or_nothing_witness :
  let out := UpdateOnly.put_orders_by_number accept_all (λ _, None)
               (js_sort sort_key) "A" foreign_batch example_store in
  UpdateOnly.processed out.1 = false ∧ out.2 = example_store.
Proof.
  intros out.
  assert (UpdateOnly.processed out.1 = false) as Hfail
    by (vm_compute; reflexivity).
  split; [exact Hfail|].
  exact (update_only_all_or_nothing accept_all (λ _, None)
           (js_sort sort_key) "A" foreign_batch example_store out.1 out.2
           (surjective_pairing out) Hfail).
Defined.

(** X25: the update-only handler never inserts: the id sequence stays, every
    row it leaves is a row it found, with its id and order number, the rows
    of the other orders are untouched and the primary key is kept. *)
Theorem update_only_never_inserts store_cast StringToNumber sort_by_id
    order_no body s resp s' :
  UpdateOnly.put_orders_by_number store_cast StringToNumber sort_by_id
    order_no body s = (resp, s') →
  next_id s' = next_id s ∧
  (∀ r', r' ∈ rows s' → ∃ r, r ∈ rows s ∧ keys r' = keys r) ∧
  other_orders order_no (rows s') = other_orders order_no (rows s) ∧
  (wf_store s → wf_store s').
Proof.
  intros Hput.
  destruct (uo_effect store_cast StringToNumber sort_by_id order_no body s
              resp s' Hput) as (_ & [Hn Hrows] & Hframe & Hwf & _).
  done.
Qed.

Lemma update_only_never_inserts_witness :
  let out := UpdateOnly.put_orders_by_number accept_all (λ _, None)
               (js_sort sort_key) "A" update_batch example_store in
  next_id out.2 = 6 ∧
  other_orders "A" (rows out.2) = other_orders "A" (rows example_store).
Proof.
  intros out.
  destruct (update_only_never_inserts accept_all (λ _, None)
              (js_sort sort_key) "A" update_batch example_store out.1 out.2
              (surjective_pairing out)) as (Hn & _ & Hframe & _).
  split; [exact Hn|exact Hframe].
Defined.



(** X27: the [data] of a processed response of the update-only handler is
    the committed rows of the order in ascending id order, and its two counts
    add up to the size of the batch. *)
Theorem update_only_response store_cast StringToNumber sort_by_id
    order_no body s resp s' :
  (∀ l, sort_by_id l ≡ₚ l) →
  UpdateOnly.put_orders_by_number store_cast StringToNumber sort_by_id
    order_no body s = (resp, s') →
  UpdateOnly.processed resp = true →
  UpdateOnly.processed_data resp
  = js_sort row_id (filter (order_no_is order_no) (rows s')) ∧
  ((processed_counts resp).1 + (processed_counts resp).2 = length body)%nat ∧
  (processed_counts resp).2
  = length (filter (λ it, is_deleted it = true) body).
Proof.
  intros Hperm Hput Hok.
  destruct (uo_effect store_cast StringToNumber sort_by_id order_no body s
              resp s' Hput) as (_ & _ & _ & _ & Hdata).
  split; [by apply Hdata|].
  destruct (precheck_update_only StringToNumber sort_by_id order_no body)
    as [r|] eqn:Hpre.
  { unfold UpdateOnly.put_orders_by_number in Hput. rewrite Hpre in Hput.
    by injection Hput as <- _. }
  apply (precheck_update_only_passes _ _ Hperm) in Hpre as (_ & _ & Hwf).
  assert (Hid : ∀ it, it ∈ sort_by_id body → has_id it = true).
  { intros it Hit. rewrite Hperm in Hit.
    destruct (has_id it) eqn:Hid; [done|]. destruct (Hwf it Hit). by left. }
  assert (Hdel : itemsToDelete (sort_by_id body)
                 = filter (λ it, is_deleted it = true) (sort_by_id body)).
  { apply filter_iff_in. intros it Hit. rewrite (Hid it Hit).
    by rewrite andb_true_r. }
  assert (Hlen : (length (UpdateOnly.itemsToUpdate (sort_by_id body))
                  + length (itemsToDelete (sort_by_id body))
                  = length body)%nat).
  { rewrite Hdel. unfold UpdateOnly.itemsToUpdate.
    rewrite <- (Permutation_length (Hperm body)).
    generalize (sort_by_id body). intros l.
    induction l as [|it l IH]; [done|].
    rewrite !filter_cons. destruct (is_deleted it); simpl;
      repeat case_decide; try done; simpl; lia. }
  assert (Hdel' : length (itemsToDelete (sort_by_id body))
                  = length (filter (λ it, is_deleted it = true) body)).
  { rewrite Hdel. apply Permutation_length. by rewrite (Hperm body). }
  unfold UpdateOnly.put_orders_by_number in Hput.
  destruct (precheck_update_only _ _ _ _) as [r|]; [by injection Hput as <- _|].
  unfold UpdateOnly.try_block in Hput. rewrite run_bind in Hput.
  change (query_begin (connect s))
    with (Ok (), in_tx (rows s) (rows s) (next_id s)) in Hput.
  cbv iota zeta in Hput. rewrite run_bind, run_select in Hput.
  cbv iota in Hput.
  case_decide; [by injection Hput as <- _|].
  rewrite !run_bind in Hput.
  destruct (UpdateOnly.delete_phase _ _ _) as [[[]|e] c1];
    [|by injection Hput as <- _].
  rewrite run_bind in Hput.
  destruct (UpdateOnly.update_phase _ _ _ _) as [[[]|e] c2];
    [|by injection Hput as <- _].
  injection Hput as <- _. cbn [processed_counts fst snd]. done.
Qed.

Lemma update_only_response_witness :
  let out := UpdateOnly.put_orders_by_number accept_all (λ _, None)
               (js_sort sort_key) "A" update_batch example_store in
  UpdateOnly.processed out.1 = true ∧
  UpdateOnly.processed_data out.1
  = js_sort row_id (filter (order_no_is "A") (rows out.2)).
Proof.
  intros out.
  assert (UpdateOnly.processed out.1 = true) as Hok
    by (vm_compute; reflexivity).
  split; [exact Hok|].
  exact (proj1 (update_only_response accept_all (λ _, None)
                  (js_sort sort_key) "A" update_batch example_store
                  out.1 out.2 (js_sort_perm sort_key)
                  (surjective_pairing out) Hok)).
Defined.

(** ** Updating a customer *)

Section CustomerFacts.
Variable store_cast : string → value → option value.

(** An [UPDATE] through the pool. *)
Lemma pool_update_run p `{!∀ r, Decision (p r)} sets s :
  pool_query (sql_update store_cast p sets) s
  = match cast_all store_cast sets with
    | Ok stored =>
        (Ok (length (filter p (rows s))),
         {| rows := set_where p stored <$> rows s; next_id := next_id s |})
    | Throw e => (Throw e, s)
    end.
Proof.
  unfold pool_query, sql_update. rewrite run_bind.
  unfold cast_params at 1.
  destruct (cast_all store_cast sets) as [stored|e]; [done|by destruct s].
Qed.

(** The handler leaves the table as it was or applies the allowlisted
    columns to the rows of the customer code. *)
Lemma put_distributors_effect customerCode updates s resp s' :
  Customer.put_distributors store_cast customerCode updates s = (resp, s') →
  s' = s ∨
  ∃ stored,
    cast_all store_cast
      (filter (λ kv, kv.1 ∈ Customer.allowedFields) updates) = Ok stored ∧
    s' = {| rows := set_where (Customer.customer_code_is customerCode) stored
                      <$> rows s;
            next_id := next_id s |}.
Proof.
  unfold Customer.put_distributors. cbv zeta.
  case_decide; [intros [= _ <-]; by left|].
  case_decide; [intros [= _ <-]; by left|].
  rewrite pool_update_run.
  destruct (cast_all store_cast _) as [stored|e]; [|intros [= _ <-]; by left].
  case_decide; intros [= _ <-]; right; eauto.
Qed.

Lemma put_corporates_store customerCode updates s :
  (Customer.put_corporates store_cast customerCode updates s).2
  = (Customer.put_distributors store_cast customerCode updates s).2.
Proof.
  unfold Customer.put_corporates, Customer.put_distributors. cbv zeta.
  case_decide; [done|]. case_decide; [done|].
  destruct (pool_query _ s) as [[rowCount|e] s']; [|done].
  by case_decide.
Qed.
End CustomerFacts.

(** A customer code that no row carries. *)
Lemma customer_not_found store_cast customerCode updates s :
  (∀ r, r ∈ rows s → ¬ Customer.customer_code_is customerCode r) →
  (Customer.put_distributors store_cast customerCode updates s).2 = s ∧
  ∀ m n, (Customer.put_distributors store_cast customerCode updates s).1
         ≠ Customer.Json200 m n.
Proof.
  intros Hnone.
  unfold Customer.put_distributors. cbv zeta.
  case_decide; [done|]. case_decide; [done|].
  rewrite pool_update_run.
  destruct (cast_all store_cast _) as [stored|e]; [|done].
  rewrite (filter_none (Customer.customer_code_is customerCode)) by done.
  cbn [length]. rewrite decide_True by done. cbn [fst snd].
  split; [|done]. rewrite set_where_none by done. by destruct s.
Qed.

(** X28: [PUT /distributors/:customer_code] keeps the rows of the customer
    table in place and changes, in the rows of the customer code only, no
    column outside its allowlist; when no row has the customer code it
    changes nothing and does not answer with the success response. *)
Theorem customer_update_allowlist store_cast customerCode updates s resp s' :
  Customer.put_distributors store_cast customerCode updates s = (resp, s') →
  next_id s' = next_id s ∧ length (rows s') = length (rows s) ∧
  (∀ (i : nat) r r', rows s !! i = Some r → rows s' !! i = Some r' →
     (∀ c, c ∉ Customer.allowedFields → r' !! c = r !! c) ∧
     (¬ Customer.customer_code_is customerCode r → r' = r)) ∧
  ((∀ r, r ∈ rows s → ¬ Customer.customer_code_is customerCode r) →
   s' = s ∧ ∀ m n, resp ≠ Customer.Json200 m n).
Proof.
  intros Hput.
  assert (Hnone : (∀ r, r ∈ rows s →
                        ¬ Customer.customer_code_is customerCode r) →
                  s' = s ∧ ∀ m n, resp ≠ Customer.Json200 m n).
  { intros Hno.
    pose proof (customer_not_found store_cast customerCode updates s Hno)
      as Hnf.
    rewrite Hput in Hnf. exact Hnf. }
  destruct (put_distributors_effect store_cast _ _ _ _ _ Hput)
    as [->|(stored & Hcast & ->)].
  { split; [done|]. split; [done|]. split; [|exact Hnone].
    intros i r r' Hr Hr'.
    assert (r' = r) as -> by congruence. done. }
  cbn [rows next_id]. split; [done|]. split; [by rewrite length_fmap|].
  split; [|exact Hnone].
  intros i r r' Hr Hr'. rewrite list_lookup_fmap, Hr in Hr'.
  injection Hr' as <-. unfold set_where.
  case_decide as Hcode; [|done]. split; [|done].
  intros c Hc. apply lookup_union_r.
  apply (cast_all_lookup_None _ _ _ _ Hcast).
  apply map_lookup_filter_None. right. intros v _. exact Hc.
Qed.

Lemma customer_update_allowlist_witness :
  let out := Customer.put_distributors accept_all "D1"
               {[ "customer_name" := VStr "New";
                  "customer_code" := VStr "D2" ]} customer_store in
  next_id out.2 = 2 ∧ length (rows out.2) = 1%nat.
Proof.
  intros out.
  destruct (customer_update_allowlist accept_all "D1"
              {[ "customer_name" := VStr "New";
                 "customer_code" := VStr "D2" ]} customer_store out.1 out.2
              (surjective_pairing out)) as (Hn & Hlen & _).
  split; [exact Hn|exact Hlen].
Defined.

(** X29: [PUT /corporates/:customer_code] has the effect of
    [PUT /distributors/:customer_code] on the customer table and succeeds on
    the same requests: neither looks at the customer type. *)
Theorem customer_routes_agree store_cast customerCode updates s :
  (Customer.put_corporates store_cast customerCode updates s).2
  = (Customer.put_distributors store_cast customerCode updates s).2 ∧
  ((∃ m n, (Customer.put_corporates store_cast customerCode updates s).1
           = Customer.Json200 m n)
   ↔ ∃ m n, (Customer.put_distributors store_cast customerCode updates s).1
            = Customer.Json200 m n).
Proof.
  split; [apply put_corporates_store|].
  unfold Customer.put_corporates, Customer.put_distributors. cbv zeta.
  case_decide; [done|]. case_decide; [done|].
  destruct (pool_query _ s) as [[rowCount|e] s']; [|done].
  case_decide; cbn [fst]; split; intros (m & n & Heq); try done; eauto.
Qed.

(** ** The token of a request *)

Lemma split_without_then sep a rest :
  without sep a = true →
  split sep (a +:+ String sep rest) = a :: split sep rest.
Proof.
  induction a as [|x a IH]; intros Ha.
  - change ("" +:+ ?s) with s. cbn [split]. by rewrite Ascii.eqb_refl.
  - cbn [without] in Ha. apply andb_true_iff in Ha as [Hx Ha].
    change (String x a +:+ ?s) with (String x (a +:+ s)).
    cbn [split]. rewrite (IH Ha).
    by destruct (Ascii.eqb x sep).
Qed.

Lemma split_without sep a : without sep a = true → split sep a = [a].
Proof.
  induction a as [|x a IH]; intros Ha; [done|].
  cbn [without] in Ha. apply andb_true_iff in Ha as [Hx Ha].
  cbn [split]. rewrite (IH Ha). by destruct (Ascii.eqb x sep).
Qed.

(** X30: [verifyToken] hands the second space-separated word of the header
    to the verifier, whatever the first word is; a header of one word, or no
    header, is answered 401 without a call to the verifier. *)
Theorem verifyToken_second_word verifyIdToken (scheme token : string) :
  without " " scheme = true → without " " token = true →
  verifyToken verifyIdToken (Some (scheme +:+ " " +:+ token))
  = (if String.eqb token "" then Json401 "No token provided"
     else match verifyIdToken token with
          | Some uid => Next uid
          | None => Json401 "Invalid token"
          end)
  ∧ verifyToken verifyIdToken (Some scheme) = Json401 "No token provided"
  ∧ verifyToken verifyIdToken None = Json401 "No token provided".
Proof.
  intros Hs Ht. unfold verifyToken. cbn [mbind option_bind].
  change (" " +:+ ?s) with (String " " s).
  rewrite (split_without_then " " scheme) by done.
  rewrite (split_without " " token), (split_without " " scheme) by done.
  done.
Qed.

Lemma verifyToken_second_word_witness :
  verifyToken (λ t, if String.eqb t "abc" then Some "u1" else None)
    (Some "Basic abc") = Next "u1".
Proof.
  exact (proj1 (verifyToken_second_word
                  (λ t, if String.eqb t "abc" then Some "u1" else None)
                  "Basic" "abc" eq_refl eq_refl)).
Defined.
